(** * Blue Zone Analysis: the overlay / aggregate / threshold / union pipeline

    A shallow embedding of the three epoch scripts
    [id_bluebelts_past.py], [id_bluebelts_present.py] and
    [id_bluebelts_future.py].  The scripts are straight-line pandas
    programs, so the embedding has two layers:

    - a small model of the pandas operations the scripts call
      (column access and assignment, [groupby(..).agg(..)],
      [merge(.., how=.., suffixes=..)], row sums, null-tolerant
      comparisons), with the errors pandas raises written out;
    - the scripts themselves, statement by statement, in an error monad.

    Conventions of the model.
    - A geometry is observed by the scripts only through [.area]; a
      geometry cell is therefore [Geom a] with [a] its area.
    - float64 numbers are exact rationals ([Q]); rounding is outside the
      model.
    - The polygon overlay of the geometry engine is an input: each layer is
      given as the table [gpd.overlay(atomic_polygons, gdf)] returns.
    - Writing a table to CSV and reading it back is the identity.
    - [to_crs] changes geometries only, and a geometry's area is its area
      in the projected system. *)

From Stdlib Require Import List String Ascii Bool ZArith QArith Lia Permutation.
From Stdlib Require Import DecimalString.
Import ListNotations.
Open Scope string_scope.
Open Scope Q_scope.
Open Scope list_scope.

(** ** Errors *)

Inductive error : Type :=
| KeyError (what : string)
| TypeError (what : string)
| MergeError (what : string)
| IndexError (what : string).

Inductive result (A : Type) : Type :=
| Ok (a : A)
| Err (e : error).

Arguments Ok {A} a.
Arguments Err {A} e.

Definition bind {A B : Type} (m : result A) (k : A -> result B) : result B :=
  match m with
  | Ok a => k a
  | Err e => Err e
  end.

Notation "x <- m ;; k" := (bind m (fun x => k))
  (at level 61, m at next level, right associativity).
Notation "m ;;; k" := (bind m (fun _ => k))
  (at level 61, right associativity).

Fixpoint mapM {A B : Type} (f : A -> result B) (l : list A) : result (list B) :=
  match l with
  | [] => Ok []
  | a :: l' => b <- f a ;; bs <- mapM f l' ;; Ok (b :: bs)
  end.

Fixpoint foldM {A B : Type} (f : B -> A -> result B) (l : list A) (b : B) : result B :=
  match l with
  | [] => Ok b
  | a :: l' => b' <- f b a ;; foldM f l' b'
  end.

(** ** Cell values *)

Inductive value : Type :=
| NaN                (* missing: NaN / None *)
| Int (z : Z)        (* int64 *)
| Float (q : Q)      (* float64 *)
| Str (s : string)   (* object *)
| Geom (a : Q).      (* a geometry, by its area *)

Definition to_Q (v : value) : option Q :=
  match v with
  | Int z => Some (inject_Z z)
  | Float q => Some q
  | _ => None
  end.

Definition isna (v : value) : bool :=
  match v with NaN => true | _ => false end.

(** [geometry.area]. *)
Definition area_of (v : value) : value :=
  match v with
  | Geom a => Float a
  | _ => NaN
  end.

(** [c * v] for a float constant [c]. *)
Definition scale (c : Q) (v : value) : result value :=
  match v with
  | NaN => Ok NaN
  | Int z => Ok (Float (c * inject_Z z))
  | Float q => Ok (Float (c * q))
  | Str _ => Err (TypeError "can't multiply sequence by non-int of type 'float'")
  | Geom _ => Err (TypeError "unsupported operand type(s) for *")
  end.

(** [a >= b], elementwise: a comparison with a missing value is [False]. *)
Definition ge (a b : value) : result bool :=
  match a, b with
  | NaN, (NaN | Int _ | Float _) => Ok false
  | (Int _ | Float _), NaN => Ok false
  | (Int _ | Float _), (Int _ | Float _) =>
      match to_Q a, to_Q b with
      | Some x, Some y => Ok (Qle_bool y x)
      | _, _ => Ok false
      end
  | _, _ => Err (TypeError "'>=' not supported between these instances")
  end.

(** [v == z], elementwise; never an error. *)
Definition eq_int (v : value) (z : Z) : bool :=
  match to_Q v with
  | Some q => Qeq_bool q (inject_Z z)
  | None => false
  end.

(** [.astype(int)] of a boolean. *)
Definition astype_int (b : bool) : value := Int (if b then 1 else 0)%Z.

(** Keys match in [merge] when they are equal; two missing keys match each
    other. *)
Definition key_match (a b : value) : bool :=
  match a, b with
  | NaN, NaN => true
  | Str s, Str t => String.eqb s t
  | _, _ =>
      match to_Q a, to_Q b with
      | Some x, Some y => Qeq_bool x y
      | _, _ => false
      end
  end.

(** The order in which [groupby] and an outer [merge] return their keys:
    ascending, missing keys last.  (pandas compares numbers with numbers
    and strings with strings; numbers are put before strings here.) *)
Definition key_leb (a b : value) : bool :=
  match a, b with
  | _, NaN => true
  | NaN, _ => false
  | Str s, Str t => String.leb s t
  | Str _, _ => false
  | _, Str _ => true
  | _, _ =>
      match to_Q a, to_Q b with
      | Some x, Some y => Qle_bool x y
      | Some _, None => true
      | None, _ => false
      end
  end.

(** ** Rows and tables *)

Definition Row : Type := list (string * value).

Definition labels (r : Row) : list string := map fst r.

Definition cell (r : Row) (c : string) : value :=
  match find (fun p => String.eqb (fst p) c) r with
  | Some p => snd p
  | None => NaN
  end.

Definition mem (c : string) (l : list string) : bool :=
  existsb (String.eqb c) l.

(** [r[c] = v]: overwrite the cell when the label exists, else append. *)
Definition set_cell (r : Row) (c : string) (v : value) : Row :=
  if mem c (labels r)
  then map (fun p => if String.eqb (fst p) c then (fst p, v) else p) r
  else r ++ [(c, v)].

Record DataFrame : Type := mkDF {
  columns : list string;
  rows : list Row
}.

Definition has_column (df : DataFrame) (c : string) : bool := mem c (columns df).

(** [df[c]] raises [KeyError] on a label that is not a column. *)
Definition require (df : DataFrame) (c : string) : result unit :=
  if has_column df c then Ok tt else Err (KeyError c).

Definition add_column (cols : list string) (c : string) : list string :=
  if mem c cols then cols else cols ++ [c].

(** [df[c] = e] where [e] is an elementwise expression over the columns of
    [df]: [f r] is the value of [e] on row [r]. *)
Definition assign (df : DataFrame) (c : string) (f : Row -> result value)
  : result DataFrame :=
  rs <- mapM (fun r => v <- f r ;; Ok (set_cell r c v)) (rows df) ;;
  Ok (mkDF (add_column (columns df) c) rs).

(** [df[cols]] for labels known to be columns. *)
Definition keep_row (cols : list string) (r : Row) : Row :=
  map (fun c => (c, cell r c)) cols.

Definition select (df : DataFrame) (cols : list string) : DataFrame :=
  mkDF cols (map (keep_row cols) (rows df)).

(** A well-formed table: every row carries exactly the table's labels. *)
Definition wf (df : DataFrame) : Prop :=
  Forall (fun r => labels r = columns df) (rows df).

Definition wfb (df : DataFrame) : bool :=
  forallb (fun r => if list_eq_dec string_dec (labels r) (columns df) then true else false)
          (rows df).

(** ** Sorting by key (stable insertion sort) *)

Fixpoint insert_by {A : Type} (key : A -> value) (x : A) (l : list A) : list A :=
  match l with
  | [] => [x]
  | y :: l' => if key_leb (key x) (key y) then x :: l else y :: insert_by key x l'
  end.

Definition sort_by {A : Type} (key : A -> value) (l : list A) : list A :=
  fold_right (insert_by key) [] l.

(** ** [df.groupby(kcol).agg({c: f, ...}).reset_index()] *)

Inductive aggfun : Type := Sum | First.

Definition numbers (vs : list value) : list Q :=
  flat_map (fun v => match to_Q v with Some q => [q] | None => [] end) vs.

(** ['sum'] over a float column skips missing values; the sum of no value
    is [0.0]. *)
Definition agg_sum (vs : list value) : value :=
  Float (fold_left Qplus (numbers vs) 0).

(** ['first']: the first value of the group that is not missing. *)
Definition agg_first (vs : list value) : value :=
  match filter (fun v => negb (isna v)) vs with
  | v :: _ => v
  | [] => NaN
  end.

Definition apply_agg (f : aggfun) (vs : list value) : value :=
  match f with
  | Sum => agg_sum vs
  | First => agg_first vs
  end.

(** The rows of [df] whose key matches [k]. *)
Definition matches (df : DataFrame) (on : string) (k : value) : list Row :=
  filter (fun r => key_match (cell r on) k) (rows df).

(** First occurrences, one per class of matching keys. *)
Fixpoint distinct_keys (ks : list value) : list value :=
  match ks with
  | [] => []
  | k :: ks' => k :: filter (fun k' => negb (key_match k k')) (distinct_keys ks')
  end.

(** The group keys: rows with a missing key are dropped ([dropna=True]),
    and the keys come out sorted ([sort=True]). *)
Definition present_keys (df : DataFrame) (kcol : string) : list value :=
  filter (fun k => negb (isna k)) (map (fun r => cell r kcol) (rows df)).

Definition group_keys (df : DataFrame) (kcol : string) : list value :=
  sort_by (fun k => k) (distinct_keys (present_keys df kcol)).

Definition agg_row (df : DataFrame) (kcol : string) (aggs : list (string * aggfun))
           (k : value) : Row :=
  (kcol, k) ::
  map (fun a => (fst a, apply_agg (snd a) (map (fun r => cell r (fst a)) (matches df kcol k))))
      aggs.

Definition groupby_agg (df : DataFrame) (kcol : string) (aggs : list (string * aggfun))
  : result DataFrame :=
  require df kcol ;;;
  mapM (fun a => require df (fst a)) aggs ;;;
  Ok (mkDF (kcol :: map fst aggs) (map (agg_row df kcol aggs) (group_keys df kcol))).

(** ** [left.merge(right, on=key, how=.., suffixes=(lsfx, rsfx))] *)

Inductive how : Type := Outer | Left.

Definition suffixed (ov : list string) (sfx : string) (c : string) : string :=
  if mem c ov then (c ++ sfx)%string else c.

Definition rename_row (ov : list string) (sfx : string) (r : Row) : Row :=
  map (fun p => (suffixed ov sfx (fst p), snd p)) r.

Definition drop_label (on : string) (r : Row) : Row :=
  filter (fun p => negb (String.eqb (fst p) on)) r.

Definition nan_row (cols : list string) : Row := map (fun c => (c, NaN)) cols.

(** A label that the suffixes turned into a duplicate within one side. *)
Fixpoint suffix_dups (seen_old seen_new old new : list string) : bool :=
  match old, new with
  | o :: old', n :: new' =>
      (mem n seen_new && negb (mem o seen_old))
      || suffix_dups (o :: seen_old) (n :: seen_new) old' new'
  | _, _ => false
  end.

(** The labels other than the key. *)
Definition without (on : string) (cols : list string) : list string :=
  filter (fun c => negb (String.eqb c on)) cols.

(** The labels of the left table that the right table has too. *)
Definition overlapping (lcols rcols : list string) : list string :=
  filter (fun c => mem c rcols) lcols.

(** The rows a left row gives: one per matching right row, or one filled
    with missing values when there is none. *)
Definition left_rows (ov : list string) (lsfx rsfx : string) (rcols : list string)
           (left right : DataFrame) (on : string) : list Row :=
  flat_map (fun l =>
              match matches right on (cell l on) with
              | [] => [rename_row ov lsfx l ++ nan_row rcols]
              | ms => map (fun m => rename_row ov lsfx l
                                    ++ rename_row ov rsfx (drop_label on m)) ms
              end) (rows left).

(** The rows of the right table that match no left row, with the key
    filled in and the other left columns missing. *)
Definition right_rows (ov : list string) (lsfx rsfx : string)
           (left right : DataFrame) (on : string) : list Row :=
  flat_map (fun m =>
              match matches left on (cell m on) with
              | [] => [map (fun c => (suffixed ov lsfx c,
                                      if String.eqb c on then cell m on else NaN))
                           (columns left)
                       ++ rename_row ov rsfx (drop_label on m)]
              | _ => []
              end) (rows right).

Definition merge (left right : DataFrame) (on : string) (h : how)
           (lsfx rsfx : string) : result DataFrame :=
  require left on ;;;
  require right on ;;;
  (* the right key column is dropped: the result has one key column *)
  let rcols0 := without on (columns right) in
  let ov := overlapping (columns left) rcols0 in
  let lcols := map (suffixed ov lsfx) (columns left) in
  let rcols := map (suffixed ov rsfx) rcols0 in
  if suffix_dups [] [] (columns left) lcols || suffix_dups [] [] rcols0 rcols
  then Err (MergeError "Passing 'suffixes' which cause duplicate columns is not allowed")
  else
    let lpart := left_rows ov lsfx rsfx rcols left right on in
    Ok (mkDF (lcols ++ rcols)
             match h with
             | Left => lpart
             | Outer =>
                 (* an outer join returns its keys sorted *)
                 sort_by (fun r => cell r on)
                         (lpart ++ right_rows ov lsfx rsfx left right on)
             end).

(** What the join rows are when no label is renamed. *)
Definition plain_left_rows (left right : DataFrame) (on : string) : list Row :=
  flat_map (fun l =>
              match matches right on (cell l on) with
              | [] => [l ++ nan_row (without on (columns right))]
              | ms => map (fun m => l ++ drop_label on m) ms
              end) (rows left).

Definition plain_right_rows (left right : DataFrame) (on : string) : list Row :=
  flat_map (fun m =>
              match matches left on (cell m on) with
              | [] => [map (fun c => (c, if String.eqb c on then cell m on else NaN))
                           (columns left)
                       ++ drop_label on m]
              | _ => []
              end) (rows right).

(** [df[cols].sum(axis=1)]: the row sum, missing values skipped. *)
Definition row_sum (cols : list string) (r : Row) : value :=
  agg_sum (map (cell r) cols).

(** The mask [df.get(c, dflt) == z]: a column that does not exist is the
    scalar [dflt]. *)
Definition get_eq (df : DataFrame) (c : string) (dflt z : Z) (r : Row) : bool :=
  if has_column df c then eq_int (cell r c) z else Z.eqb dflt z.

(** [df.loc[mask, c] = v]. *)
Definition loc_set (df : DataFrame) (mask : Row -> result bool) (c : string) (v : value)
  : result DataFrame :=
  assign df c (fun r => b <- mask r ;; Ok (if b then v else cell r c)).

(** ** The scripts *)

(** An entry of [shapefiles_past], [shapefiles_present] or
    [shapefiles_future]. *)
Record shapefile : Type := mkShp {
  gdf : DataFrame;
  flag_field : string;
  flood_type : option string
}.

(** What a run leaves behind: the lines printed and the CSV files written
    (file name and table). *)
Record Output : Type := mkOutput {
  printed : list string;
  dissolved_csv : list (string * DataFrame);
  final_csv : string * DataFrame
}.

Definition final_df (o : Output) : DataFrame := snd (final_csv o).

(** [flag_field[:-2] + 'A'] *)
Definition field_name (flag : string) : string :=
  (substring 0 (String.length flag - 2) flag ++ "A")%string.

Definition string_of_nat (n : nat) : string :=
  NilEmpty.string_of_uint (Nat.to_uint n).

(** [print] of a list of strings. *)
Definition repr_list (l : list string) : string :=
  ("[" ++ String.concat ", " (map (fun s => "'" ++ s ++ "'") l) ++ "]")%string.

Definition exported (shp : shapefile) : string :=
  ("Exported " ++ flag_field shp ++ "_dissolved.csv")%string.

Definition csv_name (shp : shapefile) : string :=
  (flag_field shp ++ "_dissolved.csv")%string.

(** [mapM] with the position of the element, from [start]. *)
Fixpoint mapMi {A B : Type} (f : nat -> A -> result B) (start : nat) (l : list A)
  : result (list B) :=
  match l with
  | [] => Ok []
  | a :: l' => b <- f start a ;; bs <- mapMi f (S start) l' ;; Ok (b :: bs)
  end.

(** The successive outer joins, with their suffix counter. *)
Fixpoint merge_loop (final : DataFrame) (suffix_counter : nat) (dfs : list DataFrame)
  : result DataFrame :=
  match dfs with
  | [] => Ok final
  | df :: dfs' =>
      let suffix_counter := S suffix_counter in
      let suffix := ("_" ++ string_of_nat suffix_counter)%string in
      final <- merge final df "unique_id" Outer suffix suffix ;;
      merge_loop final suffix_counter dfs'
  end.

Definition merge_all (dataframes : list DataFrame) : result DataFrame :=
  match dataframes with
  | [] => Err (IndexError "list index out of range")
  | d :: ds => merge_loop d 0 ds
  end.

(** [n + 'fg'] is set to [(df[n] >= 0.10 * df['area']).astype(int)]. *)
Definition area_flag (final : DataFrame) (n : string) : result DataFrame :=
  require final "area" ;;;
  require final n ;;;
  assign final (n ++ "fg")%string
         (fun r => threshold <- scale (1 # 10) (cell r "area") ;;
                   b <- ge (cell r n) threshold ;;
                   Ok (astype_int b)).

Section Scripts.

(** The geometry engine's [gpd.overlay(.., how='intersection')] and the
    directory the CSV files go to. *)
Variable overlay : DataFrame -> DataFrame -> DataFrame.
Variable output_directory : string.

(** [atomic_polygons['area'] = atomic_polygons.geometry.area] *)
Definition with_area (atomic_polygons : DataFrame) : result DataFrame :=
  require atomic_polygons "geometry" ;;;
  assign atomic_polygons "area" (fun r => Ok (area_of (cell r "geometry"))).

(** The overlay of one layer and its fragment areas.  (The shapefiles the
    scripts write for inspection with [to_file] are not part of the
    model: [Output] holds the printed lines and the CSV tables.) *)
Definition intersect (atomic_polygons : DataFrame) (shp : shapefile) : result DataFrame :=
  let intersection_result := overlay atomic_polygons (gdf shp) in
  require intersection_result "geometry" ;;;
  assign intersection_result (field_name (flag_field shp))
         (fun r => Ok (area_of (cell r "geometry"))).

(** *** id_bluebelts_future.py *)

Definition shapefiles_future (future_moderate_2050_flood future_extreme_2080_flood
                              future_500yr : DataFrame) : list shapefile :=
  [ mkShp future_moderate_2050_flood "mod_2050" (Some "mo_20_fldC");
    mkShp future_extreme_2080_flood "ext_2080" (Some "ex_20_fldC");
    mkShp future_500yr "500yr" None ].

Definition dissolve_future (atomic_polygons : DataFrame) (count : nat) (shp : shapefile)
  : result DataFrame :=
  df <- intersect atomic_polygons shp ;;
  match (count <=? 1)%nat, flood_type shp with
  | true, Some ft =>
      groupby_agg df "unique_id"
                  [(field_name (flag_field shp), Sum); (flag_field shp, First); (ft, First)]
  | _, _ =>
      groupby_agg df "unique_id"
                  [(field_name (flag_field shp), Sum); (flag_field shp, First)]
  end.

Definition run_future (atomic_polygons future_moderate_2050_flood
                       future_extreme_2080_flood future_500yr : DataFrame)
  : result Output :=
  atomic_polygons <- with_area atomic_polygons ;;
  let shapefiles := shapefiles_future future_moderate_2050_flood
                                      future_extreme_2080_flood future_500yr in
  let new_field_names := map (fun shp => field_name (flag_field shp)) shapefiles in
  dataframes <- mapMi (dissolve_future atomic_polygons) 0 shapefiles ;;
  final <- merge_all dataframes ;;
  final <- merge atomic_polygons final "unique_id" Left "_x" "_y" ;;
  final <- foldM area_flag new_field_names final ;;
  final <- assign final "BZ_future" (fun _ => Ok (Int 0)) ;;
  final <- loc_set final
             (fun r => Ok (get_eq final "mod_20Afg" 0 1 r
                           || get_eq final "ext_20Afg" 0 1 r
                           || get_eq final "500Afg" 0 1 r))
             "BZ_future" (Int 1) ;;
  Ok (mkOutput
        (["Future layers loaded"; "Future shapefile list created"]
           ++ map exported shapefiles
           ++ [repr_list new_field_names;
               ("Final CSV saved: " ++ output_directory ++ "/future_union.csv")%string])
        (combine (map csv_name shapefiles) dataframes)
        ("future_union.csv", final)).

(** *** id_bluebelts_present.py *)

Definition shapefiles_present (present_311 present_moderate_flood present_100yr
                               : DataFrame) : list shapefile :=
  [ mkShp present_311 "depcall" None;
    mkShp present_moderate_flood "mod_cur" None;
    mkShp present_100yr "100yr" None ].

Definition dissolve_present (atomic_polygons : DataFrame) (idx : nat) (shp : shapefile)
  : result DataFrame :=
  df <- intersect atomic_polygons shp ;;
  if (idx =? 1)%nat
  then groupby_agg df "unique_id"
                   [(field_name (flag_field shp), Sum); (flag_field shp, First);
                    ("mo_cu_fldC", First)]
  else groupby_agg df "unique_id"
                   [(field_name (flag_field shp), Sum); (flag_field shp, First)].

(** The 311 layer is not overlaid: it is grouped as it is read. *)
Definition dissolve_311 (present_311 : DataFrame) : result DataFrame :=
  let keep_cols := filter (has_column present_311) ["unique_id"; "depcall"; "Point_Coun"] in
  groupby_agg (select present_311 keep_cols) "unique_id"
              [("depcall", First); ("Point_Coun", First)].

(** The 311 flag: [0], then [1] where [Point_Coun >= 3]. *)
Definition point_flag (final : DataFrame) : result DataFrame :=
  final <- assign final "depcaAfg" (fun _ => Ok (Int 0)) ;;
  if has_column final "Point_Coun"
  then loc_set final (fun r => ge (cell r "Point_Coun") (Int 3)) "depcaAfg" (Int 1)
  else Ok final.

Definition run_present (atomic_polygons present_311 present_moderate_flood
                        present_100yr : DataFrame) : result Output :=
  atomic_polygons <- with_area atomic_polygons ;;
  let shapefiles := tl (shapefiles_present present_311 present_moderate_flood
                                           present_100yr) in
  let new_field_names := map (fun shp => field_name (flag_field shp)) shapefiles in
  dissolved <- mapMi (dissolve_present atomic_polygons) 1 shapefiles ;;
  present_311_csv <- dissolve_311 present_311 ;;
  let dataframes := dissolved ++ [present_311_csv] in
  final <- merge_all dataframes ;;
  final <- merge atomic_polygons final "unique_id" Left "_x" "_y" ;;
  final <- point_flag final ;;
  final <- foldM area_flag new_field_names final ;;
  final <- assign final "BZ_present" (fun _ => Ok (Int 0)) ;;
  final <- loc_set final
             (fun r => Ok (get_eq final "depcaAfg" 0 1 r
                           || get_eq final "mod_cAfg" 0 1 r
                           || get_eq final "100Afg" 0 1 r))
             "BZ_present" (Int 1) ;;
  Ok (mkOutput
        (["Present layers loaded"; "Present shapefile list created"]
           ++ map exported shapefiles
           ++ [("Final CSV saved: " ++ output_directory ++ "/present_union.csv")%string])
        (combine (map csv_name shapefiles) dissolved)
        ("present_union.csv", final)).

(** *** id_bluebelts_past.py *)

Definition past_flags : list string :=
  ["beaches"; "river"; "fresh_wetl"; "marine"; "pond"; "saltmarsh"; "streams";
   "dunes"; "tidal_cree"; "int_stream"].

(** [shapefiles_past], from the ten layers in the order of the script. *)
Definition shapefiles_past (layers : list DataFrame) : list shapefile :=
  map (fun p => mkShp (fst p) (snd p) None) (combine layers past_flags).

Definition dissolve_past (atomic_polygons : DataFrame) (shp : shapefile)
  : result DataFrame :=
  df <- intersect atomic_polygons shp ;;
  groupby_agg df "unique_id"
              [(field_name (flag_field shp), Sum); (flag_field shp, First)].

Definition run_past (atomic_polygons : DataFrame) (layers : list DataFrame)
  : result Output :=
  atomic_polygons <- with_area atomic_polygons ;;
  let shapefiles := shapefiles_past layers in
  let new_field_names := map (fun shp => field_name (flag_field shp)) shapefiles in
  dataframes <- mapM (dissolve_past atomic_polygons) shapefiles ;;
  final <- merge_all dataframes ;;
  final <- (mapM (require final) new_field_names ;;;
            assign final "past_sum" (fun r => Ok (row_sum new_field_names r))) ;;
  final <- merge atomic_polygons final "unique_id" Left "_x" "_y" ;;
  final <- (require final "area" ;;;
            require final "past_sum" ;;;
            assign final "BZ_past"
                   (fun r => threshold <- scale (1 # 10) (cell r "area") ;;
                             b <- ge (cell r "past_sum") threshold ;;
                             Ok (astype_int b))) ;;
  Ok (mkOutput
        (["Past layers loaded"; "Past shapefile list created"]
           ++ map exported shapefiles
           ++ [repr_list new_field_names;
               ("Final CSV saved: " ++ output_directory ++ "/past_union.csv")%string])
        (combine (map csv_name shapefiles) dataframes)
        ("past_union.csv", final)).

End Scripts.

(** ** Reading a table by key *)

(** The cell of column [c] in the first row whose key matches [k]; missing
    when no row does. *)
Definition lookup (df : DataFrame) (on : string) (k : value) (c : string) : value :=
  match matches df on k with
  | r :: _ => cell r c
  | [] => NaN
  end.

(** No two rows of the table have matching keys. *)
Definition unique_keys (df : DataFrame) (on : string) : Prop :=
  forall k, (List.length (matches df on k) <= 1)%nat.

(** The left part of an outer-join row that comes from the right table
    only: the key, and every other left column missing. *)
Definition key_row (lcols : list string) (on : string) (k : value) : Row :=
  map (fun c => (c, if String.eqb c on then k else NaN)) lcols.

(** The right part of a left-join row. *)
Definition right_cells (right : DataFrame) (on : string) (k : value) : Row :=
  match matches right on k with
  | m :: _ => drop_label on m
  | [] => nan_row (without on (columns right))
  end.

(** Some row of the table carries a key that is not missing and matches
    [k]: the key has a group. *)
Definition touched (df : DataFrame) (kcol : string) (k : value) : bool :=
  existsb (fun r => negb (isna (cell r kcol)) && key_match (cell r kcol) k) (rows df).

(** The table [groupby_agg] returns when every column it names exists. *)
Definition grouped (df : DataFrame) (kcol : string) (aggs : list (string * aggfun))
  : DataFrame :=
  mkDF (kcol :: map fst aggs) (map (agg_row df kcol aggs) (group_keys df kcol)).

(** The rows of an outer join, before they are sorted. *)
Definition joined_rows (A B : DataFrame) (on : string) : list Row :=
  plain_left_rows A B on ++ plain_right_rows A B on.

(** The table an outer join returns when no label is renamed. *)
Definition outer_join (A B : DataFrame) (on : string) : DataFrame :=
  mkDF (columns A ++ without on (columns B))
       (sort_by (fun r => cell r on) (joined_rows A B on)).

(** The first table of the list that has column [c], read at key [k]. *)
Fixpoint lookup_first (dfs : list DataFrame) (on : string) (k : value) (c : string)
  : value :=
  match dfs with
  | [] => NaN
  | df :: dfs' =>
      if mem c (columns df) then lookup df on k c else lookup_first dfs' on k c
  end.

(** No table of the list brings a label, other than the key, that the
    tables before it (or [cols]) already have. *)
Fixpoint mergeable (cols : list string) (on : string) (dfs : list DataFrame) : bool :=
  match dfs with
  | [] => true
  | df :: dfs' =>
      match overlapping cols (without on (columns df)) with
      | [] => mergeable (cols ++ without on (columns df)) on dfs'
      | _ => false
      end
  end.

(** ** What the pipeline computes, zone by zone *)

(** The table of fragments with their area in column [n]. *)
Definition with_fragment_area (fragments : DataFrame) (n : string) : DataFrame :=
  mkDF (add_column (columns fragments) n)
       (map (fun r => set_cell r n (area_of (cell r "geometry"))) (rows fragments)).

(** The dissolved table of a layer: area summed, the other columns by
    ['first']. *)
Definition dissolved (fragments : DataFrame) (n : string) (rest : list (string * aggfun))
  : DataFrame :=
  grouped (with_fragment_area fragments n) "unique_id" ((n, Sum) :: rest).

(** The aggregated overlap area of the zone with key [k]: the sum of the
    areas of the fragments that carry its key, missing when no fragment
    does. *)
Definition overlap_area (fragments : DataFrame) (k : value) : value :=
  if touched fragments "unique_id" k
  then agg_sum (map (fun r => area_of (cell r "geometry"))
                    (matches fragments "unique_id" k))
  else NaN.

(** A number or a missing value. *)
Definition numeric (v : value) : bool :=
  match v with
  | NaN | Int _ | Float _ => true
  | _ => false
  end.

(** The value [(agg >= 0.10 * area).astype(int)] of a flag. *)
Definition area_flag_value (agg area : value) : value :=
  astype_int match to_Q agg, to_Q area with
             | Some a, Some z => Qle_bool ((1 # 10) * z) a
             | _, _ => false
             end.

Definition flag_row (n : string) (r : Row) : Row :=
  set_cell r (n ++ "fg")%string (area_flag_value (cell r n) (cell r "area")).

(** A zone row with its area. *)
Definition area_row (z : Row) : Row := set_cell z "area" (area_of (cell z "geometry")).

(** A zone row joined to the merged layer table [M]. *)
Definition joined_row (M : DataFrame) (z : Row) : Row :=
  area_row z ++ right_cells M "unique_id" (cell (area_row z) "unique_id").

(** The flags of the layers [names], one after the other. *)
Definition flag_rows (names : list string) (r : Row) : Row :=
  fold_left (fun r n => flag_row n r) names r.

Definition flag_columns (names : list string) (cols : list string) : list string :=
  fold_left (fun cols n => add_column cols (n ++ "fg")%string) names cols.

(** The epoch flag: [0], then [1] where one of [flags] is [1]. *)
Definition union_row (name : string) (flags : list string) (r : Row) : Row :=
  let r0 := set_cell r name (Int 0) in
  set_cell r0 name (if existsb (fun f => eq_int (cell r0 f) 1) flags
                    then Int 1 else cell r0 name).

(** The zone table once [area] is set. *)
Definition atomic_with_area (atomic : DataFrame) : DataFrame :=
  mkDF (add_column (columns atomic) "area") (map area_row (rows atomic)).

(** The zone table is well formed, has a key and a geometry, and none of
    the labels the layers bring. *)
Definition atomic_ok (atomic : DataFrame) (reserved : list string) : bool :=
  wfb atomic && has_column atomic "unique_id" && has_column atomic "geometry"
  && forallb (fun c => negb (has_column atomic c)) reserved.

(** An overlay result has a key, a geometry and the attributes the script
    reads from it. *)
Definition layer_ok (fragments : DataFrame) (cols : list string) : bool :=
  has_column fragments "geometry" && has_column fragments "unique_id"
  && forallb (has_column fragments) cols.

(** *** The future epoch *)

(** The labels the three future layers bring to the final table. *)
Definition future_reserved : list string :=
  ["mod_20A"; "mod_2050"; "mo_20_fldC"; "ext_20A"; "ext_2080"; "ex_20_fldC";
   "500A"; "500yr"].

Definition future_inputs_ok (overlay : DataFrame -> DataFrame -> DataFrame)
           (atomic mod_2050 ext_2080 f500yr : DataFrame) : bool :=
  atomic_ok atomic future_reserved
  && layer_ok (overlay (atomic_with_area atomic) mod_2050) ["mod_2050"; "mo_20_fldC"]
  && layer_ok (overlay (atomic_with_area atomic) ext_2080) ["ext_2080"; "ex_20_fldC"]
  && layer_ok (overlay (atomic_with_area atomic) f500yr) ["500yr"].

(** The three dissolved tables of the future epoch. *)
Definition future_tables (overlay : DataFrame -> DataFrame -> DataFrame)
           (atomic mod_2050 ext_2080 f500yr : DataFrame) : list DataFrame :=
  [ dissolved (overlay (atomic_with_area atomic) mod_2050) "mod_20A"
              [("mod_2050", First); ("mo_20_fldC", First)];
    dissolved (overlay (atomic_with_area atomic) ext_2080) "ext_20A"
              [("ext_2080", First); ("ex_20_fldC", First)];
    dissolved (overlay (atomic_with_area atomic) f500yr) "500A"
              [("500yr", First)] ].

(** The row of the final future table for the zone row [z], [M] being the
    merged layer table. *)
Definition future_row (M : DataFrame) (z : Row) : Row :=
  union_row "BZ_future" ["mod_20Afg"; "ext_20Afg"; "500Afg"]
            (flag_rows ["mod_20A"; "ext_20A"; "500A"] (joined_row M z)).

Definition future_columns (atomic : DataFrame) : list string :=
  add_column
    (flag_columns ["mod_20A"; "ext_20A"; "500A"]
                  (add_column (columns atomic) "area" ++ future_reserved))
    "BZ_future".

Definition future_printed (output_directory : string) : list string :=
  ["Future layers loaded"; "Future shapefile list created";
   "Exported mod_2050_dissolved.csv"; "Exported ext_2080_dissolved.csv";
   "Exported 500yr_dissolved.csv"; "['mod_20A', 'ext_20A', '500A']";
   ("Final CSV saved: " ++ output_directory ++ "/future_union.csv")%string].

(** *** The present epoch *)

Definition present_reserved : list string :=
  ["mod_cA"; "mod_cur"; "mo_cu_fldC"; "100A"; "100yr"; "depcall"; "Point_Coun"].

(** The 311 layer has the three attributes the script reads, and its
    [Point_Coun] attribute holds numbers. *)
Definition points_ok (present_311 : DataFrame) : bool :=
  forallb (has_column present_311) ["unique_id"; "depcall"; "Point_Coun"]
  && forallb (fun r => numeric (cell r "Point_Coun")) (rows present_311).

Definition present_inputs_ok (overlay : DataFrame -> DataFrame -> DataFrame)
           (atomic present_311 mod_cur f100yr : DataFrame) : bool :=
  atomic_ok atomic present_reserved
  && layer_ok (overlay (atomic_with_area atomic) mod_cur) ["mod_cur"; "mo_cu_fldC"]
  && layer_ok (overlay (atomic_with_area atomic) f100yr) ["100yr"]
  && points_ok present_311.

(** The dissolved 311 table. *)
Definition points_table (present_311 : DataFrame) : DataFrame :=
  grouped (select present_311 ["unique_id"; "depcall"; "Point_Coun"]) "unique_id"
          [("depcall", First); ("Point_Coun", First)].

Definition present_tables (overlay : DataFrame -> DataFrame -> DataFrame)
           (atomic present_311 mod_cur f100yr : DataFrame) : list DataFrame :=
  [ dissolved (overlay (atomic_with_area atomic) mod_cur) "mod_cA"
              [("mod_cur", First); ("mo_cu_fldC", First)];
    dissolved (overlay (atomic_with_area atomic) f100yr) "100A"
              [("100yr", First)];
    points_table present_311 ].

(** The [Point_Coun] of the zone with key [k]: the first value that is not
    missing among the 311 records carrying its key. *)
Definition point_count (present_311 : DataFrame) (k : value) : value :=
  if touched present_311 "unique_id" k
  then agg_first (map (fun r => cell r "Point_Coun") (matches present_311 "unique_id" k))
  else NaN.

(** [v >= 3] for a number or a missing value. *)
Definition at_least_3 (v : value) : bool :=
  match to_Q v with
  | Some q => Qle_bool 3 q
  | None => false
  end.

Definition point_row (r : Row) : Row :=
  let r0 := set_cell r "depcaAfg" (Int 0) in
  set_cell r0 "depcaAfg"
           (if at_least_3 (cell r0 "Point_Coun") then Int 1 else cell r0 "depcaAfg").

Definition present_row (M : DataFrame) (z : Row) : Row :=
  union_row "BZ_present" ["depcaAfg"; "mod_cAfg"; "100Afg"]
            (flag_rows ["mod_cA"; "100A"] (point_row (joined_row M z))).

Definition present_columns (atomic : DataFrame) : list string :=
  add_column
    (flag_columns ["mod_cA"; "100A"]
       (add_column (add_column (columns atomic) "area" ++ present_reserved) "depcaAfg"))
    "BZ_present".

Definition present_printed (output_directory : string) : list string :=
  ["Present layers loaded"; "Present shapefile list created";
   "Exported mod_cur_dissolved.csv"; "Exported 100yr_dissolved.csv";
   ("Final CSV saved: " ++ output_directory ++ "/present_union.csv")%string].

(** *** The past epoch *)

Definition past_names : list string := map field_name past_flags.

Definition past_reserved : list string :=
  flat_map (fun flag => [field_name flag; flag]) past_flags ++ ["past_sum"].

Definition past_inputs_ok (overlay : DataFrame -> DataFrame -> DataFrame)
           (atomic : DataFrame) (layers : list DataFrame) : bool :=
  (List.length layers =? 10)%nat
  && atomic_ok atomic past_reserved
  && forallb (fun p => layer_ok (overlay (atomic_with_area atomic) (fst p)) [snd p])
             (combine layers past_flags).

(** The overlay results of the ten layers, in the order of the script. *)
Definition past_fragments (overlay : DataFrame -> DataFrame -> DataFrame)
           (atomic : DataFrame) (layers : list DataFrame) : list DataFrame :=
  map (overlay (atomic_with_area atomic)) layers.

Definition past_tables (overlay : DataFrame -> DataFrame -> DataFrame)
           (atomic : DataFrame) (layers : list DataFrame) : list DataFrame :=
  map (fun p => dissolved (overlay (atomic_with_area atomic) (fst p))
                          (field_name (snd p)) [(snd p, First)])
      (combine layers past_flags).

(** The merged table with its [past_sum] column. *)
Definition with_past_sum (M : DataFrame) : DataFrame :=
  mkDF (add_column (columns M) "past_sum")
       (map (fun r => set_cell r "past_sum" (row_sum past_names r)) (rows M)).

Definition past_row (M : DataFrame) (z : Row) : Row :=
  let r := joined_row (with_past_sum M) z in
  set_cell r "BZ_past" (area_flag_value (cell r "past_sum") (cell r "area")).

Definition past_columns (atomic : DataFrame) : list string :=
  add_column (add_column (columns atomic) "area" ++ past_reserved) "BZ_past".

Definition past_printed (output_directory : string) : list string :=
  ["Past layers loaded"; "Past shapefile list created"]
    ++ map (fun flag => "Exported " ++ flag ++ "_dissolved.csv")%string past_flags
    ++ [repr_list past_names;
        ("Final CSV saved: " ++ output_directory ++ "/past_union.csv")%string].

(** The value of [past_sum] for the zone with key [k]: the sum, over the
    layers, of its aggregated overlap areas; missing when no layer touches
    the zone. *)
Definition past_sum_value (fragments : list DataFrame) (k : value) : value :=
  if existsb (fun I => touched I "unique_id" k) fragments
  then agg_sum (map (fun I => overlap_area I k) fragments)
  else NaN.

(** ** The final tables, row by row *)

(** [agg >= 0.10 * area], both being numbers. *)
Definition reaches_threshold (agg area : value) : Prop :=
  exists a z, to_Q agg = Some a /\ to_Q area = Some z /\ (1 # 10) * z <= a.

(** [1] when one of the flags is [1], else [0]. *)
Definition union_value (flags : list value) : value :=
  if existsb (fun v => eq_int v 1) flags then Int 1 else Int 0.

(** What the final future table holds in the row [r] of the zone row [z];
    [I1], [I2], [I3] are the overlay results of the three layers. *)
Definition future_zone_row (I1 I2 I3 : DataFrame) (z r : Row) : Prop :=
  let k := cell z "unique_id" in
  let area := area_of (cell z "geometry") in
  cell r "unique_id" = k
  /\ cell r "area" = area
  /\ cell r "mod_20A" = overlap_area I1 k
  /\ cell r "ext_20A" = overlap_area I2 k
  /\ cell r "500A" = overlap_area I3 k
  /\ cell r "mod_20Afg" = area_flag_value (overlap_area I1 k) area
  /\ cell r "ext_20Afg" = area_flag_value (overlap_area I2 k) area
  /\ cell r "500Afg" = area_flag_value (overlap_area I3 k) area
  /\ cell r "BZ_future"
     = union_value [cell r "mod_20Afg"; cell r "ext_20Afg"; cell r "500Afg"].

(** The same for the present table; [I1], [I2] are the overlay results of
    the two polygon layers. *)
Definition present_zone_row (present_311 I1 I2 : DataFrame) (z r : Row) : Prop :=
  let k := cell z "unique_id" in
  let area := area_of (cell z "geometry") in
  cell r "unique_id" = k
  /\ cell r "area" = area
  /\ cell r "Point_Coun" = point_count present_311 k
  /\ cell r "mod_cA" = overlap_area I1 k
  /\ cell r "100A" = overlap_area I2 k
  /\ cell r "depcaAfg" = astype_int (at_least_3 (point_count present_311 k))
  /\ cell r "mod_cAfg" = area_flag_value (overlap_area I1 k) area
  /\ cell r "100Afg" = area_flag_value (overlap_area I2 k) area
  /\ cell r "BZ_present"
     = union_value [cell r "depcaAfg"; cell r "mod_cAfg"; cell r "100Afg"].

(** The same for the past table; [Is] are the overlay results of the ten
    layers. *)
Definition past_zone_row (Is : list DataFrame) (z r : Row) : Prop :=
  let k := cell z "unique_id" in
  let area := area_of (cell z "geometry") in
  cell r "unique_id" = k
  /\ cell r "area" = area
  /\ cell r "past_sum" = past_sum_value Is k
  /\ cell r "BZ_past" = area_flag_value (past_sum_value Is k) area.

(** The epoch flag [bz] is the OR of the flags: [1] exactly when one of
    them is [1], [0] exactly when all are [0]. *)
Definition is_union (bz : value) (flags : list value) : Prop :=
  (bz = Int 1 <-> Exists (fun v => v = Int 1) flags)
  /\ (bz = Int 0 <-> Forall (fun v => v = Int 0) flags).

(** An integer [0] or [1]. *)
Definition is_bit (v : value) : Prop := v = Int 0 \/ v = Int 1.

(** The row [r] of the zone row [z] holds, for the layer with aggregate
    column [n] and overlay result [fragments], the zone's aggregated
    overlap area and the flag of the 10% rule. *)
Definition flagged_by_area (fragments : DataFrame) (n : string) (z r : Row) : Prop :=
  let agg := overlap_area fragments (cell z "unique_id") in
  let area := area_of (cell z "geometry") in
  cell r n = agg
  /\ cell r "area" = area
  /\ (cell r (n ++ "fg")%string = Int 1 <-> reaches_threshold agg area)
  /\ (cell r (n ++ "fg")%string = Int 0 <-> ~ reaches_threshold agg area).

(** The zone of the row [z] has no fragment in [fragments]; then the row
    [r] has a missing aggregate and the flag [0]. *)
Definition unflagged_when_absent (fragments : DataFrame) (n : string) (z r : Row)
  : Prop :=
  touched fragments "unique_id" (cell z "unique_id") = false ->
  cell r n = NaN /\ cell r (n ++ "fg")%string = Int 0.

(** The final table has the zones' keys, row for row. *)
Definition same_keys (atomic final : DataFrame) : Prop :=
  Forall2 (fun z r => cell r "unique_id" = cell z "unique_id") (rows atomic) (rows final).

(** No two keys of the list match. *)
Fixpoint pairwise_distinct (ks : list value) : bool :=
  match ks with
  | [] => true
  | k :: ks' => forallb (fun k' => negb (key_match k k')) ks' && pairwise_distinct ks'
  end.

(** The value is a number, and at least 3. *)
Definition counts_at_least_3 (v : value) : Prop :=
  exists q, to_Q v = Some q /\ 3 <= q.

(** The row [r] of the zone row [z] holds the zone's [Point_Coun] and the
    flag of the 3-point rule; a zone whose [Point_Coun] is 3 and that no
    fragment of the polygon layers [I1], [I2] carries has the point flag 1
    and the area flags 0. *)
Definition flagged_by_points (present_311 I1 I2 : DataFrame) (z r : Row) : Prop :=
  let k := cell z "unique_id" in
  let n := point_count present_311 k in
  cell r "Point_Coun" = n
  /\ (cell r "depcaAfg" = Int 1 <-> counts_at_least_3 n)
  /\ (cell r "depcaAfg" = Int 0 <-> ~ counts_at_least_3 n)
  /\ (n = Int 3 ->
      touched I1 "unique_id" k = false ->
      touched I2 "unique_id" k = false ->
      cell r "depcaAfg" = Int 1 /\ cell r "mod_cAfg" = Int 0 /\ cell r "100Afg" = Int 0).

(** The string ends with the letter [A]. *)
Fixpoint ends_with_A (s : string) : bool :=
  match s with
  | EmptyString => false
  | String c EmptyString => Ascii.eqb c "A"
  | String _ s' => ends_with_A s'
  end.

(** In the row [r], the flag of the layer with aggregate column [n]
    follows the 10% rule on the row's own aggregate and area. *)
Definition follows_rule (n : string) (r : Row) : Prop :=
  (cell r (n ++ "fg")%string = Int 1 <-> reaches_threshold (cell r n) (cell r "area"))
  /\ (cell r (n ++ "fg")%string = Int 0
      <-> ~ reaches_threshold (cell r n) (cell r "area")).

(** In the row [r], a missing aggregate in column [n] gives the flag 0. *)
Definition zero_when_missing (n : string) (r : Row) : Prop :=
  cell r n = NaN -> cell r (n ++ "fg")%string = Int 0.

(** ** Sums of fragment areas *)

Definition Qsum (l : list Q) : Q := fold_left Qplus l 0.

(** The areas of the fragments of the table that carry the key [k]. *)
Definition fragment_areas (fragments : DataFrame) (k : value) : list Q :=
  numbers (map (fun r => area_of (cell r "geometry")) (matches fragments "unique_id" k)).

(** ** Records without a key *)

(** The table without the rows whose [unique_id] is missing. *)
Definition drop_keyless (df : DataFrame) : DataFrame :=
  mkDF (columns df) (filter (fun r => negb (isna (cell r "unique_id"))) (rows df)).

(** The number of rows whose [unique_id] is missing: the records a grouping
    skips. *)
Definition skipped (df : DataFrame) : nat :=
  List.length (filter (fun r => isna (cell r "unique_id")) (rows df)).

(** The 311 records a zone contains: the rows of the 311 layer that carry
    its key. *)
Definition points_in (present_311 : DataFrame) (k : value) : nat :=
  List.length (matches present_311 "unique_id" k).

(** ** A small data set *)

Module Example.

(** The layers are given as their overlay with the zones. *)
Definition overlay (atomic gdf : DataFrame) : DataFrame := gdf.

Definition zone (id : string) (a : Q) : Row :=
  [("unique_id", Str id); ("borough", Str "BK"); ("geometry", Geom a)].

Definition atomic : DataFrame :=
  mkDF ["unique_id"; "borough"; "geometry"]
       [zone "Z1" 1000; zone "Z2" 500; zone "Z3" 200].

(** A layer with flag field [flag] and the extra attributes [extra]; a
    fragment is a key and an area. *)
Definition layer (flag : string) (extra : list string) (fs : list (value * Q))
  : DataFrame :=
  mkDF (["unique_id"; flag] ++ extra ++ ["geometry"])
       (map (fun f => [("unique_id", fst f); (flag, Int 1)]
                        ++ map (fun c => (c, Str "AE")) extra
                        ++ [("geometry", Geom (snd f))]) fs).

Definition mod_2050 : DataFrame :=
  layer "mod_2050" ["mo_20_fldC"] [(Str "Z1", 60); (Str "Z2", 10); (Str "Z1", 50)].
Definition ext_2080 : DataFrame :=
  layer "ext_2080" ["ex_20_fldC"] [(Str "Z3", 20)].
Definition f500yr : DataFrame := layer "500yr" [] [].

Definition mod_cur : DataFrame :=
  layer "mod_cur" ["mo_cu_fldC"] [(Str "Z1", 60); (Str "Z1", 50)].
Definition f100yr : DataFrame := layer "100yr" [] [(Str "Z2", 50)].

(** A 311 record: key and [Point_Coun]. *)
Definition call (id : value) (n : value) : Row :=
  [("unique_id", id); ("depcall", Int 1); ("Point_Coun", n)].

Definition points (cs : list (value * value)) : DataFrame :=
  mkDF ["unique_id"; "depcall"; "Point_Coun"] (map (fun c => call (fst c) (snd c)) cs).

(** Three points in Z3, each carrying the count 3; one point in Z1. *)
Definition present_311 : DataFrame :=
  points [(Str "Z3", Int 3); (Str "Z3", Int 3); (Str "Z3", Int 3); (Str "Z1", Int 1)].

(** Three points in Z3 whose [Point_Coun] attribute says 1. *)
Definition present_311_miscounted : DataFrame :=
  points [(Str "Z3", Int 1); (Str "Z3", Int 1); (Str "Z3", Int 1)].

(** The same 311 layer, with one and with two records that have no key. *)
Definition present_311_keyless1 : DataFrame :=
  points [(Str "Z3", Int 3); (NaN, Int 5)].
Definition present_311_keyless2 : DataFrame :=
  points [(Str "Z3", Int 3); (NaN, Int 5); (NaN, Int 5)].

(** A 311 layer without the [Point_Coun] attribute. *)
Definition present_311_no_count : DataFrame :=
  mkDF ["unique_id"; "depcall"] [[("unique_id", Str "Z3"); ("depcall", Int 1)]].

(** The ten past layers: Z1 has 60 of beach and 50 of river, each under a
    tenth of its area of 1000. *)
Definition past_layers : list DataFrame :=
  [ layer "beaches" [] [(Str "Z1", 60)];
    layer "river" [] [(Str "Z1", 50)];
    layer "fresh_wetl" [] [];
    layer "marine" [] [];
    layer "pond" [] [];
    layer "saltmarsh" [] [(Str "Z2", 100)];
    layer "streams" [] [];
    layer "dunes" [] [];
    layer "tidal_cree" [] [];
    layer "int_stream" [] [] ].

(** Two tables that both have a column [x]. *)
Definition table_a : DataFrame :=
  mkDF ["unique_id"; "x"] [[("unique_id", Str "Z1"); ("x", Int 1)]].
Definition table_b : DataFrame :=
  mkDF ["unique_id"; "x"] [[("unique_id", Str "Z1"); ("x", Int 2)]].

End Example.

(** * Paths, the environment and the pre-processing script

    The rest of the code: [common_paths.py], which the three epoch scripts
    call for every path they read or write, and [past_processing.py], which
    prepares two of the past layers.

    Conventions of this part.
    - Paths are [pathlib] paths of the POSIX flavour.
    - [os.getenv] is a function from names to optional strings; [resolve]
      (which needs the working directory and the links of the file system)
      is a function on paths.
    - The file system is the list of its directories, each under the path
      it was made with; regular files and permissions are outside the
      model, so [mkdir(parents=True, exist_ok=True)] does not fail.
    - A table that [gpd.read_file] returns has its geometries in the column
      [geometry]; [to_crs] and [buffer] act on each geometry by a function
      of the geometry engine. *)

(** ** Paths *)

Record Path : Type := mkPath {
  anchor : string;        (* [""] for a relative path, else ["/"] or ["//"] *)
  parts : list string     (* the components after the anchor *)
}.

(** [s.lstrip('/')] *)
Fixpoint lstrip_sep (s : string) : string :=
  match s with
  | String c s' => if Ascii.eqb c "/" then lstrip_sep s' else s
  | EmptyString => EmptyString
  end.

(** [s.split('/')] *)
Fixpoint split_sep (s : string) : list string :=
  match s with
  | EmptyString => [EmptyString]
  | String c s' =>
      if Ascii.eqb c "/" then EmptyString :: split_sep s'
      else match split_sep s' with
           | p :: ps => String c p :: ps
           | [] => [String c EmptyString]
           end
  end.

(** A component that [Path(..)] keeps: not empty and not ["."]. *)
Definition kept (x : string) : bool :=
  negb (String.eqb x "") && negb (String.eqb x ".").

(** [Path(s)]: exactly two leading slashes are kept as the anchor ["//"],
    any other number of them is the root ["/"]; empty components and ["."]
    are dropped, [".."] is kept. *)
Definition path_of_string (s : string) : Path :=
  let rel := lstrip_sep s in
  mkPath (match (String.length s - String.length rel)%nat with
          | O => ""
          | 2%nat => "//"
          | _ => "/"
          end)
         (filter kept (split_sep rel)).

(** [p / q]: an absolute [q] replaces [p]. *)
Definition joinpath (p q : Path) : Path :=
  if String.eqb (anchor q) "" then mkPath (anchor p) (parts p ++ parts q) else q.

(** [str(p)] *)
Definition path_to_string (p : Path) : string :=
  match anchor p, parts p with
  | EmptyString, [] => "."
  | a, ps => (a ++ String.concat "/" ps)%string
  end.

(** [p.name] *)
Definition name (p : Path) : string := last (parts p) "".

(** [p.parent] *)
Definition parent (p : Path) : Path := mkPath (anchor p) (removelast (parts p)).

(** ** Directories *)

Definition Dirs : Type := list Path.

(** The path's parents that [mkdir(parents=True)] makes, outermost first,
    and the path itself. *)
Definition chain (p : Path) : list Path :=
  map (fun n => mkPath (anchor p) (firstn n (parts p))) (seq 1 (List.length (parts p))).

(** [p.mkdir(parents=True, exist_ok=True)] *)
Definition mkdir (p : Path) (fs : Dirs) : Dirs := fs ++ chain p.

Section Environment.

(** [os.getenv] and [Path.resolve]. *)
Variable getenv : string -> option string.
Variable resolve : Path -> Path.

(** [os.getenv(var, default)] for a string default. *)
Definition getenv_or (var default : string) : string :=
  match getenv var with
  | Some v => v
  | None => default
  end.

(** *** common_paths.py *)

Definition base_dir : Path :=
  resolve (path_of_string (getenv_or "BLUEZONES_BASE_DIR" ".")).

Definition output_dir (default_subdir : string) (fs : Dirs) : Path * Dirs :=
  let od := getenv "BLUEZONES_OUTPUT_DIR" in
  let p := match od with
           | Some (String _ _ as od) => path_of_string od
           | _ => joinpath base_dir (path_of_string default_subdir)
           end in
  (p, mkdir p fs).

Definition shapefile_subdir (parent : Path) (fs : Dirs) : Path * Dirs :=
  let shp := joinpath parent (path_of_string "shapefiles") in
  (shp, mkdir shp fs).

Definition path_from_env (var relative_default : string) : Path :=
  match getenv var with
  | Some (String _ _ as p) => path_of_string p
  | _ => joinpath base_dir (path_of_string relative_default)
  end.

(** The directories of the three epoch scripts: [output_directory] and
    [output_directory_shp]. *)
Definition output_directories (default_subdir : string) (fs : Dirs)
  : Path * Path * Dirs :=
  let '(output_directory, fs) := output_dir default_subdir fs in
  let '(output_directory_shp, fs) := shapefile_subdir output_directory fs in
  (output_directory, output_directory_shp, fs).

(** Two of the input paths of [id_bluebelts_past.py]. *)
Definition past_streams_path : Path :=
  path_from_env "PAST_STREAMS_PATH" "historical/streams_buffered.shp".

Definition past_tidalcreek_path : Path :=
  path_from_env "PAST_TIDALCREEK_PATH" "historical/tidal_creek.shp".

(** *** past_processing.py: the path helpers *)

Definition _base_dir : Path :=
  resolve (path_of_string (getenv_or "BLUEZONES_BASE_DIR" ".")).

Definition _path_from_env (env_var default_relative : string) (root : option Path)
  : Path :=
  match getenv env_var with
  | Some (String _ _ as p) => path_of_string p
  | _ =>
      let root := match root with
                  | Some root => root
                  | None => _base_dir
                  end in
      joinpath root (path_of_string default_relative)
  end.

Definition _output_dir (fs : Dirs) : Path * Dirs :=
  let out_root := match getenv "BLUEZONES_OUTPUT_DIR" with
                  | Some v => path_of_string v
                  | None => joinpath _base_dir (path_of_string "output_csv")
                  end in
  let specific := getenv "PAST_PROCESSED_DIR" in
  let p := match specific with
           | Some (String _ _ as specific) => path_of_string specific
           | _ => joinpath out_root (path_of_string "past")
           end in
  (p, mkdir p fs).

Definition PAST_RAW_DIR : Path :=
  match getenv "PAST_RAW_DIR" with
  | Some v => path_of_string v
  | None => joinpath _base_dir (path_of_string "welikia_raw")
  end.

(** The nine raw layers. *)
Definition freshwater_river_path : Path :=
  _path_from_env "FRESH_RIVER_PATH" "Vector/Freshwater_rivers_v8_0.shp" (Some PAST_RAW_DIR).
Definition freshwater_wet_path : Path :=
  _path_from_env "FRESH_WETLANDS_PATH" "Vector/Freshwater_wetlands_v8_0.shp"
                 (Some PAST_RAW_DIR).
Definition marine_water_path : Path :=
  _path_from_env "MARINE_WATER_PATH" "Vector/Marine_waters_MTL_mw30_60_poly.shp"
                 (Some PAST_RAW_DIR).
Definition ponds_path : Path :=
  _path_from_env "PONDS_PATH" "Vector/Ponds_v8_0.shp" (Some PAST_RAW_DIR).
Definition saltmarsh_path : Path :=
  _path_from_env "SALTMARSH_PATH" "Vector/Tidal_marshes_mw664_00.shp" (Some PAST_RAW_DIR).
Definition streams_path : Path :=
  _path_from_env "STREAMS_PATH" "Vector/Streams_upland_line_v8_0.shp" (Some PAST_RAW_DIR).
Definition tidal_creeks_path : Path :=
  _path_from_env "TIDAL_CREEKS_PATH" "Vector/Tidal_creeks_v8_0.shp" (Some PAST_RAW_DIR).
Definition surficial_geology_path : Path :=
  _path_from_env "SURFICIAL_GEOLOGY_PATH" "Vector/Surficial_geology_v8_0.shp"
                 (Some PAST_RAW_DIR).
Definition beaches_path : Path :=
  _path_from_env "BEACHES_PATH" "Vector/Beaches_mw659_00.shp" (Some PAST_RAW_DIR).

(** *** past_processing.py: the processing *)

Section Processing.

(** [gpd.read_file] ([None]: the layer cannot be read, and the script stops
    there), and what the geometry engine does to one geometry:
    [to_crs(desired_crs)] and [buffer(d)]. *)
Variable read_file : Path -> option DataFrame.
Variable reproject : value -> value.
Variable buffer : Q -> value -> value.

(** [gdf.to_crs(desired_crs)] *)
Definition to_crs (gdf : DataFrame) : DataFrame :=
  mkDF (columns gdf)
       (map (fun r => map (fun p => if String.eqb (fst p) "geometry"
                                    then (fst p, reproject (snd p)) else p) r)
            (rows gdf)).

(** [gdf[c] = v] for a scalar [v]. *)
Definition set_column (gdf : DataFrame) (c : string) (v : value) : DataFrame :=
  mkDF (add_column (columns gdf) c) (map (fun r => set_cell r c v) (rows gdf)).

(** [gdf[cols]] for a list of labels: [KeyError] on a label that is not a
    column. *)
Definition getitem (gdf : DataFrame) (cols : list string) : result DataFrame :=
  mapM (require gdf) cols ;;;
  Ok (select gdf cols).

Definition _flag_and_minify (gdf : DataFrame) (flag_name : string) : result DataFrame :=
  let gdf := to_crs gdf in
  let gdf := set_column gdf flag_name (Int 1) in
  getitem gdf ["geometry"; flag_name].

(** [gpd.GeoDataFrame({'geometry': gdf.geometry.buffer(d), flag: 1})] *)
Definition buffered (gdf : DataFrame) (d : Q) (flag : string) : DataFrame :=
  mkDF ["geometry"; flag]
       (map (fun r => [("geometry", buffer d (cell r "geometry")); (flag, Int 1)])
            (rows gdf)).

Definition and_then {A B : Type} (m : option A) (k : A -> option B) : option B :=
  match m with
  | Some a => k a
  | None => None
  end.

Notation "x <~ m ;; k" := (and_then m (fun x => k))
  (at level 61, m at next level, right associativity).

(** The nine [gpd.read_file] calls; the two layers the script goes on
    with. *)
Definition load_inputs : option (DataFrame * DataFrame) :=
  freshwater_river <~ read_file freshwater_river_path ;;
  freshwater_wetlands <~ read_file freshwater_wet_path ;;
  marine_water <~ read_file marine_water_path ;;
  ponds <~ read_file ponds_path ;;
  saltmarsh <~ read_file saltmarsh_path ;;
  streams <~ read_file streams_path ;;
  tidal_creek_a <~ read_file tidal_creeks_path ;;
  surficial_geology <~ read_file surficial_geology_path ;;
  beaches <~ read_file beaches_path ;;
  Some (streams, tidal_creek_a).

(** What the script leaves behind: the layers written, the lines printed,
    the directories, and whether it ran to its end. *)
Record Processed : Type := mkProcessed {
  written : list (Path * DataFrame);
  lines : list string;
  dirs : Dirs;
  completed : bool
}.

Definition run_past_processing (fs : Dirs) : Processed :=
  let '(FINAL_DIR, fs) := _output_dir fs in
  match load_inputs with
  | None => mkProcessed [] ["Loading Welikia layers…"] fs false
  | Some (streams, tidal_creek_a) =>
      (* streams, buffered by 15 ft *)
      let flag_field := "streams" in
      let streams := to_crs streams in
      let streams := set_column streams flag_field (Int 1) in
      let upland := buffered streams 15 "streams" in
      let filename1 := joinpath FINAL_DIR (path_of_string "streams_buffered.shp") in
      (* tidal creeks, buffered by 15 ft *)
      let flag_field := "tidal_cree" in
      let tidal_creek_a := to_crs tidal_creek_a in
      let tidal_creek_a := set_column tidal_creek_a flag_field (Int 1) in
      let tidal_creek := buffered tidal_creek_a 15 "tidal_cree" in
      let filename2 := joinpath FINAL_DIR (path_of_string "tidal_creek.shp") in
      mkProcessed
        [(filename1, upland); (filename2, tidal_creek)]
        ["Loading Welikia layers…"; "Welikia layers loaded";
         ("Wrote: " ++ path_to_string filename1)%string;
         ("Wrote: " ++ path_to_string filename2)%string;
         "Past preprocessing complete."]
        fs true
  end.

End Processing.

End Environment.

(** ** More on the epoch scripts *)

(** [s.endswith(sfx)] *)
Fixpoint ends_with (sfx s : string) : bool :=
  String.eqb s sfx
  || match s with
     | String _ s' => ends_with sfx s'
     | EmptyString => false
     end.

(** The environment with every variable that is set to the empty string
    taken away. *)
Definition without_empty (getenv : string -> option string) (var : string)
  : option string :=
  match getenv var with
  | Some (String _ _ as v) => Some v
  | _ => None
  end.

(** Every fragment of the table has a geometry of area at least 0. *)
Definition nonneg_areas (fragments : DataFrame) : Prop :=
  Forall (fun f => exists a, cell f "geometry" = Geom a /\ 0 <= a) (rows fragments).

(** The keys of a table, in the order of its rows. *)
Definition keys_of (df : DataFrame) : list value :=
  map (fun r => cell r "unique_id") (rows df).

(** A key that is a string or a number. *)
Definition plain_key (k : value) : bool :=
  match k with
  | Str _ | Int _ | Float _ => true
  | _ => false
  end.

(** The keys come in ascending order. *)
Fixpoint ascending (ks : list value) : Prop :=
  match ks with
  | k :: (k' :: _) as ks' => key_leb k k' = true /\ ascending ks'
  | _ => True
  end.

(** The key [k] is below the first key of the list, if there is one. *)
Definition head_above (k : value) (ks : list value) : Prop :=
  match ks with
  | [] => True
  | k' :: _ => key_leb k k' = true
  end.

(** The table [T] is the dissolve of the overlay result [I] into the
    aggregate column [n]: one row for every zone that a fragment of [I]
    carries and no other row, no row without a key, and in the row of a
    zone the sum of the areas of its fragments. *)
Definition dissolves (I : DataFrame) (n : string) (T : DataFrame) : Prop :=
  unique_keys T "unique_id"
  /\ Forall (fun k => isna k = false) (keys_of T)
  /\ (forall k, touched I "unique_id" k = true <-> matches T "unique_id" k <> [])
  /\ (forall k, lookup T "unique_id" k n = overlap_area I k).

(** What ['first'] gives for column [c] and the zone with key [k]: the
    first value that is not missing among the rows carrying the key, in
    the order of the table; missing when no row carries the key. *)
Definition first_value (fragments : DataFrame) (c : string) (k : value) : value :=
  if touched fragments "unique_id" k
  then agg_first (map (fun r => cell r c) (matches fragments "unique_id" k))
  else NaN.

(** Every fragment of the table that has a key has a string or a number
    for it. *)
Definition plain_keys (fragments : DataFrame) : Prop :=
  Forall (fun k => isna k = false -> plain_key k = true) (keys_of fragments).

(** Some layer of the row reaches a tenth of the row's area. *)
Definition some_layer_reaches (names : list string) (r : Row) : Prop :=
  Exists (fun n => reaches_threshold (cell r n) (cell r "area")) names.

(** The zone of the row [z] is carried by none of the tables. *)
Definition untouched (tables : list DataFrame) (z : Row) : Prop :=
  Forall (fun I => touched I "unique_id" (cell z "unique_id") = false) tables.

(** ** More data *)

Module Sample.

(** An environment with nothing set, and one with the output directory
    set. *)
Definition nothing_set (var : string) : option string := None.

Definition output_set (var : string) : option string :=
  if String.eqb var "BLUEZONES_OUTPUT_DIR" then Some "/data/out" else None.

Definition output_empty (var : string) : option string :=
  if String.eqb var "BLUEZONES_OUTPUT_DIR" then Some "" else None.

(** [resolve] in the working directory [/home/user], without links and
    without [".."]. *)
Definition resolve (p : Path) : Path :=
  if String.eqb (anchor p) "" then mkPath "/" (["home"; "user"] ++ parts p) else p.

(** Two line layers with attributes, and a reader that knows all nine raw
    layers. *)
Definition line (id : string) (len : Q) : Row :=
  [("Name", Str id); ("geometry", Geom len)].

Definition streams : DataFrame :=
  mkDF ["Name"; "geometry"] [line "s1" 10; line "s2" 20; line "s3" 30].

Definition tidal_creeks : DataFrame :=
  mkDF ["Name"; "geometry"] [line "t1" 5].

Definition read_file (p : Path) : option DataFrame :=
  if String.eqb (name p) "Streams_upland_line_v8_0.shp" then Some streams
  else if String.eqb (name p) "Tidal_creeks_v8_0.shp" then Some tidal_creeks
  else Some (mkDF ["geometry"] []).

(** A reader that does not find the beaches. *)
Definition read_file_no_beaches (p : Path) : option DataFrame :=
  if String.eqb (name p) "Beaches_mw659_00.shp" then None else read_file p.

Definition reproject (g : value) : value := g.

(** A buffer that adds [2 * d] to the area. *)
Definition buffer (d : Q) (g : value) : value :=
  match g with
  | Geom a => Geom (a + 2 * d)
  | _ => g
  end.

(** The zone table of the example with an attribute [Point_Coun] of its
    own, and with a column [mod_20A]. *)
Definition atomic_with (c : string) : DataFrame :=
  mkDF ["unique_id"; "borough"; c; "geometry"]
       (map (fun z => [("unique_id", cell z "unique_id"); ("borough", cell z "borough");
                       (c, Int 7); ("geometry", cell z "geometry")])
            (rows Example.atomic)).

(** The zone table of the example, Z1 without a geometry. *)
Definition atomic_no_geometry : DataFrame :=
  mkDF ["unique_id"; "borough"; "geometry"]
       [[("unique_id", Str "Z1"); ("borough", Str "BK"); ("geometry", NaN)];
        Example.zone "Z2" 500; Example.zone "Z3" 200].

(** A flood layer whose fragments have a class each. *)
Definition classed (flag class : string) (fs : list (string * string * Q)) : DataFrame :=
  mkDF ["unique_id"; flag; class; "geometry"]
       (map (fun f => [("unique_id", Str (fst (fst f))); (flag, Int 1);
                       (class, Str (snd (fst f))); ("geometry", Geom (snd f))]) fs).

(** Z1 has a small fragment of class X and then a large one of class
    AE. *)
Definition mod_2050_classes : DataFrame :=
  classed "mod_2050" "mo_20_fldC" [("Z1", "X", 60); ("Z1", "AE", 500)].

End Sample.

(** * Properties *)

(** ** The error monad *)

Lemma mapM_pure {A B : Type} (g : A -> B) (l : list A) :
  mapM (fun a => Ok (g a)) l = Ok (map g l).
Proof.
  induction l as [|a l IH]; simpl; [reflexivity|].
  rewrite IH. reflexivity.
Qed.

Lemma mapM_ext {A B : Type} (f g : A -> result B) (l : list A) :
  (forall a, In a l -> f a = g a) -> mapM f l = mapM g l.
Proof.
  induction l as [|a l IH]; simpl; intros H; [reflexivity|].
  rewrite (H a) by (left; reflexivity).
  rewrite IH by (intros; apply H; right; assumption).
  reflexivity.
Qed.

Lemma mapM_Ok_Forall2 {A B : Type} (f : A -> result B) (l : list A) (l' : list B) :
  mapM f l = Ok l' -> Forall2 (fun a b => f a = Ok b) l l'.
Proof.
  revert l'. induction l as [|a l IH]; simpl; intros l' H.
  - injection H as <-. constructor.
  - destruct (f a) as [b|e] eqn:Hf; simpl in H; [|discriminate].
    destruct (mapM f l) as [bs|e] eqn:Hm; simpl in H; [|discriminate].
    injection H as <-. constructor; [assumption|]. apply IH. reflexivity.
Qed.

Lemma mapM_unit_Ok {A : Type} (f : A -> result unit) (l : list A) :
  (forall a, In a l -> f a = Ok tt) -> mapM f l = Ok (map (fun _ => tt) l).
Proof.
  intros H. rewrite (mapM_ext f (fun _ => Ok tt) l H). apply mapM_pure.
Qed.

(** ** Labels and cells *)

Lemma mem_true_iff c l : mem c l = true <-> In c l.
Proof.
  unfold mem. rewrite existsb_exists. split.
  - intros [x [Hin Heq]]. apply String.eqb_eq in Heq. subst. assumption.
  - intros H. exists c. split; [assumption|apply String.eqb_refl].
Qed.

Lemma mem_false_iff c l : mem c l = false <-> ~ In c l.
Proof.
  rewrite <- mem_true_iff. destruct (mem c l); split; intros; congruence.
Qed.

Lemma mem_app c l1 l2 : mem c (l1 ++ l2) = mem c l1 || mem c l2.
Proof. unfold mem. apply existsb_app. Qed.

Lemma cell_cons p r c :
  cell (p :: r) c = if String.eqb (fst p) c then snd p else cell r c.
Proof. unfold cell. simpl. destruct (String.eqb (fst p) c); reflexivity. Qed.

Lemma cell_not_label r c : mem c (labels r) = false -> cell r c = NaN.
Proof.
  induction r as [|p r IH]; intros H; [reflexivity|].
  rewrite cell_cons. simpl in H. apply orb_false_elim in H as [H1 H2].
  rewrite String.eqb_sym, H1. apply IH. assumption.
Qed.

Lemma cell_app r1 r2 c :
  cell (r1 ++ r2) c = if mem c (labels r1) then cell r1 c else cell r2 c.
Proof.
  induction r1 as [|p r1 IH]; [reflexivity|].
  simpl app. rewrite !cell_cons. simpl.
  rewrite (String.eqb_sym c (fst p)).
  destruct (String.eqb (fst p) c); simpl; [reflexivity|]. apply IH.
Qed.

Lemma labels_set_cell r c v : labels (set_cell r c v) = add_column (labels r) c.
Proof.
  unfold set_cell, add_column. destruct (mem c (labels r)).
  - unfold labels. rewrite map_map. apply map_ext. intros p.
    destruct (String.eqb (fst p) c); reflexivity.
  - unfold labels. rewrite map_app. reflexivity.
Qed.

Lemma cell_set_cell_same r c v : cell (set_cell r c v) c = v.
Proof.
  unfold set_cell. destruct (mem c (labels r)) eqn:Hm.
  - induction r as [|p r IH]; [discriminate|].
    simpl. rewrite cell_cons. destruct (String.eqb (fst p) c) eqn:He; simpl.
    + rewrite He. reflexivity.
    + rewrite He. apply IH. simpl in Hm. rewrite String.eqb_sym, He in Hm. exact Hm.
  - rewrite cell_app, Hm. rewrite cell_cons. simpl. rewrite String.eqb_refl. reflexivity.
Qed.

Lemma cell_set_cell_other r c v c' :
  c' <> c -> cell (set_cell r c v) c' = cell r c'.
Proof.
  intros Hne. unfold set_cell. destruct (mem c (labels r)) eqn:Hm.
  - clear Hm. induction r as [|p r IH]; [reflexivity|].
    simpl. rewrite !cell_cons. destruct (String.eqb (fst p) c) eqn:He; simpl.
    + apply String.eqb_eq in He. rewrite He.
      assert (String.eqb c c' = false) as -> by (apply String.eqb_neq; congruence).
      apply IH.
    + destruct (String.eqb (fst p) c'); [reflexivity|apply IH].
  - rewrite cell_app. destruct (mem c' (labels r)) eqn:Hm'; [reflexivity|].
    rewrite cell_cons. simpl.
    assert (String.eqb c c' = false) as -> by (apply String.eqb_neq; congruence).
    rewrite (cell_not_label r c' Hm'). reflexivity.
Qed.

Lemma mem_add_column c cols c' :
  mem c' (add_column cols c) = mem c' cols || String.eqb c' c.
Proof.
  unfold add_column. destruct (mem c cols) eqn:Hm.
  - destruct (String.eqb c' c) eqn:He; [|rewrite orb_false_r; reflexivity].
    apply String.eqb_eq in He. subst. rewrite Hm. reflexivity.
  - rewrite mem_app. simpl. rewrite orb_false_r. reflexivity.
Qed.

(** ** Column assignment *)

Lemma assign_pure df c (g : Row -> value) :
  assign df c (fun r => Ok (g r))
  = Ok (mkDF (add_column (columns df) c) (map (fun r => set_cell r c (g r)) (rows df))).
Proof.
  unfold assign. simpl.
  rewrite (mapM_pure (fun r => set_cell r c (g r))). reflexivity.
Qed.

Lemma assign_Ok df c f (g : Row -> value) :
  (forall r, In r (rows df) -> f r = Ok (g r)) ->
  assign df c f
  = Ok (mkDF (add_column (columns df) c) (map (fun r => set_cell r c (g r)) (rows df))).
Proof.
  intros H. rewrite <- assign_pure. unfold assign.
  erewrite mapM_ext; [reflexivity|].
  intros r Hr. simpl. rewrite (H r Hr). reflexivity.
Qed.

Lemma wf_assign_rows cols rs c (g : Row -> value) :
  wf (mkDF cols rs) ->
  wf (mkDF (add_column cols c) (map (fun r => set_cell r c (g r)) rs)).
Proof.
  unfold wf. simpl. intros H. apply Forall_map.
  eapply Forall_impl; [|exact H]. simpl. intros r Hr.
  rewrite labels_set_cell, Hr. reflexivity.
Qed.

(** ** Keys *)

Lemma key_match_sym a b : key_match a b = key_match b a.
Proof.
  destruct a, b; simpl; try reflexivity;
    try apply Qeq_bool_comm; apply String.eqb_sym.
Qed.

Lemma Qeq_bool_trans_eq x y z :
  Qeq_bool x y = true -> Qeq_bool x z = Qeq_bool y z.
Proof.
  intros H. destruct (Qeq_bool y z) eqn:E.
  - eapply Qeq_bool_trans; eassumption.
  - destruct (Qeq_bool x z) eqn:E'; [|reflexivity].
    rewrite <- E. symmetry. eapply Qeq_bool_trans; [|exact E'].
    apply Qeq_bool_sym. exact H.
Qed.

Lemma key_match_trans_eq a b c :
  key_match a b = true -> key_match a c = key_match b c.
Proof.
  destruct a, b; simpl; try discriminate; intros H;
    try (destruct c; simpl; try reflexivity; apply Qeq_bool_trans_eq; exact H).
  apply String.eqb_eq in H. subst. reflexivity.
Qed.

Lemma key_match_trans_eq_r a b c :
  key_match a b = true -> key_match c a = key_match c b.
Proof.
  intros H. rewrite (key_match_sym c a), (key_match_sym c b).
  apply key_match_trans_eq. exact H.
Qed.

Lemma key_match_notna a b :
  key_match a b = true -> isna a = isna b.
Proof. destruct a, b; simpl; try discriminate; reflexivity. Qed.

Lemma matches_key_eq df on k k' :
  key_match k k' = true -> matches df on k = matches df on k'.
Proof.
  intros H. unfold matches. apply filter_ext. intros r.
  apply key_match_trans_eq_r. exact H.
Qed.

Lemma matches_In df on k r :
  In r (matches df on k) <-> In r (rows df) /\ key_match (cell r on) k = true.
Proof. unfold matches. apply filter_In. Qed.

(** ** Sorting is a permutation *)

Lemma insert_by_perm {A : Type} (key : A -> value) x l :
  Permutation (insert_by key x l) (x :: l).
Proof.
  induction l as [|y l IH]; simpl; [apply Permutation_refl|].
  destruct (key_leb (key x) (key y)); [apply Permutation_refl|].
  eapply Permutation_trans; [apply perm_skip, IH|apply perm_swap].
Qed.

Lemma sort_by_perm {A : Type} (key : A -> value) l :
  Permutation (sort_by key l) l.
Proof.
  induction l as [|x l IH]; simpl; [constructor|].
  eapply Permutation_trans; [apply insert_by_perm|]. apply perm_skip, IH.
Qed.

Lemma filter_perm {A : Type} (f : A -> bool) l l' :
  Permutation l l' -> Permutation (filter f l) (filter f l').
Proof.
  induction 1 as [|x l l' _ IH|x y l|l l' l'' _ IH1 _ IH2]; simpl.
  - constructor.
  - destruct (f x); [apply perm_skip|]; exact IH.
  - destruct (f x), (f y); try apply Permutation_refl. apply perm_swap.
  - eapply Permutation_trans; eassumption.
Qed.

Lemma perm_short {A : Type} (l l' : list A) :
  Permutation l l' -> (List.length l' <= 1)%nat -> l = l'.
Proof.
  intros HP Hlen. destruct l' as [|x [|y l']]; simpl in Hlen; try lia.
  - apply Permutation_sym, Permutation_nil in HP. exact HP.
  - apply Permutation_sym, Permutation_length_1_inv in HP. exact HP.
Qed.

Lemma filter_sort_by {A : Type} (key : A -> value) (f : A -> bool) l :
  (List.length (filter f l) <= 1)%nat -> filter f (sort_by key l) = filter f l.
Proof.
  intros H. apply perm_short; [|exact H].
  apply filter_perm, sort_by_perm.
Qed.

Lemma sort_by_In {A : Type} (key : A -> value) l x :
  In x (sort_by key l) <-> In x l.
Proof.
  split; apply Permutation_in; [|apply Permutation_sym]; apply sort_by_perm.
Qed.

Lemma Forall_sort_by {A : Type} (key : A -> value) (P : A -> Prop) l :
  Forall P l -> Forall P (sort_by key l).
Proof.
  rewrite !Forall_forall. intros H x Hx. apply H. apply sort_by_In in Hx. exact Hx.
Qed.

(** ** Lookup *)

Lemma lookup_key_eq df on k k' c :
  key_match k k' = true -> lookup df on k c = lookup df on k' c.
Proof. intros H. unfold lookup. rewrite (matches_key_eq df on k k' H). reflexivity. Qed.

Lemma filter_flat_map {A B : Type} (f : B -> bool) (g : A -> list B) l :
  filter f (flat_map g l) = flat_map (fun a => filter f (g a)) l.
Proof.
  induction l as [|a l IH]; simpl; [reflexivity|].
  rewrite filter_app, IH. reflexivity.
Qed.

Lemma filter_const {A : Type} (f : A -> bool) (b : bool) l :
  (forall x, In x l -> f x = b) -> filter f l = if b then l else [].
Proof.
  induction l as [|x l IH]; intros H; simpl.
  - destruct b; reflexivity.
  - rewrite (H x) by (left; reflexivity).
    rewrite IH by (intros; apply H; right; assumption).
    destruct b; reflexivity.
Qed.

Lemma flat_map_filter_all {A B : Type} (p : A -> bool) (f : B -> bool) (g : A -> list B) l :
  (forall a b, In a l -> In b (g a) -> f b = p a) ->
  flat_map (fun a => filter f (g a)) l = flat_map g (filter p l).
Proof.
  induction l as [|a l IH]; simpl; intros H; [reflexivity|].
  rewrite IH by (intros a' b' Ha' Hb'; apply H; [right; exact Ha'|exact Hb']).
  rewrite (filter_const f (p a) (g a)) by (intros b Hb; apply H; [left; reflexivity|exact Hb]).
  destruct (p a); reflexivity.
Qed.

(** ** Joins of tables that share no label but the key *)

Lemma suffixed_nil sfx c : suffixed [] sfx c = c.
Proof. reflexivity. Qed.

Lemma rename_row_nil sfx r : rename_row [] sfx r = r.
Proof.
  unfold rename_row. induction r as [|[c v] r IH]; simpl; [reflexivity|].
  rewrite IH. reflexivity.
Qed.

Lemma map_suffixed_nil sfx l : map (suffixed [] sfx) l = l.
Proof. induction l as [|c l IH]; simpl; [reflexivity|]. rewrite IH. reflexivity. Qed.

Lemma suffix_dups_same seen l : suffix_dups seen seen l l = false.
Proof.
  revert seen. induction l as [|c l IH]; intros seen; simpl; [reflexivity|].
  rewrite IH. destruct (mem c seen); reflexivity.
Qed.

Lemma left_rows_plain s1 s2 left right on :
  left_rows [] s1 s2 (without on (columns right)) left right on
  = plain_left_rows left right on.
Proof.
  unfold left_rows, plain_left_rows. apply flat_map_ext. intros l.
  rewrite rename_row_nil.
  destruct (matches right on (cell l on)); [reflexivity|].
  apply map_ext. intros m. rewrite rename_row_nil. reflexivity.
Qed.

Lemma right_rows_plain s1 s2 left right on :
  right_rows [] s1 s2 left right on = plain_right_rows left right on.
Proof.
  unfold right_rows, plain_right_rows. apply flat_map_ext. intros m.
  destruct (matches left on (cell m on)); [|reflexivity].
  rewrite rename_row_nil. reflexivity.
Qed.

Lemma merge_plain left right on h s1 s2 :
  has_column left on = true ->
  has_column right on = true ->
  overlapping (columns left) (without on (columns right)) = [] ->
  merge left right on h s1 s2
  = Ok (mkDF (columns left ++ without on (columns right))
             match h with
             | Left => plain_left_rows left right on
             | Outer => sort_by (fun r => cell r on)
                                (plain_left_rows left right on
                                 ++ plain_right_rows left right on)
             end).
Proof.
  intros Hl Hr Hov. unfold merge, require. rewrite Hl, Hr. simpl. rewrite Hov.
  rewrite !map_suffixed_nil, !suffix_dups_same. simpl.
  rewrite left_rows_plain, right_rows_plain. reflexivity.
Qed.

Lemma cell_map_labels (g : string -> value) cols c :
  cell (map (fun c => (c, g c)) cols) c = if mem c cols then g c else NaN.
Proof.
  induction cols as [|d cols IH]; simpl; [reflexivity|].
  rewrite cell_cons. simpl. rewrite (String.eqb_sym c d).
  destruct (String.eqb d c) eqn:He; simpl; [|exact IH].
  apply String.eqb_eq in He. subst. reflexivity.
Qed.

Lemma labels_map_labels (g : string -> value) cols :
  labels (map (fun c => (c, g c)) cols) = cols.
Proof. unfold labels. rewrite map_map. simpl. apply map_id. Qed.

Lemma cell_nan_row cols c : cell (nan_row cols) c = NaN.
Proof.
  unfold nan_row. rewrite (cell_map_labels (fun _ => NaN)).
  destruct (mem c cols); reflexivity.
Qed.

Lemma labels_nan_row cols : labels (nan_row cols) = cols.
Proof. apply (labels_map_labels (fun _ => NaN)). Qed.

Lemma cell_drop_label on r c :
  c <> on -> cell (drop_label on r) c = cell r c.
Proof.
  intros Hne. induction r as [|p r IH]; [reflexivity|].
  simpl. rewrite cell_cons. destruct (String.eqb (fst p) on) eqn:He; simpl.
  - apply String.eqb_eq in He. rewrite He.
    assert (String.eqb on c = false) as -> by (apply String.eqb_neq; congruence).
    exact IH.
  - rewrite cell_cons. rewrite IH. reflexivity.
Qed.

Lemma labels_drop_label on r : labels (drop_label on r) = without on (labels r).
Proof.
  induction r as [|p r IH]; [reflexivity|].
  simpl. destruct (String.eqb (fst p) on); simpl; rewrite IH; reflexivity.
Qed.

Lemma mem_without on cols c :
  mem c (without on cols) = mem c cols && negb (String.eqb c on).
Proof.
  induction cols as [|d cols IH]; simpl; [reflexivity|].
  destruct (String.eqb d on) eqn:He; simpl; rewrite IH.
  - apply String.eqb_eq in He. subst.
    destruct (String.eqb c on); simpl; [rewrite andb_false_r|]; reflexivity.
  - destruct (String.eqb c d) eqn:Hc; simpl; [|reflexivity].
    apply String.eqb_eq in Hc. subst. rewrite He. reflexivity.
Qed.

Lemma cell_key_row lcols on k c :
  cell (key_row lcols on k) c
  = if mem c lcols then (if String.eqb c on then k else NaN) else NaN.
Proof. unfold key_row. apply (cell_map_labels (fun c => if String.eqb c on then k else NaN)). Qed.

Lemma labels_key_row lcols on k : labels (key_row lcols on k) = lcols.
Proof. apply (labels_map_labels (fun c => if String.eqb c on then k else NaN)). Qed.

Lemma overlapping_nil lcols rcols c :
  overlapping lcols rcols = [] -> In c lcols -> mem c rcols = false.
Proof.
  unfold overlapping. intros H Hin.
  destruct (mem c rcols) eqn:Hm; [|reflexivity].
  assert (In c (filter (fun c => mem c rcols) lcols)) as Hc
      by (apply filter_In; split; assumption).
  rewrite H in Hc. destruct Hc.
Qed.

Section OuterJoin.

Variables (A B : DataFrame) (on : string).
Hypothesis wfA : wf A.
Hypothesis wfB : wf B.
Hypothesis onA : has_column A on = true.
Hypothesis onB : has_column B on = true.
Hypothesis uniqA : unique_keys A on.
Hypothesis uniqB : unique_keys B on.


Lemma labels_row_A l : In l (rows A) -> labels l = columns A.
Proof. intros H. exact (proj1 (Forall_forall _ _) wfA l H). Qed.

Lemma key_left_row l x : In l (rows A) -> cell (l ++ x) on = cell l on.
Proof.
  intros H. rewrite cell_app, (labels_row_A l H).
  unfold has_column in onA. rewrite onA. reflexivity.
Qed.

Lemma key_right_row k x : cell (key_row (columns A) on k ++ x) on = k.
Proof.
  rewrite cell_app, labels_key_row. unfold has_column in onA. rewrite onA.
  rewrite cell_key_row, onA, String.eqb_refl. reflexivity.
Qed.

Lemma matches_joined k :
  filter (fun r => key_match (cell r on) k) (joined_rows A B on)
  = match matches A on k, matches B on k with
    | a :: _, b :: _ => [a ++ drop_label on b]
    | a :: _, [] => [a ++ nan_row (without on (columns B))]
    | [], b :: _ => [key_row (columns A) on (cell b on) ++ drop_label on b]
    | [], [] => []
    end.
Proof.
  unfold joined_rows. rewrite filter_app.
  unfold plain_left_rows, plain_right_rows. rewrite !filter_flat_map.
  rewrite (flat_map_filter_all (fun l => key_match (cell l on) k)).
  2:{ intros l r Hl Hr. destruct (matches B on (cell l on)).
      - destruct Hr as [<-|[]]. rewrite key_left_row by assumption. reflexivity.
      - apply in_map_iff in Hr as [m [<- _]]. rewrite key_left_row by assumption.
        reflexivity. }
  rewrite (flat_map_filter_all (fun m => key_match (cell m on) k)).
  2:{ intros m r Hm Hr. destruct (matches A on (cell m on)); [|destruct Hr].
      destruct Hr as [<-|[]]. fold (key_row (columns A) on (cell m on)).
      rewrite key_right_row. reflexivity. }
  fold (matches A on k). fold (matches B on k).
  pose proof (uniqA k) as HA. pose proof (uniqB k) as HB.
  destruct (matches A on k) as [|a [|a' la]] eqn:EA; simpl in HA; try lia;
    destruct (matches B on k) as [|b [|b' lb]] eqn:EB; simpl in HB; try lia; simpl.
  - reflexivity.
  - assert (key_match (cell b on) k = true) as Hb.
    { apply (matches_In B on k b). rewrite EB. left. reflexivity. }
    rewrite (matches_key_eq A on _ _ Hb), EA. reflexivity.
  - assert (key_match (cell a on) k = true) as Ha.
    { apply (matches_In A on k a). rewrite EA. left. reflexivity. }
    rewrite (matches_key_eq B on _ _ Ha), EB. reflexivity.
  - assert (key_match (cell a on) k = true) as Ha.
    { apply (matches_In A on k a). rewrite EA. left. reflexivity. }
    assert (key_match (cell b on) k = true) as Hb.
    { apply (matches_In B on k b). rewrite EB. left. reflexivity. }
    rewrite (matches_key_eq B on _ _ Ha), EB.
    rewrite (matches_key_eq A on _ _ Hb), EA. reflexivity.
Qed.

Lemma matches_outer k :
  matches (outer_join A B on) on k
  = match matches A on k, matches B on k with
    | a :: _, b :: _ => [a ++ drop_label on b]
    | a :: _, [] => [a ++ nan_row (without on (columns B))]
    | [], b :: _ => [key_row (columns A) on (cell b on) ++ drop_label on b]
    | [], [] => []
    end.
Proof.
  unfold matches at 1. unfold outer_join. simpl.
  rewrite filter_sort_by; [apply matches_joined|].
  rewrite matches_joined.
  destruct (matches A on k), (matches B on k); simpl; lia.
Qed.

Lemma matches_outer_nil k :
  matches (outer_join A B on) on k = [] <-> matches A on k = [] /\ matches B on k = [].
Proof.
  rewrite matches_outer.
  destruct (matches A on k), (matches B on k); split;
    try (intros [H1 H2]); try intros H; try discriminate; auto.
Qed.

Lemma unique_outer : unique_keys (outer_join A B on) on.
Proof.
  intros k. rewrite matches_outer.
  destruct (matches A on k), (matches B on k); simpl; lia.
Qed.

Lemma wf_outer : wf (outer_join A B on).
Proof.
  unfold wf, outer_join, joined_rows. simpl. apply Forall_sort_by.
  apply Forall_app. split; apply Forall_forall; intros r Hr.
  - unfold plain_left_rows in Hr. apply in_flat_map in Hr as [l [Hl Hr]].
    destruct (matches B on (cell l on)) as [|m ms] eqn:Em.
    + destruct Hr as [<-|[]]. unfold labels. rewrite map_app.
      fold (labels l). fold (labels (nan_row (without on (columns B)))).
      rewrite labels_nan_row, (labels_row_A l Hl). reflexivity.
    + apply in_map_iff in Hr as [m' [<- Hm']].
      unfold labels. rewrite map_app.
      fold (labels l). fold (labels (drop_label on m')).
      rewrite labels_drop_label, (labels_row_A l Hl).
      assert (In m' (rows B)) as HB.
      { apply (matches_In B on (cell l on) m'). rewrite Em. exact Hm'. }
      rewrite (proj1 (Forall_forall _ _) wfB m' HB). reflexivity.
  - unfold plain_right_rows in Hr. apply in_flat_map in Hr as [m [Hm Hr]].
    destruct (matches A on (cell m on)); [|destruct Hr].
    destruct Hr as [<-|[]]. fold (key_row (columns A) on (cell m on)).
    unfold labels. rewrite map_app.
    fold (labels (key_row (columns A) on (cell m on))). fold (labels (drop_label on m)).
    rewrite labels_key_row, labels_drop_label.
    rewrite (proj1 (Forall_forall _ _) wfB m Hm). reflexivity.
Qed.

Lemma lookup_outer k c :
  c <> on ->
  lookup (outer_join A B on) on k c = if mem c (columns A) then lookup A on k c else lookup B on k c.
Proof.
  intros Hne. unfold lookup. rewrite matches_outer.
  assert (String.eqb c on = false) as Hf by (apply String.eqb_neq; exact Hne).
  destruct (matches A on k) as [|a la] eqn:EA;
    destruct (matches B on k) as [|b lb] eqn:EB.
  - destruct (mem c (columns A)); reflexivity.
  - rewrite cell_app, labels_key_row, cell_key_row, Hf.
    rewrite cell_drop_label by exact Hne.
    destruct (mem c (columns A)); reflexivity.
  - assert (In a (rows A)) as Ha.
    { apply (matches_In A on k a). rewrite EA. left. reflexivity. }
    rewrite cell_app, (labels_row_A a Ha), cell_nan_row. reflexivity.
  - assert (In a (rows A)) as Ha.
    { apply (matches_In A on k a). rewrite EA. left. reflexivity. }
    rewrite cell_app, (labels_row_A a Ha).
    rewrite cell_drop_label by exact Hne. reflexivity.
Qed.

Lemma merge_outer s1 s2 :
  overlapping (columns A) (without on (columns B)) = [] ->
  merge A B on Outer s1 s2 = Ok (outer_join A B on).
Proof. intros Hov. rewrite merge_plain by assumption. reflexivity. Qed.

End OuterJoin.

Lemma flat_map_singleton {X Y : Type} (g : X -> list Y) (h : X -> Y) l :
  (forall x, g x = [h x]) -> flat_map g l = map h l.
Proof.
  intros H. induction l as [|x l IH]; simpl; [reflexivity|].
  rewrite H, IH. reflexivity.
Qed.

(** A left join on a right table with unique keys keeps the left rows, one
    for one. *)
Lemma plain_left_rows_unique Z M on :
  unique_keys M on ->
  plain_left_rows Z M on = map (fun z => z ++ right_cells M on (cell z on)) (rows Z).
Proof.
  intros Hu. unfold plain_left_rows. apply flat_map_singleton. intros z.
  unfold right_cells. pose proof (Hu (cell z on)) as H.
  destruct (matches M on (cell z on)) as [|m [|m' ms]]; simpl in H; try lia; reflexivity.
Qed.

Lemma cell_right_cells M on k c :
  c <> on -> cell (right_cells M on k) c = lookup M on k c.
Proof.
  intros Hne. unfold right_cells, lookup.
  destruct (matches M on k); [apply cell_nan_row|apply cell_drop_label; exact Hne].
Qed.

Lemma merge_left Z M on s1 s2 :
  has_column Z on = true ->
  has_column M on = true ->
  unique_keys M on ->
  overlapping (columns Z) (without on (columns M)) = [] ->
  merge Z M on Left s1 s2
  = Ok (mkDF (columns Z ++ without on (columns M))
             (map (fun z => z ++ right_cells M on (cell z on)) (rows Z))).
Proof.
  intros HZ HM Hu Hov. rewrite merge_plain by assumption.
  rewrite plain_left_rows_unique by assumption. reflexivity.
Qed.

(** ** Grouping *)

Lemma key_match_refl_l a b : key_match a b = true -> key_match a a = true.
Proof.
  intros H. rewrite (key_match_trans_eq a b a H), key_match_sym. exact H.
Qed.

Lemma distinct_keys_In ks k : In k (distinct_keys ks) -> In k ks.
Proof.
  revert k. induction ks as [|x ks IH]; intros k; simpl; [tauto|].
  intros [H|H]; [left; exact H|]. right. apply IH.
  apply filter_In in H. tauto.
Qed.

Lemma filter_length_le {X : Type} (f : X -> bool) l :
  (List.length (filter f l) <= List.length l)%nat.
Proof.
  induction l as [|x l IH]; simpl; [lia|]. destruct (f x); simpl; lia.
Qed.

Lemma filter_comm {X : Type} (f g : X -> bool) l :
  filter f (filter g l) = filter g (filter f l).
Proof.
  induction l as [|x l IH]; simpl; [reflexivity|].
  destruct (f x) eqn:Hf, (g x) eqn:Hg; simpl; rewrite ?Hf, ?Hg, IH; reflexivity.
Qed.

Lemma distinct_keys_unique ks k :
  (List.length (filter (fun k' => key_match k' k) (distinct_keys ks)) <= 1)%nat.
Proof.
  induction ks as [|x ks IH]; simpl; [lia|].
  rewrite filter_comm.
  destruct (key_match x k) eqn:Hx; simpl.
  - rewrite (filter_const _ false).
    + simpl. lia.
    + intros k' Hk'. apply filter_In in Hk' as [_ Hk'].
      rewrite (key_match_trans_eq x k k' Hx), key_match_sym, Hk'. reflexivity.
  - eapply Nat.le_trans; [apply filter_length_le|exact IH].
Qed.

Lemma distinct_keys_cover ks x :
  In x ks -> key_match x x = true ->
  exists k', In k' (distinct_keys ks) /\ key_match k' x = true.
Proof.
  intros Hin Hrefl. induction ks as [|y ks IH]; [destruct Hin|].
  simpl. destruct Hin as [->|Hin].
  - exists x. split; [left; reflexivity|exact Hrefl].
  - destruct (IH Hin) as [k' [Hk' Hm]].
    destruct (key_match y k') eqn:Hy.
    + exists y. split; [left; reflexivity|].
      rewrite (key_match_trans_eq y k' x Hy). exact Hm.
    + exists k'. split; [|exact Hm]. right. apply filter_In. split; [exact Hk'|].
      rewrite Hy. reflexivity.
Qed.

Lemma filter_map_swap {X Y : Type} (f : Y -> bool) (g : X -> Y) l :
  filter f (map g l) = map g (filter (fun x => f (g x)) l).
Proof.
  induction l as [|x l IH]; simpl; [reflexivity|].
  destruct (f (g x)); simpl; rewrite IH; reflexivity.
Qed.

Section Grouping.

Variables (df : DataFrame) (kcol : string) (aggs : list (string * aggfun)).

Lemma group_keys_matching k :
  filter (fun k' => key_match k' k) (group_keys df kcol)
  = filter (fun k' => key_match k' k) (distinct_keys (present_keys df kcol)).
Proof.
  unfold group_keys. apply filter_sort_by. apply distinct_keys_unique.
Qed.

Lemma group_keys_unique k :
  (List.length (filter (fun k' => key_match k' k) (group_keys df kcol)) <= 1)%nat.
Proof. rewrite group_keys_matching. apply distinct_keys_unique. Qed.

Lemma group_keys_touched k :
  touched df kcol k = true <->
  exists k', In k' (filter (fun k' => key_match k' k) (group_keys df kcol)).
Proof.
  rewrite group_keys_matching. unfold touched. rewrite existsb_exists. split.
  - intros [r [Hr Hk]]. apply andb_prop in Hk as [Hna Hk].
    destruct (distinct_keys_cover (present_keys df kcol) (cell r kcol)) as [k' [Hin Hm]].
    + unfold present_keys. apply filter_In. split; [|exact Hna].
      apply in_map_iff. exists r. split; [reflexivity|exact Hr].
    + eapply key_match_refl_l. exact Hk.
    + exists k'. apply filter_In. split; [exact Hin|].
      rewrite (key_match_trans_eq k' (cell r kcol) k Hm). exact Hk.
  - intros [k' Hk']. apply filter_In in Hk' as [Hin Hm].
    apply distinct_keys_In in Hin. unfold present_keys in Hin.
    apply filter_In in Hin as [Hin Hna].
    apply in_map_iff in Hin as [r [<- Hr]].
    exists r. split; [exact Hr|]. rewrite Hna, Hm. reflexivity.
Qed.

Lemma cell_agg_row_key k : cell (agg_row df kcol aggs k) kcol = k.
Proof. unfold agg_row. rewrite cell_cons. simpl. rewrite String.eqb_refl. reflexivity. Qed.

Lemma cell_agg_row k c :
  c <> kcol ->
  cell (agg_row df kcol aggs k) c
  = match find (fun a => String.eqb (fst a) c) aggs with
    | Some a => apply_agg (snd a) (map (fun r => cell r (fst a)) (matches df kcol k))
    | None => NaN
    end.
Proof.
  intros Hne. unfold agg_row. rewrite cell_cons. simpl.
  assert (String.eqb kcol c = false) as -> by (apply String.eqb_neq; congruence).
  induction aggs as [|a l IH]; [reflexivity|].
  simpl. rewrite cell_cons. simpl. destruct (String.eqb (fst a) c); [reflexivity|exact IH].
Qed.

Lemma matches_grouped k :
  matches (grouped df kcol aggs) kcol k
  = map (agg_row df kcol aggs) (filter (fun k' => key_match k' k) (group_keys df kcol)).
Proof.
  unfold matches, grouped. simpl. rewrite filter_map_swap.
  f_equal. apply filter_ext. intros k'. rewrite cell_agg_row_key. reflexivity.
Qed.

Lemma matches_grouped_nil k :
  matches (grouped df kcol aggs) kcol k = [] <-> touched df kcol k = false.
Proof.
  rewrite matches_grouped. split.
  - intros H. apply map_eq_nil in H.
    destruct (touched df kcol k) eqn:Ht; [|reflexivity].
    apply group_keys_touched in Ht as [k' Hk']. rewrite H in Hk'. destruct Hk'.
  - intros Ht.
    destruct (filter (fun k' => key_match k' k) (group_keys df kcol)) as [|k1 l] eqn:E;
      [reflexivity|].
    assert (touched df kcol k = true) as Ht'.
    { apply group_keys_touched. exists k1. rewrite E. left. reflexivity. }
    congruence.
Qed.

Lemma unique_grouped : unique_keys (grouped df kcol aggs) kcol.
Proof.
  intros k. rewrite matches_grouped, length_map. apply group_keys_unique.
Qed.

Lemma wf_grouped : wf (grouped df kcol aggs).
Proof.
  unfold wf, grouped. simpl. apply Forall_map, Forall_forall. intros k _.
  unfold agg_row, labels. simpl. rewrite map_map. reflexivity.
Qed.

Lemma lookup_grouped k c :
  c <> kcol ->
  lookup (grouped df kcol aggs) kcol k c
  = if touched df kcol k
    then match find (fun a => String.eqb (fst a) c) aggs with
         | Some a => apply_agg (snd a) (map (fun r => cell r (fst a)) (matches df kcol k))
         | None => NaN
         end
    else NaN.
Proof.
  intros Hne. unfold lookup. rewrite matches_grouped.
  destruct (touched df kcol k) eqn:Ht.
  - apply group_keys_touched in Ht as [k' Hk'].
    destruct (filter (fun k' => key_match k' k) (group_keys df kcol)) as [|k1 l] eqn:E;
      [destruct Hk'|].
    simpl. rewrite cell_agg_row by exact Hne.
    assert (key_match k1 k = true) as Hm.
    { assert (In k1 (filter (fun k' => key_match k' k) (group_keys df kcol))) as H
          by (rewrite E; left; reflexivity).
      apply filter_In in H. tauto. }
    rewrite (matches_key_eq df kcol k1 k Hm). reflexivity.
  - destruct (filter (fun k' => key_match k' k) (group_keys df kcol)) as [|k1 l] eqn:E;
      [reflexivity|].
    assert (touched df kcol k = true) as Ht'.
    { apply group_keys_touched. exists k1. rewrite E. left. reflexivity. }
    congruence.
Qed.

Lemma groupby_agg_Ok :
  has_column df kcol = true ->
  forallb (fun a => has_column df (fst a)) aggs = true ->
  groupby_agg df kcol aggs = Ok (grouped df kcol aggs).
Proof.
  intros Hk Ha. unfold groupby_agg, require. rewrite Hk. simpl.
  rewrite (mapM_unit_Ok (fun a => if has_column df (fst a) then Ok tt else Err (KeyError (fst a)))).
  - reflexivity.
  - intros a Hin. rewrite forallb_forall in Ha. rewrite (Ha a Hin). reflexivity.
Qed.

End Grouping.

(** ** The loop of outer joins *)

Lemma merge_loop_spec dfs : forall final n,
  wf final ->
  has_column final "unique_id" = true ->
  unique_keys final "unique_id" ->
  Forall (fun df => wf df /\ has_column df "unique_id" = true
                    /\ unique_keys df "unique_id") dfs ->
  mergeable (columns final) "unique_id" dfs = true ->
  exists M,
    merge_loop final n dfs = Ok M
    /\ wf M
    /\ unique_keys M "unique_id"
    /\ columns M = columns final
                   ++ flat_map (fun df => without "unique_id" (columns df)) dfs
    /\ (forall k c, c <> "unique_id" ->
                    lookup M "unique_id" k c
                    = lookup_first (final :: dfs) "unique_id" k c)
    /\ (forall k, matches M "unique_id" k = []
                  <-> Forall (fun df => matches df "unique_id" k = []) (final :: dfs)).
Proof.
  induction dfs as [|df dfs IH]; intros final n Hwf Hon Hu Hall Hm.
  - exists final. simpl. rewrite app_nil_r. repeat split; try assumption.
    + intros k c _. destruct (mem c (columns final)) eqn:E; [reflexivity|].
      unfold lookup. destruct (matches final "unique_id" k) as [|r l] eqn:Er; [reflexivity|].
      apply cell_not_label.
      assert (In r (rows final)) as Hr.
      { apply (matches_In final "unique_id" k r). rewrite Er. left. reflexivity. }
      rewrite (proj1 (Forall_forall _ _) Hwf r Hr). exact E.
    + intros H. constructor; [exact H|constructor].
    + intros H. inversion H. assumption.
  - inversion Hall as [|? ? [Hwf' [Hon' Hu']] Hall']; subst.
    simpl in Hm.
    destruct (overlapping (columns final) (without "unique_id" (columns df))) eqn:Hov;
      [|discriminate].
    simpl. rewrite (merge_outer final df "unique_id" Hon Hon' _ _ Hov). simpl.
    destruct (IH (outer_join final df "unique_id") (S n))
      as [M [HM [HwfM [HuM [Hc [Hl Hnil]]]]]].
    + apply wf_outer; assumption.
    + unfold has_column, outer_join. simpl. rewrite mem_app.
      unfold has_column in Hon. rewrite Hon. reflexivity.
    + apply unique_outer; assumption.
    + exact Hall'.
    + exact Hm.
    + exists M. split; [exact HM|]. split; [exact HwfM|]. split; [exact HuM|].
      split; [|split].
      * rewrite Hc. unfold outer_join. simpl. rewrite app_assoc. reflexivity.
      * intros k c Hne. rewrite (Hl k c Hne). simpl.
        rewrite (lookup_outer final df "unique_id" Hwf Hon Hu Hu' k c Hne).
        rewrite mem_app, mem_without.
        assert (String.eqb c "unique_id" = false) as -> by (apply String.eqb_neq; exact Hne).
        rewrite andb_true_r.
        destruct (mem c (columns final)), (mem c (columns df)); reflexivity.
      * intros k. rewrite (Hnil k). split.
        -- intros H. inversion H as [|? ? H1 H2]; subst.
           apply (matches_outer_nil final df "unique_id" Hwf Hon Hu Hu') in H1 as [Ha Hb].
           constructor; [exact Ha|]. constructor; [exact Hb|exact H2].
        -- intros H. inversion H as [|? ? H1 H2]; subst.
           inversion H2 as [|? ? H3 H4]; subst.
           constructor; [|exact H4].
           apply (matches_outer_nil final df "unique_id" Hwf Hon Hu Hu'). split; assumption.
Qed.

(** ** The stages of the scripts *)

Lemma cell_set_cell r c v c' :
  cell (set_cell r c v) c' = if String.eqb c' c then v else cell r c'.
Proof.
  destruct (String.eqb c' c) eqn:E.
  - apply String.eqb_eq in E. subst. apply cell_set_cell_same.
  - apply String.eqb_neq in E. apply cell_set_cell_other. exact E.
Qed.

Lemma matches_map (f : Row -> Row) cols df on k :
  (forall r, cell (f r) on = cell r on) ->
  matches (mkDF cols (map f (rows df))) on k = map f (matches df on k).
Proof.
  intros H. unfold matches. simpl. rewrite filter_map_swap.
  f_equal. apply filter_ext. intros r. rewrite H. reflexivity.
Qed.

Lemma existsb_map_swap {X Y : Type} (p : Y -> bool) (g : X -> Y) l :
  existsb p (map g l) = existsb (fun x => p (g x)) l.
Proof. induction l as [|x l IH]; simpl; [reflexivity|]. rewrite IH. reflexivity. Qed.

Lemma existsb_ext_all {X : Type} (p q : X -> bool) l :
  (forall x, p x = q x) -> existsb p l = existsb q l.
Proof. intros H. induction l as [|x l IH]; simpl; [reflexivity|]. rewrite H, IH. reflexivity. Qed.

Lemma touched_map (f : Row -> Row) cols df on k :
  (forall r, cell (f r) on = cell r on) ->
  touched (mkDF cols (map f (rows df))) on k = touched df on k.
Proof.
  intros H. unfold touched. simpl. rewrite existsb_map_swap.
  apply existsb_ext_all. intros r. rewrite H. reflexivity.
Qed.

Lemma unique_keys_map (f : Row -> Row) cols df on :
  (forall r, cell (f r) on = cell r on) ->
  unique_keys df on -> unique_keys (mkDF cols (map f (rows df))) on.
Proof.
  intros H Hu k. rewrite (matches_map f cols df on k H), length_map. apply Hu.
Qed.

Lemma lookup_map (f : Row -> Row) cols df on k c :
  (forall r, cell (f r) on = cell r on) ->
  lookup (mkDF cols (map f (rows df))) on k c
  = match matches df on k with
    | r :: _ => cell (f r) c
    | [] => NaN
    end.
Proof.
  intros H. unfold lookup. rewrite (matches_map f cols df on k H).
  destruct (matches df on k); reflexivity.
Qed.

Lemma with_area_Ok atomic :
  has_column atomic "geometry" = true ->
  with_area atomic
  = Ok (mkDF (add_column (columns atomic) "area") (map area_row (rows atomic))).
Proof.
  intros H. unfold with_area, require. rewrite H. simpl.
  apply assign_pure.
Qed.

Section Dissolve.

Variables (fragments : DataFrame) (n : string) (rest : list (string * aggfun)).
Hypothesis has_geometry : has_column fragments "geometry" = true.
Hypothesis has_key : has_column fragments "unique_id" = true.
Hypothesis has_rest : forallb (fun a => has_column fragments (fst a)) rest = true.
Hypothesis n_not_key : n <> "unique_id".

Lemma key_with_area r :
  cell (set_cell r n (area_of (cell r "geometry"))) "unique_id" = cell r "unique_id".
Proof.
  rewrite cell_set_cell.
  assert (String.eqb "unique_id" n = false) as ->
      by (apply String.eqb_neq; congruence).
  reflexivity.
Qed.

Lemma dissolve_Ok :
  (require fragments "geometry" ;;;
   assign fragments n (fun r => Ok (area_of (cell r "geometry"))))
  = Ok (with_fragment_area fragments n).
Proof. unfold require. rewrite has_geometry. simpl. apply assign_pure. Qed.

Lemma groupby_dissolved :
  groupby_agg (with_fragment_area fragments n) "unique_id" ((n, Sum) :: rest)
  = Ok (dissolved fragments n rest).
Proof.
  apply groupby_agg_Ok.
  - unfold has_column, with_fragment_area. simpl. rewrite mem_add_column.
    unfold has_column in has_key. rewrite has_key. reflexivity.
  - simpl. unfold has_column at 1. unfold with_fragment_area at 1. simpl.
    rewrite mem_add_column, String.eqb_refl, orb_true_r. simpl.
    rewrite forallb_forall in has_rest. apply forallb_forall. intros a Ha.
    unfold has_column, with_fragment_area. simpl. rewrite mem_add_column.
    pose proof (has_rest a Ha) as H. unfold has_column in H. rewrite H. reflexivity.
Qed.

Lemma lookup_dissolved k :
  lookup (dissolved fragments n rest) "unique_id" k n = overlap_area fragments k.
Proof.
  unfold dissolved. rewrite lookup_grouped by exact n_not_key.
  unfold with_fragment_area.
  rewrite (touched_map _ _ fragments "unique_id" k key_with_area).
  unfold overlap_area. destruct (touched fragments "unique_id" k); [|reflexivity].
  simpl. rewrite String.eqb_refl. simpl.
  rewrite (matches_map _ _ fragments "unique_id" k key_with_area).
  rewrite map_map. f_equal. apply map_ext. intros r. apply cell_set_cell_same.
Qed.

Lemma matches_dissolved_nil k :
  matches (dissolved fragments n rest) "unique_id" k = []
  <-> touched fragments "unique_id" k = false.
Proof.
  unfold dissolved. rewrite matches_grouped_nil. unfold with_fragment_area.
  rewrite (touched_map _ _ fragments "unique_id" k key_with_area). tauto.
Qed.

Lemma dissolved_ok :
  wf (dissolved fragments n rest)
  /\ has_column (dissolved fragments n rest) "unique_id" = true
  /\ unique_keys (dissolved fragments n rest) "unique_id".
Proof.
  split; [apply wf_grouped|]. split; [reflexivity|apply unique_grouped].
Qed.

End Dissolve.

(** The flag of a layer, once the columns are known to hold numbers. *)
Lemma area_flag_cell agg area :
  numeric agg = true -> numeric area = true ->
  (threshold <- scale (1 # 10) area ;;
   b <- ge agg threshold ;; Ok (astype_int b))
  = Ok (area_flag_value agg area).
Proof.
  unfold area_flag_value.
  destruct agg, area; simpl; try discriminate; intros _ _; reflexivity.
Qed.

Lemma area_flag_Ok final n :
  has_column final "area" = true ->
  has_column final n = true ->
  (forall r, In r (rows final) ->
             numeric (cell r n) = true /\ numeric (cell r "area") = true) ->
  area_flag final n
  = Ok (mkDF (add_column (columns final) (n ++ "fg")%string)
             (map (flag_row n) (rows final))).
Proof.
  intros Ha Hn Hnum. unfold area_flag, require. rewrite Ha, Hn. simpl.
  apply assign_Ok. intros r Hr. destruct (Hnum r Hr) as [H1 H2].
  apply area_flag_cell; assumption.
Qed.

Lemma numeric_area_of v : numeric (area_of v) = true.
Proof. destruct v; reflexivity. Qed.

Lemma numeric_overlap_area fragments k : numeric (overlap_area fragments k) = true.
Proof. unfold overlap_area. destruct (touched fragments "unique_id" k); reflexivity. Qed.

Lemma wfb_wf df : wfb df = true -> wf df.
Proof.
  unfold wfb, wf. rewrite forallb_forall, Forall_forall. intros H r Hr.
  specialize (H r Hr). destruct (list_eq_dec string_dec (labels r) (columns df));
    [assumption|discriminate].
Qed.

Lemma foldM_cons {X Y : Type} (f : Y -> X -> result Y) a l b b' :
  f b a = Ok b' -> foldM f (a :: l) b = foldM f l b'.
Proof. intros H. simpl. rewrite H. reflexivity. Qed.

Lemma flags_fold names : forall final,
  has_column final "area" = true ->
  (forall n, In n names -> has_column final n = true) ->
  (forall n n', In n names -> In n' ("area" :: names) -> (n ++ "fg")%string <> n') ->
  (forall r, In r (rows final) ->
             numeric (cell r "area") = true
             /\ forall n, In n names -> numeric (cell r n) = true) ->
  foldM area_flag names final
  = Ok (mkDF (flag_columns names (columns final)) (map (flag_rows names) (rows final))).
Proof.
  induction names as [|n names IH]; intros final Ha Hn Hfresh Hnum.
  - simpl. unfold flag_rows. simpl. rewrite map_id. destruct final; reflexivity.
  - rewrite (foldM_cons area_flag n names final _ (area_flag_Ok final n Ha
               (Hn n (or_introl eq_refl))
               (fun r Hr => conj (proj2 (Hnum r Hr) n (or_introl eq_refl))
                                 (proj1 (Hnum r Hr))))).
    rewrite IH.
    + simpl. rewrite map_map. reflexivity.
    + unfold has_column. simpl. rewrite mem_add_column.
      unfold has_column in Ha. rewrite Ha. reflexivity.
    + intros n' Hn'. unfold has_column. simpl. rewrite mem_add_column.
      pose proof (Hn n' (or_intror Hn')) as H. unfold has_column in H.
      rewrite H. reflexivity.
    + intros a b Ha' Hb. apply Hfresh; [right; exact Ha'|].
      destruct Hb as [Hb|Hb]; [left; exact Hb|right; right; exact Hb].
    + simpl. intros r Hr. apply in_map_iff in Hr as [r0 [<- Hr0]].
      destruct (Hnum r0 Hr0) as [H1 H2]. unfold flag_row. split.
      * rewrite cell_set_cell_other; [exact H1|].
        intros E. apply (Hfresh n "area"); [left; reflexivity|left; reflexivity|].
        symmetry. exact E.
      * intros n' Hn'. rewrite cell_set_cell_other; [apply H2; right; exact Hn'|].
        intros E. apply (Hfresh n n'); [left; reflexivity|right; right; exact Hn'|].
        symmetry. exact E.
Qed.

(** The epoch flag, once the flag columns exist. *)
Lemma union_Ok {X : Type} (k : DataFrame -> result X) final name f1 f2 f3 :
  has_column final f1 = true ->
  has_column final f2 = true ->
  has_column final f3 = true ->
  (final1 <- assign final name (fun _ => Ok (Int 0)) ;;
   final2 <- loc_set final1
               (fun r => Ok (get_eq final1 f1 0 1 r || get_eq final1 f2 0 1 r
                             || get_eq final1 f3 0 1 r))
               name (Int 1) ;;
   k final2)
  = k (mkDF (add_column (columns final) name)
            (map (union_row name [f1; f2; f3]) (rows final))).
Proof.
  intros H1 H2 H3. rewrite assign_pure. simpl.
  unfold loc_set. simpl.
  rewrite (assign_Ok _ name _
             (fun r => if existsb (fun f => eq_int (cell r f) 1) [f1; f2; f3]
                       then Int 1 else cell r name)).
  - simpl. rewrite map_map. f_equal. f_equal.
    unfold add_column at 1. rewrite mem_add_column, String.eqb_refl, orb_true_r.
    reflexivity.
  - simpl. intros r _. unfold get_eq, has_column. simpl.
    rewrite !mem_add_column. unfold has_column in H1, H2, H3. rewrite H1, H2, H3. simpl.
    rewrite orb_false_r, orb_assoc. reflexivity.
Qed.

Lemma overlapping_none lcols rcols :
  (forall c, In c rcols -> mem c lcols = false) -> overlapping lcols rcols = [].
Proof.
  intros H. unfold overlapping. rewrite (filter_const _ false); [reflexivity|].
  intros c Hc. destruct (mem c rcols) eqn:E; [|reflexivity].
  apply mem_true_iff in E. apply H in E. apply mem_false_iff in E. contradiction.
Qed.

Lemma cell_area_row_key z : cell (area_row z) "unique_id" = cell z "unique_id".
Proof. unfold area_row. rewrite cell_set_cell. reflexivity. Qed.

Lemma cell_joined_row_left M z c :
  mem c (add_column (labels z) "area") = true ->
  cell (joined_row M z) c = cell (area_row z) c.
Proof.
  intros H. unfold joined_row. rewrite cell_app.
  unfold area_row at 1. rewrite labels_set_cell, H. reflexivity.
Qed.

Lemma cell_joined_row_right M z c :
  mem c (labels z) = false -> c <> "area" -> c <> "unique_id" ->
  cell (joined_row M z) c = lookup M "unique_id" (cell z "unique_id") c.
Proof.
  intros H Ha Hk. unfold joined_row. rewrite cell_app.
  unfold area_row at 1. rewrite labels_set_cell, mem_add_column, H.
  assert (String.eqb c "area" = false) as -> by (apply String.eqb_neq; exact Ha).
  simpl. rewrite cell_right_cells by exact Hk. rewrite cell_area_row_key. reflexivity.
Qed.

(** The left join of the zones with the merged layers. *)
Lemma merge_atomic atomic M s1 s2 :
  has_column atomic "unique_id" = true ->
  has_column M "unique_id" = true ->
  unique_keys M "unique_id" ->
  (forall c, In c (without "unique_id" (columns M)) ->
             mem c (add_column (columns atomic) "area") = false) ->
  merge (atomic_with_area atomic) M "unique_id" Left s1 s2
  = Ok (mkDF (add_column (columns atomic) "area" ++ without "unique_id" (columns M))
             (map (joined_row M) (rows atomic))).
Proof.
  intros Ha HM Hu Hov. rewrite merge_left.
  - simpl. rewrite map_map. reflexivity.
  - unfold has_column, atomic_with_area. simpl. rewrite mem_add_column.
    unfold has_column in Ha. rewrite Ha. reflexivity.
  - exact HM.
  - exact Hu.
  - apply overlapping_none. exact Hov.
Qed.

(** ** The future epoch *)

Lemma atomic_ok_inv atomic reserved :
  atomic_ok atomic reserved = true ->
  wf atomic /\ has_column atomic "unique_id" = true
  /\ has_column atomic "geometry" = true
  /\ forall c, In c reserved -> mem c (columns atomic) = false.
Proof.
  unfold atomic_ok. intros H.
  apply andb_prop in H as [H H4]. apply andb_prop in H as [H H3].
  apply andb_prop in H as [H1 H2].
  split; [apply wfb_wf; exact H1|]. split; [exact H2|]. split; [exact H3|].
  intros c Hc. rewrite forallb_forall in H4. specialize (H4 c Hc).
  unfold has_column in H4. destruct (mem c (columns atomic)); [discriminate|reflexivity].
Qed.

Lemma layer_ok_inv fragments cols :
  layer_ok fragments cols = true ->
  has_column fragments "geometry" = true
  /\ has_column fragments "unique_id" = true
  /\ forallb (has_column fragments) cols = true.
Proof.
  unfold layer_ok. intros H.
  apply andb_prop in H as [H H3]. apply andb_prop in H as [H1 H2]. auto.
Qed.

Lemma dissolve_layer_Ok overlay atomic shp rest :
  layer_ok (overlay atomic (gdf shp)) (map fst rest) = true ->
  field_name (flag_field shp) <> "unique_id" ->
  (df <- intersect overlay atomic shp ;;
   groupby_agg df "unique_id" ((field_name (flag_field shp), Sum) :: rest))
  = Ok (dissolved (overlay atomic (gdf shp)) (field_name (flag_field shp)) rest).
Proof.
  intros Hok Hne. apply layer_ok_inv in Hok as [G [K R]].
  unfold intersect. rewrite (dissolve_Ok _ _ G). simpl.
  apply groupby_dissolved; try assumption.
  rewrite forallb_forall in R. apply forallb_forall. intros a Ha.
  apply R. apply in_map. exact Ha.
Qed.

Lemma reserved_not_area atomic reserved c :
  (forall c, In c reserved -> mem c (columns atomic) = false) ->
  mem "area" reserved = false ->
  In c reserved -> mem c (add_column (columns atomic) "area") = false.
Proof.
  intros Hres Ha Hc. rewrite mem_add_column, (Hres c Hc). simpl.
  apply String.eqb_neq. intros ->. apply mem_false_iff in Ha. contradiction.
Qed.

Lemma mem_flag_columns names cols c :
  mem c cols = true -> mem c (flag_columns names cols) = true.
Proof.
  revert cols. induction names as [|n names IH]; intros cols H; [exact H|].
  simpl. apply IH. rewrite mem_add_column, H. reflexivity.
Qed.

Lemma mem_flag_columns_flag names cols n :
  In n names -> mem (n ++ "fg")%string (flag_columns names cols) = true.
Proof.
  revert cols. induction names as [|n' names IH]; intros cols H; [destruct H|].
  simpl. destruct H as [->|H].
  - apply mem_flag_columns. rewrite mem_add_column, String.eqb_refl, orb_true_r.
    reflexivity.
  - apply IH. exact H.
Qed.

Lemma run_future_spec overlay output_directory atomic mod_2050 ext_2080 f500yr :
  future_inputs_ok overlay atomic mod_2050 ext_2080 f500yr = true ->
  exists M,
    unique_keys M "unique_id"
    /\ (forall k c, c <> "unique_id" ->
          lookup M "unique_id" k c
          = lookup_first (future_tables overlay atomic mod_2050 ext_2080 f500yr)
                         "unique_id" k c)
    /\ run_future overlay output_directory atomic mod_2050 ext_2080 f500yr
       = Ok (mkOutput
               (future_printed output_directory)
               (combine ["mod_2050_dissolved.csv"; "ext_2080_dissolved.csv";
                         "500yr_dissolved.csv"]
                        (future_tables overlay atomic mod_2050 ext_2080 f500yr))
               ("future_union.csv",
                mkDF (future_columns atomic) (map (future_row M) (rows atomic)))).
Proof.
  intros Hok. unfold future_inputs_ok in Hok.
  apply andb_prop in Hok as [Hok H3]. apply andb_prop in Hok as [Hok H2].
  apply andb_prop in Hok as [Ha H1].
  apply atomic_ok_inv in Ha as [Hwf [Hkey [Hgeo Hres]]].
  apply layer_ok_inv in H1 as [G1 [K1 R1]].
  apply layer_ok_inv in H2 as [G2 [K2 R2]].
  apply layer_ok_inv in H3 as [G3 [K3 R3]].
  unfold run_future. rewrite (with_area_Ok atomic Hgeo).
  fold (atomic_with_area atomic). 
  cbn [bind].
  assert (mapMi (dissolve_future overlay (atomic_with_area atomic)) 0
                (shapefiles_future mod_2050 ext_2080 f500yr)
          = Ok (future_tables overlay atomic mod_2050 ext_2080 f500yr)) as ->.
  { unfold shapefiles_future, future_tables. cbn [mapMi].
    unfold dissolve_future. cbn [flood_type flag_field Nat.leb].
    rewrite (dissolve_layer_Ok overlay _ (mkShp mod_2050 "mod_2050" (Some "mo_20_fldC"))
               [("mod_2050", First); ("mo_20_fldC", First)]);
      [|unfold layer_ok; cbn [gdf]; rewrite G1, K1; exact R1|discriminate].
    rewrite (dissolve_layer_Ok overlay _ (mkShp ext_2080 "ext_2080" (Some "ex_20_fldC"))
               [("ext_2080", First); ("ex_20_fldC", First)]);
      [|unfold layer_ok; cbn [gdf]; rewrite G2, K2; exact R2|discriminate].
    rewrite (dissolve_layer_Ok overlay _ (mkShp f500yr "500yr" None)
               [("500yr", First)]);
      [|unfold layer_ok; cbn [gdf]; rewrite G3, K3; exact R3|discriminate].
    reflexivity. }
  cbn [bind].
  destruct (merge_loop_spec
              [dissolved (overlay (atomic_with_area atomic) ext_2080) "ext_20A"
                         [("ext_2080", First); ("ex_20_fldC", First)];
               dissolved (overlay (atomic_with_area atomic) f500yr) "500A"
                         [("500yr", First)]]
              (dissolved (overlay (atomic_with_area atomic) mod_2050) "mod_20A"
                         [("mod_2050", First); ("mo_20_fldC", First)]) 0%nat)
    as [M [HM [HwfM [HuM [HcM [HlM HnilM]]]]]].
  { apply wf_grouped. }
  { reflexivity. }
  { apply unique_grouped. }
  { constructor; [apply dissolved_ok|]. constructor; [apply dissolved_ok|]. constructor. }
  { reflexivity. }
  assert (merge_all (future_tables overlay atomic mod_2050 ext_2080 f500yr) = Ok M)
    as HM' by exact HM.
  exists M. split; [exact HuM|]. split; [exact HlM|].
  rewrite HM'. cbn [bind].
  assert (without "unique_id" (columns M) = future_reserved) as HcM'.
  { rewrite HcM. reflexivity. }
  rewrite (merge_atomic atomic M "_x" "_y" Hkey).
  2:{ unfold has_column. rewrite HcM. reflexivity. }
  2:{ exact HuM. }
  2:{ rewrite HcM'. intros c Hc. apply (reserved_not_area atomic future_reserved c Hres);
      [reflexivity|exact Hc]. }
  rewrite HcM'. cbn [bind].
  change (map (fun shp : shapefile => field_name (flag_field shp))
              (shapefiles_future mod_2050 ext_2080 f500yr))
    with ["mod_20A"; "ext_20A"; "500A"].
  rewrite flags_fold.
  2:{ unfold has_column. cbn [columns]. rewrite mem_app, mem_add_column.
      rewrite orb_true_r. reflexivity. }
  2:{ intros n Hn. unfold has_column. cbn [columns]. rewrite mem_app.
      assert (mem n future_reserved = true) as ->; [|apply orb_true_r].
      destruct Hn as [<-|[<-|[<-|[]]]]; reflexivity. }
  2:{ intros n n' Hn Hn'.
      destruct Hn as [<-|[<-|[<-|[]]]];
        destruct Hn' as [<-|[<-|[<-|[<-|[]]]]]; discriminate. }
  2:{ cbn [rows]. intros r Hr. apply in_map_iff in Hr as [z [<- Hz]].
      pose proof (proj1 (Forall_forall _ _) Hwf z Hz) as Hlab. split.
      - rewrite cell_joined_row_left
          by (rewrite mem_add_column, orb_true_r; reflexivity).
        unfold area_row. rewrite cell_set_cell_same. apply numeric_area_of.
      - intros n Hn.
        rewrite cell_joined_row_right.
        + rewrite HlM; [|destruct Hn as [<-|[<-|[<-|[]]]]; discriminate].
          unfold future_tables.
          destruct Hn as [<-|[<-|[<-|[]]]]; cbn [lookup_first];
            match goal with
            | |- context [mem ?c (columns ?T)] =>
                let b := eval vm_compute in (mem c (columns T)) in
                change (mem c (columns T)) with b
            end; cbv iota.
          all: rewrite lookup_dissolved by discriminate; apply numeric_overlap_area.
        + rewrite Hlab. apply Hres.
          destruct Hn as [<-|[<-|[<-|[]]]]; simpl; tauto.
        + destruct Hn as [<-|[<-|[<-|[]]]]; discriminate.
        + destruct Hn as [<-|[<-|[<-|[]]]]; discriminate. }
  cbn [bind].
  rewrite union_Ok;
    [|apply (mem_flag_columns_flag ["mod_20A"; "ext_20A"; "500A"] _ "mod_20A");
      simpl; tauto
     |apply (mem_flag_columns_flag ["mod_20A"; "ext_20A"; "500A"] _ "ext_20A");
      simpl; tauto
     |apply (mem_flag_columns_flag ["mod_20A"; "ext_20A"; "500A"] _ "500A");
      simpl; tauto].
  cbn [columns rows].
  replace (map (union_row "BZ_future" ["mod_20Afg"; "ext_20Afg"; "500Afg"])
               (map (flag_rows ["mod_20A"; "ext_20A"; "500A"])
                    (map (joined_row M) (rows atomic))))
    with (map (future_row M) (rows atomic))
    by (rewrite !map_map; reflexivity).
  reflexivity.
Qed.

Ltac cells :=
  repeat (rewrite cell_set_cell; cbn [String.eqb Ascii.eqb Bool.eqb String.append]).

Lemma future_row_cells M z :
  mem "unique_id" (labels z) = true ->
  (forall c, In c future_reserved -> mem c (labels z) = false) ->
  let r := future_row M z in
  let k := cell z "unique_id" in
  cell r "unique_id" = k
  /\ cell r "area" = area_of (cell z "geometry")
  /\ cell r "mod_20A" = lookup M "unique_id" k "mod_20A"
  /\ cell r "ext_20A" = lookup M "unique_id" k "ext_20A"
  /\ cell r "500A" = lookup M "unique_id" k "500A"
  /\ cell r "mod_20Afg" = area_flag_value (cell r "mod_20A") (cell r "area")
  /\ cell r "ext_20Afg" = area_flag_value (cell r "ext_20A") (cell r "area")
  /\ cell r "500Afg" = area_flag_value (cell r "500A") (cell r "area")
  /\ cell r "BZ_future"
     = if eq_int (cell r "mod_20Afg") 1 || eq_int (cell r "ext_20Afg") 1
          || eq_int (cell r "500Afg") 1
       then Int 1 else Int 0.
Proof.
  intros Hk Hres r k. subst r k.
  unfold future_row, union_row, flag_rows, flag_row. cbn [fold_left existsb].
  cells.
  rewrite (cell_joined_row_left M z "unique_id")
    by (rewrite mem_add_column, Hk; reflexivity).
  rewrite (cell_joined_row_left M z "area")
    by (rewrite mem_add_column, orb_true_r; reflexivity).
  rewrite !(cell_joined_row_right M z) by (try discriminate; apply Hres; simpl; tauto).
  unfold area_row. cells.
  rewrite orb_false_r, orb_assoc.
  repeat split; reflexivity.
Qed.

(** ** The present epoch *)

Lemma ge_3 v : numeric v = true -> ge v (Int 3) = Ok (at_least_3 v).
Proof. destruct v; simpl; try discriminate; reflexivity. Qed.

Lemma point_flag_Ok final :
  has_column final "Point_Coun" = true ->
  (forall r, In r (rows final) -> numeric (cell r "Point_Coun") = true) ->
  point_flag final
  = Ok (mkDF (add_column (columns final) "depcaAfg") (map point_row (rows final))).
Proof.
  intros Hp Hnum. unfold point_flag. rewrite assign_pure. cbn [bind].
  unfold has_column. cbn [columns]. rewrite mem_add_column.
  unfold has_column in Hp. rewrite Hp. cbn [orb].
  unfold loc_set.
  rewrite (assign_Ok _ "depcaAfg" _
             (fun r => if at_least_3 (cell r "Point_Coun") then Int 1
                       else cell r "depcaAfg")).
  - cbn [columns rows]. rewrite map_map. f_equal. f_equal.
    unfold add_column at 1. rewrite mem_add_column, String.eqb_refl, orb_true_r.
    reflexivity.
  - cbn [rows]. intros r Hr. apply in_map_iff in Hr as [r0 [<- Hr0]].
    rewrite ge_3; [reflexivity|].
    rewrite cell_set_cell. cbn. apply Hnum. exact Hr0.
Qed.

Lemma numeric_agg_first vs :
  forallb numeric vs = true -> numeric (agg_first vs) = true.
Proof.
  unfold agg_first. intros H.
  destruct (filter (fun v => negb (isna v)) vs) as [|v l] eqn:E; [reflexivity|].
  assert (In v (filter (fun v => negb (isna v)) vs)) as Hin by (rewrite E; left; reflexivity).
  apply filter_In in Hin as [Hin _]. rewrite forallb_forall in H. apply H. exact Hin.
Qed.

Section Points.

Variable present_311 : DataFrame.
Hypothesis has_all :
  forallb (has_column present_311) ["unique_id"; "depcall"; "Point_Coun"] = true.

Lemma keep_key r :
  cell (keep_row ["unique_id"; "depcall"; "Point_Coun"] r) "unique_id"
  = cell r "unique_id".
Proof. reflexivity. Qed.

Lemma dissolve_311_Ok : dissolve_311 present_311 = Ok (points_table present_311).
Proof.
  unfold dissolve_311.
  assert (filter (has_column present_311) ["unique_id"; "depcall"; "Point_Coun"]
          = ["unique_id"; "depcall"; "Point_Coun"]) as ->.
  { apply forallb_filter_id. exact has_all. }
  apply groupby_agg_Ok; reflexivity.
Qed.

Lemma lookup_points_table k :
  lookup (points_table present_311) "unique_id" k "Point_Coun"
  = point_count present_311 k.
Proof.
  unfold points_table. rewrite lookup_grouped by discriminate.
  unfold select.
  rewrite (touched_map (keep_row ["unique_id"; "depcall"; "Point_Coun"]) _ present_311 "unique_id" k keep_key).
  unfold point_count. destruct (touched present_311 "unique_id" k); [|reflexivity].
  cbn [find fst snd String.eqb Ascii.eqb Bool.eqb apply_agg].
  rewrite (matches_map (keep_row ["unique_id"; "depcall"; "Point_Coun"]) _ present_311 "unique_id" k keep_key).
  rewrite map_map. reflexivity.
Qed.

Lemma numeric_point_count k :
  forallb (fun r => numeric (cell r "Point_Coun")) (rows present_311) = true ->
  numeric (point_count present_311 k) = true.
Proof.
  intros H. unfold point_count.
  destruct (touched present_311 "unique_id" k); [|reflexivity].
  apply numeric_agg_first. apply forallb_forall. intros v Hv.
  apply in_map_iff in Hv as [r [<- Hr]]. apply matches_In in Hr as [Hr _].
  rewrite forallb_forall in H. apply H. exact Hr.
Qed.

End Points.

Lemma run_present_spec overlay output_directory atomic present_311 mod_cur f100yr :
  present_inputs_ok overlay atomic present_311 mod_cur f100yr = true ->
  exists M,
    unique_keys M "unique_id"
    /\ (forall k c, c <> "unique_id" ->
          lookup M "unique_id" k c
          = lookup_first (present_tables overlay atomic present_311 mod_cur f100yr)
                         "unique_id" k c)
    /\ run_present overlay output_directory atomic present_311 mod_cur f100yr
       = Ok (mkOutput
               (present_printed output_directory)
               (combine ["mod_cur_dissolved.csv"; "100yr_dissolved.csv"]
                        (firstn 2 (present_tables overlay atomic present_311
                                                  mod_cur f100yr)))
               ("present_union.csv",
                mkDF (present_columns atomic) (map (present_row M) (rows atomic)))).
Proof.
  intros Hok. unfold present_inputs_ok in Hok.
  apply andb_prop in Hok as [Hok H3]. apply andb_prop in Hok as [Hok H2].
  apply andb_prop in Hok as [Ha H1].
  apply atomic_ok_inv in Ha as [Hwf [Hkey [Hgeo Hres]]].
  apply layer_ok_inv in H1 as [G1 [K1 R1]].
  apply layer_ok_inv in H2 as [G2 [K2 R2]].
  unfold points_ok in H3. apply andb_prop in H3 as [P1 P2].
  unfold run_present. rewrite (with_area_Ok atomic Hgeo).
  fold (atomic_with_area atomic). cbn [bind].
  unfold shapefiles_present. cbn [tl mapMi].
  unfold dissolve_present. cbn [flag_field Nat.eqb].
  rewrite (dissolve_layer_Ok overlay _ (mkShp mod_cur "mod_cur" None)
             [("mod_cur", First); ("mo_cu_fldC", First)]);
    [|unfold layer_ok; cbn [gdf]; rewrite G1, K1; exact R1|discriminate].
  cbn [bind].
  rewrite (dissolve_layer_Ok overlay _ (mkShp f100yr "100yr" None)
             [("100yr", First)]);
    [|unfold layer_ok; cbn [gdf]; rewrite G2, K2; exact R2|discriminate].
  cbn [bind]. rewrite (dissolve_311_Ok present_311 P1). cbn [bind app].
  destruct (merge_loop_spec
              [dissolved (overlay (atomic_with_area atomic) f100yr) "100A"
                         [("100yr", First)];
               points_table present_311]
              (dissolved (overlay (atomic_with_area atomic) mod_cur) "mod_cA"
                         [("mod_cur", First); ("mo_cu_fldC", First)]) 0%nat)
    as [M [HM [HwfM [HuM [HcM [HlM HnilM]]]]]].
  { apply wf_grouped. }
  { reflexivity. }
  { apply unique_grouped. }
  { constructor; [apply dissolved_ok|]. constructor; [|constructor].
    split; [apply wf_grouped|]. split; [reflexivity|apply unique_grouped]. }
  { reflexivity. }
  exists M. split; [exact HuM|]. split; [exact HlM|].
  unfold merge_all. cbn [gdf flag_field].
  change (field_name "mod_cur") with "mod_cA".
  change (field_name "100yr") with "100A".
  rewrite HM. cbn [bind].
  assert (without "unique_id" (columns M) = present_reserved) as HcM'.
  { rewrite HcM. reflexivity. }
  rewrite (merge_atomic atomic M "_x" "_y" Hkey).
  2:{ unfold has_column. rewrite HcM. reflexivity. }
  2:{ exact HuM. }
  2:{ rewrite HcM'. intros c Hc.
      apply (reserved_not_area atomic present_reserved c Hres); [reflexivity|exact Hc]. }
  rewrite HcM'. cbn [bind].
  assert (forall z n, In z (rows atomic) -> In n present_reserved ->
                      cell (joined_row M z) n
                      = lookup_first (present_tables overlay atomic present_311
                                                     mod_cur f100yr)
                                     "unique_id" (cell z "unique_id") n) as Hcell.
  { intros z n Hz Hn.
    pose proof (proj1 (Forall_forall _ _) Hwf z Hz) as Hlab.
    rewrite cell_joined_row_right.
    - apply HlM. destruct Hn as [<-|[<-|[<-|[<-|[<-|[<-|[<-|[]]]]]]]]; discriminate.
    - rewrite Hlab. apply Hres. exact Hn.
    - destruct Hn as [<-|[<-|[<-|[<-|[<-|[<-|[<-|[]]]]]]]]; discriminate.
    - destruct Hn as [<-|[<-|[<-|[<-|[<-|[<-|[<-|[]]]]]]]]; discriminate. }
  rewrite point_flag_Ok.
  2:{ unfold has_column. cbn [columns]. rewrite mem_app.
      apply orb_true_iff. right. reflexivity. }
  2:{ cbn [rows]. intros r Hr. apply in_map_iff in Hr as [z [<- Hz]].
      rewrite (Hcell z "Point_Coun" Hz) by (simpl; tauto).
      unfold present_tables. cbn [lookup_first].
      change (mem "Point_Coun" (columns (dissolved (overlay (atomic_with_area atomic) mod_cur)
                 "mod_cA" [("mod_cur", First); ("mo_cu_fldC", First)]))) with false.
      change (mem "Point_Coun" (columns (dissolved (overlay (atomic_with_area atomic) f100yr)
                 "100A" [("100yr", First)]))) with false.
      change (mem "Point_Coun" (columns (points_table present_311))) with true.
      cbv iota. rewrite lookup_points_table. apply numeric_point_count. exact P2. }
  cbn [bind].
  change (map (fun shp : shapefile => field_name (flag_field shp))
              [mkShp mod_cur "mod_cur" None; mkShp f100yr "100yr" None])
    with ["mod_cA"; "100A"].
  rewrite flags_fold.
  2:{ unfold has_column. cbn [columns]. rewrite mem_add_column, mem_app, mem_add_column.
      rewrite orb_true_r. reflexivity. }
  2:{ intros n Hn. unfold has_column. cbn [columns]. rewrite mem_add_column, mem_app.
      assert (mem n present_reserved = true) as ->; [|rewrite orb_true_r; reflexivity].
      destruct Hn as [<-|[<-|[]]]; reflexivity. }
  2:{ intros n n' Hn Hn'.
      destruct Hn as [<-|[<-|[]]];
        destruct Hn' as [<-|[<-|[<-|[]]]]; discriminate. }
  2:{ cbn [rows]. intros r Hr. apply in_map_iff in Hr as [r0 [<- Hr0]].
      apply in_map_iff in Hr0 as [z [<- Hz]].
      pose proof (proj1 (Forall_forall _ _) Hwf z Hz) as Hlab.
      unfold point_row. split.
      - cells.
        rewrite cell_joined_row_left
          by (rewrite mem_add_column, orb_true_r; reflexivity).
        unfold area_row. rewrite cell_set_cell_same. apply numeric_area_of.
      - intros n Hn.
        assert (In n present_reserved) as Hn'
            by (destruct Hn as [<-|[<-|[]]]; simpl; tauto).
        destruct Hn as [<-|[<-|[]]]; cells; rewrite (Hcell z _ Hz Hn');
          unfold present_tables; cbn [lookup_first].
        + change (mem "mod_cA" (columns (dissolved (overlay (atomic_with_area atomic) mod_cur)
                 "mod_cA" [("mod_cur", First); ("mo_cu_fldC", First)]))) with true.
          cbv iota. rewrite lookup_dissolved by discriminate. apply numeric_overlap_area.
        + change (mem "100A" (columns (dissolved (overlay (atomic_with_area atomic) mod_cur)
                 "mod_cA" [("mod_cur", First); ("mo_cu_fldC", First)]))) with false.
          change (mem "100A" (columns (dissolved (overlay (atomic_with_area atomic) f100yr)
                 "100A" [("100yr", First)]))) with true.
          cbv iota. rewrite lookup_dissolved by discriminate. apply numeric_overlap_area. }
  cbn [bind].
  rewrite union_Ok.
  2:{ unfold has_column. cbn [columns]. apply mem_flag_columns.
      rewrite mem_add_column, String.eqb_refl, orb_true_r. reflexivity. }
  2:{ apply (mem_flag_columns_flag ["mod_cA"; "100A"] _ "mod_cA"). simpl. tauto. }
  2:{ apply (mem_flag_columns_flag ["mod_cA"; "100A"] _ "100A"). simpl. tauto. }
  cbn [columns rows].
  replace (map (union_row "BZ_present" ["depcaAfg"; "mod_cAfg"; "100Afg"])
               (map (flag_rows ["mod_cA"; "100A"])
                    (map point_row (map (joined_row M) (rows atomic)))))
    with (map (present_row M) (rows atomic))
    by (rewrite !map_map; reflexivity).
  reflexivity.
Qed.

Lemma present_row_cells M z :
  mem "unique_id" (labels z) = true ->
  (forall c, In c present_reserved -> mem c (labels z) = false) ->
  let r := present_row M z in
  let k := cell z "unique_id" in
  cell r "unique_id" = k
  /\ cell r "area" = area_of (cell z "geometry")
  /\ cell r "Point_Coun" = lookup M "unique_id" k "Point_Coun"
  /\ cell r "mod_cA" = lookup M "unique_id" k "mod_cA"
  /\ cell r "100A" = lookup M "unique_id" k "100A"
  /\ cell r "depcaAfg" = (if at_least_3 (cell r "Point_Coun") then Int 1 else Int 0)
  /\ cell r "mod_cAfg" = area_flag_value (cell r "mod_cA") (cell r "area")
  /\ cell r "100Afg" = area_flag_value (cell r "100A") (cell r "area")
  /\ cell r "BZ_present"
     = if eq_int (cell r "depcaAfg") 1 || eq_int (cell r "mod_cAfg") 1
          || eq_int (cell r "100Afg") 1
       then Int 1 else Int 0.
Proof.
  intros Hk Hres r k. subst r k.
  unfold present_row, union_row, flag_rows, flag_row, point_row. cbn [fold_left existsb].
  cells.
  rewrite (cell_joined_row_left M z "unique_id")
    by (rewrite mem_add_column, Hk; reflexivity).
  rewrite (cell_joined_row_left M z "area")
    by (rewrite mem_add_column, orb_true_r; reflexivity).
  rewrite !(cell_joined_row_right M z) by (try discriminate; apply Hres; simpl; tauto).
  unfold area_row. cells.
  rewrite orb_false_r, orb_assoc.
  repeat split; reflexivity.
Qed.

(** ** The past epoch *)

Lemma mapM_dissolve_past overlay atomic ps :
  forallb (fun p => layer_ok (overlay atomic (fst p)) [snd p]) ps = true ->
  Forall (fun p => field_name (snd p) <> "unique_id") ps ->
  mapM (dissolve_past overlay atomic) (map (fun p => mkShp (fst p) (snd p) None) ps)
  = Ok (map (fun p => dissolved (overlay atomic (fst p)) (field_name (snd p))
                                [(snd p, First)]) ps).
Proof.
  induction ps as [|p ps IH]; intros Hok Hne; [reflexivity|].
  simpl in Hok. apply andb_prop in Hok as [Hp Hok].
  inversion Hne as [|? ? Hn Hne']; subst.
  cbn [map mapM].
  assert (dissolve_past overlay atomic (mkShp (fst p) (snd p) None)
          = Ok (dissolved (overlay atomic (fst p)) (field_name (snd p)) [(snd p, First)]))
    as -> by exact (dissolve_layer_Ok overlay atomic (mkShp (fst p) (snd p) None)
                      [(snd p, First)] Hp Hn).
  cbn [bind]. rewrite (IH Hok Hne'). reflexivity.
Qed.

Lemma columns_dissolved fragments n rest :
  columns (dissolved fragments n rest) = "unique_id" :: n :: map fst rest.
Proof. reflexivity. Qed.

Lemma lookup_first_row M k r l c :
  matches M "unique_id" k = r :: l -> cell r c = lookup M "unique_id" k c.
Proof. intros H. unfold lookup. rewrite H. reflexivity. Qed.

Lemma run_past_spec overlay output_directory atomic layers :
  past_inputs_ok overlay atomic layers = true ->
  exists M,
    unique_keys M "unique_id"
    /\ (forall k c, c <> "unique_id" ->
          lookup M "unique_id" k c
          = lookup_first (past_tables overlay atomic layers) "unique_id" k c)
    /\ (forall k, matches M "unique_id" k = []
                  <-> Forall (fun df => matches df "unique_id" k = [])
                             (past_tables overlay atomic layers))
    /\ run_past overlay output_directory atomic layers
       = Ok (mkOutput
               (past_printed output_directory)
               (combine (map (fun flag => flag ++ "_dissolved.csv")%string past_flags)
                        (past_tables overlay atomic layers))
               ("past_union.csv",
                mkDF (past_columns atomic) (map (past_row M) (rows atomic)))).
Proof.
  intros Hok. unfold past_inputs_ok in Hok.
  apply andb_prop in Hok as [Hok HL]. apply andb_prop in Hok as [Hlen Ha].
  apply atomic_ok_inv in Ha as [Hwf [Hkey [Hgeo Hres]]].
  apply Nat.eqb_eq in Hlen.
  unfold run_past. rewrite (with_area_Ok atomic Hgeo).
  fold (atomic_with_area atomic). cbn [bind].
  unfold shapefiles_past.
  rewrite (mapM_dissolve_past overlay _ (combine layers past_flags) HL).
  2:{ apply Forall_forall. intros [l flag] Hp. apply in_combine_r in Hp.
      unfold past_flags in Hp. cbn [snd].
      repeat (destruct Hp as [<-|Hp]; [discriminate|]). destruct Hp. }
  fold (past_tables overlay atomic layers). cbn [bind].
  destruct layers as [|l0 [|l1 [|l2 [|l3 [|l4 [|l5 [|l6 [|l7 [|l8 [|l9 [|l10 ls]]]]]]]]]]];
    try discriminate Hlen.
  clear Hlen.
  set (T := past_tables overlay atomic [l0; l1; l2; l3; l4; l5; l6; l7; l8; l9]).
  assert (exists T0 Ts, T = T0 :: Ts
            /\ wf T0 /\ has_column T0 "unique_id" = true /\ unique_keys T0 "unique_id"
            /\ Forall (fun df => wf df /\ has_column df "unique_id" = true
                                 /\ unique_keys df "unique_id") Ts
            /\ mergeable (columns T0) "unique_id" Ts = true
            /\ columns T0 ++ flat_map (fun df => without "unique_id" (columns df)) Ts
               = "unique_id" :: removelast past_reserved) as [T0 [Ts [HT H]]].
  { eexists. eexists. split; [reflexivity|].
    split; [apply wf_grouped|]. split; [reflexivity|]. split; [apply unique_grouped|].
    split; [|split; reflexivity].
    repeat (constructor; [apply dissolved_ok|]). constructor. }
  destruct H as [W0 [K0 [U0 [HTs [Hmg HcT]]]]].
  destruct (merge_loop_spec Ts T0 0%nat W0 K0 U0 HTs Hmg)
    as [M [HM [HwfM [HuM [HcM [HlM HnilM]]]]]].
  rewrite HcT in HcM.
  exists M. split; [exact HuM|]. split; [rewrite HT; exact HlM|].
  split; [rewrite HT; exact HnilM|].
  rewrite HT. unfold merge_all. rewrite HM. cbn [bind].
  change (map (fun shp : shapefile => field_name (flag_field shp))
              (map (fun p : DataFrame * string => mkShp (fst p) (snd p) None)
                   (combine [l0; l1; l2; l3; l4; l5; l6; l7; l8; l9] past_flags)))
    with past_names.
  rewrite (mapM_unit_Ok (require M) past_names).
  2:{ intros n Hn. unfold require, has_column. rewrite HcM.
      unfold past_names, past_flags in Hn. cbn [map] in Hn.
      repeat (destruct Hn as [<-|Hn]; [reflexivity|]). destruct Hn. }
  cbn [bind]. rewrite assign_pure. fold (with_past_sum M). cbn [bind].
  assert (forall r, cell (set_cell r "past_sum" (row_sum past_names r)) "unique_id"
                    = cell r "unique_id") as Hkeep.
  { intros r. rewrite cell_set_cell. reflexivity. }
  assert (without "unique_id" (columns (with_past_sum M)) = past_reserved) as HcM'.
  { unfold with_past_sum. cbn [columns]. rewrite HcM. reflexivity. }
  rewrite (merge_atomic atomic (with_past_sum M) "_x" "_y" Hkey).
  2:{ unfold has_column, with_past_sum. cbn [columns]. rewrite HcM. reflexivity. }
  2:{ apply unique_keys_map; [exact Hkeep|exact HuM]. }
  2:{ rewrite HcM'. intros c Hc.
      apply (reserved_not_area atomic past_reserved c Hres); [reflexivity|exact Hc]. }
  rewrite HcM'. cbn [bind]. unfold require, has_column. cbn [columns].
  rewrite !mem_app, !mem_add_column.
  replace (mem "past_sum" past_reserved) with true by reflexivity.
  rewrite !orb_true_r. cbn [bind].
  rewrite (assign_Ok _ "BZ_past" _
             (fun r => area_flag_value (cell r "past_sum") (cell r "area"))).
  2:{ cbn [rows]. intros r Hr. apply in_map_iff in Hr as [z [<- Hz]].
      pose proof (proj1 (Forall_forall _ _) Hwf z Hz) as Hlab.
      apply area_flag_cell.
      - rewrite cell_joined_row_right;
          [|rewrite Hlab; apply Hres; apply in_or_app; right; left; reflexivity
           |discriminate|discriminate].
        unfold with_past_sum. rewrite (lookup_map _ _ M "unique_id" _ _ Hkeep).
        destruct (matches M "unique_id" (cell z "unique_id")); [reflexivity|].
        rewrite cell_set_cell_same. reflexivity.
      - rewrite cell_joined_row_left
          by (rewrite mem_add_column, orb_true_r; reflexivity).
        unfold area_row. rewrite cell_set_cell_same. apply numeric_area_of. }
  cbn [columns rows]. rewrite map_map. reflexivity.
Qed.

Ltac eval_field_names :=
  repeat match goal with
         | |- context [field_name ?s] =>
             let v := eval vm_compute in (field_name s) in
             change (field_name s) with v
         end.

Ltac pick_table :=
  cbn [lookup_first]; rewrite ?columns_dissolved;
  cbn [mem existsb String.eqb Ascii.eqb Bool.eqb map fst orb];
  rewrite ?lookup_dissolved by discriminate.

Lemma past_sum_cell overlay atomic layers M k :
  List.length layers = 10%nat ->
  (forall k c, c <> "unique_id" ->
      lookup M "unique_id" k c
      = lookup_first (past_tables overlay atomic layers) "unique_id" k c) ->
  (forall k, matches M "unique_id" k = []
             <-> Forall (fun df => matches df "unique_id" k = [])
                        (past_tables overlay atomic layers)) ->
  lookup (with_past_sum M) "unique_id" k "past_sum"
  = past_sum_value (past_fragments overlay atomic layers) k.
Proof.
  intros Hlen HlM HnilM.
  destruct layers as [|l0 [|l1 [|l2 [|l3 [|l4 [|l5 [|l6 [|l7 [|l8 [|l9 [|l10 ls]]]]]]]]]]];
    try discriminate Hlen.
  clear Hlen.
  assert (forall r, cell (set_cell r "past_sum" (row_sum past_names r)) "unique_id"
                    = cell r "unique_id") as Hkeep.
  { intros r. rewrite cell_set_cell. reflexivity. }
  unfold with_past_sum. rewrite (lookup_map _ _ M "unique_id" _ _ Hkeep).
  unfold past_sum_value.
  assert (existsb (fun I => touched I "unique_id" k)
                  (past_fragments overlay atomic [l0; l1; l2; l3; l4; l5; l6; l7; l8; l9])
          = false
          <-> matches M "unique_id" k = []) as Hex.
  { rewrite HnilM. unfold past_tables, past_fragments, past_flags.
    cbn [combine map fst snd existsb]. eval_field_names.
    rewrite !orb_false_iff. rewrite !Forall_cons_iff.
    rewrite !matches_dissolved_nil by discriminate.
    split; intros H; repeat split; try tauto. constructor. }
  destruct (matches M "unique_id" k) as [|r0 rs] eqn:Em.
  - rewrite (proj2 Hex eq_refl). reflexivity.
  - assert (existsb (fun I => touched I "unique_id" k)
                    (past_fragments overlay atomic
                                    [l0; l1; l2; l3; l4; l5; l6; l7; l8; l9]) = true) as ->.
    { apply not_false_is_true. intros E. apply Hex in E. discriminate. }
    rewrite cell_set_cell_same. unfold row_sum. f_equal.
    unfold past_names, past_flags, past_fragments. cbn [map].
    rewrite !(lookup_first_row M k r0 rs _ Em).
    rewrite !HlM by discriminate.
    unfold past_tables, past_flags. cbn [combine map fst snd]. eval_field_names.
    pick_table. reflexivity.
Qed.

Lemma past_row_cells M z :
  mem "unique_id" (labels z) = true ->
  (forall c, In c past_reserved -> mem c (labels z) = false) ->
  let r := past_row M z in
  let k := cell z "unique_id" in
  cell r "unique_id" = k
  /\ cell r "area" = area_of (cell z "geometry")
  /\ cell r "past_sum" = lookup (with_past_sum M) "unique_id" k "past_sum"
  /\ cell r "BZ_past" = area_flag_value (cell r "past_sum") (cell r "area").
Proof.
  intros Hk Hres r k. subst r k. unfold past_row. cells.
  rewrite (cell_joined_row_left _ z "unique_id")
    by (rewrite mem_add_column, Hk; reflexivity).
  rewrite (cell_joined_row_left _ z "area")
    by (rewrite mem_add_column, orb_true_r; reflexivity).
  rewrite !(cell_joined_row_right _ z "past_sum")
    by (try discriminate; apply Hres; apply in_or_app; right; left; reflexivity).
  unfold area_row. cells. repeat split; reflexivity.
Qed.

(** ** The final tables *)

Lemma Forall2_map_r {X Y : Type} (R : X -> Y -> Prop) (f : X -> Y) l :
  (forall x, In x l -> R x (f x)) -> Forall2 R l (map f l).
Proof.
  induction l as [|x l IH]; intros H; simpl; constructor.
  - apply H. left. reflexivity.
  - apply IH. intros y Hy. apply H. right. exact Hy.
Qed.

Lemma atomic_labels atomic reserved z :
  wf atomic -> has_column atomic "unique_id" = true ->
  (forall c, In c reserved -> mem c (columns atomic) = false) ->
  In z (rows atomic) ->
  mem "unique_id" (labels z) = true
  /\ forall c, In c reserved -> mem c (labels z) = false.
Proof.
  intros Hwf Hk Hres Hz.
  rewrite (proj1 (Forall_forall _ _) Hwf z Hz). split; assumption.
Qed.

Theorem run_future_rows overlay output_directory atomic mod_2050 ext_2080 f500yr :
  future_inputs_ok overlay atomic mod_2050 ext_2080 f500yr = true ->
  exists out,
    run_future overlay output_directory atomic mod_2050 ext_2080 f500yr = Ok out
    /\ printed out = future_printed output_directory
    /\ Forall2 (future_zone_row (overlay (atomic_with_area atomic) mod_2050)
                                (overlay (atomic_with_area atomic) ext_2080)
                                (overlay (atomic_with_area atomic) f500yr))
               (rows atomic) (rows (final_df out)).
Proof.
  intros Hok.
  destruct (run_future_spec overlay output_directory atomic mod_2050 ext_2080 f500yr Hok)
    as [M [HuM [HlM Hrun]]].
  unfold future_inputs_ok in Hok.
  apply andb_prop in Hok as [Hok _]. apply andb_prop in Hok as [Hok _].
  apply andb_prop in Hok as [Ha _].
  apply atomic_ok_inv in Ha as [Hwf [Hkey [_ Hres]]].
  eexists. split; [exact Hrun|]. split; [reflexivity|].
  unfold final_df. cbn [final_csv snd rows].
  apply Forall2_map_r. intros z Hz.
  destruct (atomic_labels atomic future_reserved z Hwf Hkey Hres Hz) as [Hk Hr].
  destruct (future_row_cells M z Hk Hr)
    as [C1 [C2 [C3 [C4 [C5 [C6 [C7 [C8 C9]]]]]]]].
  unfold future_zone_row. cbv zeta.
  rewrite C9, C6, C7, C8, C3, C4, C5, C2, C1.
  rewrite !HlM by discriminate. unfold future_tables. pick_table.
  unfold union_value. cbn [existsb]. rewrite orb_false_r, orb_assoc.
  repeat split; reflexivity.
Qed.

Theorem run_present_rows overlay output_directory atomic present_311 mod_cur f100yr :
  present_inputs_ok overlay atomic present_311 mod_cur f100yr = true ->
  exists out,
    run_present overlay output_directory atomic present_311 mod_cur f100yr = Ok out
    /\ printed out = present_printed output_directory
    /\ Forall2 (present_zone_row present_311
                                 (overlay (atomic_with_area atomic) mod_cur)
                                 (overlay (atomic_with_area atomic) f100yr))
               (rows atomic) (rows (final_df out)).
Proof.
  intros Hok.
  destruct (run_present_spec overlay output_directory atomic present_311 mod_cur f100yr Hok)
    as [M [HuM [HlM Hrun]]].
  unfold present_inputs_ok in Hok.
  apply andb_prop in Hok as [Hok _]. apply andb_prop in Hok as [Hok _].
  apply andb_prop in Hok as [Ha _].
  apply atomic_ok_inv in Ha as [Hwf [Hkey [_ Hres]]].
  eexists. split; [exact Hrun|]. split; [reflexivity|].
  unfold final_df. cbn [final_csv snd rows].
  apply Forall2_map_r. intros z Hz.
  destruct (atomic_labels atomic present_reserved z Hwf Hkey Hres Hz) as [Hk Hr].
  destruct (present_row_cells M z Hk Hr)
    as [C1 [C2 [C3 [C4 [C5 [C6 [C7 [C8 C9]]]]]]]].
  unfold present_zone_row. cbv zeta.
  rewrite C9, C6, C7, C8, C3, C4, C5, C2, C1.
  rewrite !HlM by discriminate. unfold present_tables. pick_table.
  change (mem "Point_Coun" (columns (points_table present_311))) with true. cbv iota.
  rewrite lookup_points_table.
  unfold union_value, astype_int. cbn [existsb]. rewrite orb_false_r, orb_assoc.
  repeat split; try reflexivity.
  destruct (at_least_3 (point_count present_311 (cell z "unique_id"))); reflexivity.
Qed.

Theorem run_past_rows overlay output_directory atomic layers :
  past_inputs_ok overlay atomic layers = true ->
  exists out,
    run_past overlay output_directory atomic layers = Ok out
    /\ printed out = past_printed output_directory
    /\ Forall2 (past_zone_row (past_fragments overlay atomic layers))
               (rows atomic) (rows (final_df out)).
Proof.
  intros Hok.
  destruct (run_past_spec overlay output_directory atomic layers Hok)
    as [M [HuM [HlM [HnilM Hrun]]]].
  unfold past_inputs_ok in Hok.
  apply andb_prop in Hok as [Hok _]. apply andb_prop in Hok as [Hlen Ha].
  apply Nat.eqb_eq in Hlen.
  apply atomic_ok_inv in Ha as [Hwf [Hkey [_ Hres]]].
  eexists. split; [exact Hrun|]. split; [reflexivity|].
  unfold final_df. cbn [final_csv snd rows].
  apply Forall2_map_r. intros z Hz.
  destruct (atomic_labels atomic past_reserved z Hwf Hkey Hres Hz) as [Hk Hr].
  destruct (past_row_cells M z Hk Hr) as [C1 [C2 [C3 C4]]].
  unfold past_zone_row. cbv zeta.
  rewrite C4, C3, C2, C1.
  rewrite (past_sum_cell overlay atomic layers M _ Hlen HlM HnilM).
  repeat split; reflexivity.
Qed.


(** ** What a run that succeeds has computed *)

Lemma mapM_inv_map {X Y : Type} (f : X -> result Y) (g : X -> Y) l l' :
  (forall a b, f a = Ok b -> b = g a) -> mapM f l = Ok l' -> l' = map g l.
Proof.
  intros Hfg. revert l'. induction l as [|a l IH]; intros l' H; simpl in H.
  - injection H as <-. reflexivity.
  - destruct (f a) as [b|e] eqn:Hf; simpl in H; [|discriminate].
    destruct (mapM f l) as [bs|e] eqn:Hm; simpl in H; [|discriminate].
    injection H as <-. simpl. rewrite (Hfg a b Hf), (IH bs eq_refl). reflexivity.
Qed.

Lemma assign_inv df c f (g : Row -> value) df' :
  (forall r v, f r = Ok v -> v = g r) ->
  assign df c f = Ok df' ->
  df' = mkDF (add_column (columns df) c) (map (fun r => set_cell r c (g r)) (rows df)).
Proof.
  intros Hfg H. unfold assign in H.
  destruct (mapM _ (rows df)) as [rs|e] eqn:Hm; simpl in H; [|discriminate].
  injection H as <-. f_equal.
  apply (mapM_inv_map _ (fun r => set_cell r c (g r)) _ _) in Hm; [exact Hm|].
  intros r r' Hr. destruct (f r) as [v|e] eqn:Hf; simpl in Hr; [|discriminate].
  injection Hr as <-. rewrite (Hfg r v Hf). reflexivity.
Qed.

Lemma area_flag_cell_inv agg area v :
  (threshold <- scale (1 # 10) area ;;
   b <- ge agg threshold ;; Ok (astype_int b)) = Ok v ->
  v = area_flag_value agg area.
Proof.
  unfold area_flag_value.
  destruct agg, area; simpl; intros H; try discriminate; injection H as <-; reflexivity.
Qed.

Lemma area_flag_inv final n final' :
  area_flag final n = Ok final' ->
  final' = mkDF (add_column (columns final) (n ++ "fg")%string)
                (map (flag_row n) (rows final)).
Proof.
  unfold area_flag. intros H.
  destruct (require final "area"); simpl in H; [|discriminate].
  destruct (require final n); simpl in H; [|discriminate].
  apply (assign_inv _ _ _ (fun r => area_flag_value (cell r n) (cell r "area"))) in H;
    [exact H|].
  intros r v. apply area_flag_cell_inv.
Qed.

Lemma flags_fold_inv names : forall final final',
  foldM area_flag names final = Ok final' ->
  final' = mkDF (flag_columns names (columns final)) (map (flag_rows names) (rows final)).
Proof.
  induction names as [|n names IH]; intros final final' H; simpl in H.
  - injection H as <-. unfold flag_rows. simpl. rewrite map_id. destruct final; reflexivity.
  - destruct (area_flag final n) as [f1|e] eqn:E; simpl in H; [|discriminate].
    apply area_flag_inv in E. subst f1. apply IH in H. rewrite H. simpl.
    rewrite map_map. reflexivity.
Qed.

Lemma ge_3_inv v b : ge v (Int 3) = Ok b -> b = at_least_3 v.
Proof.
  destruct v; simpl; intros H; try discriminate; injection H as <-; reflexivity.
Qed.

Lemma point_flag_inv final final' :
  point_flag final = Ok final' ->
  final' = mkDF (add_column (columns final) "depcaAfg")
                (map (if has_column final "Point_Coun" then point_row
                      else fun r => set_cell r "depcaAfg" (Int 0))
                     (rows final)).
Proof.
  unfold point_flag. rewrite assign_pure. cbn [bind].
  unfold has_column at 1. cbn [columns]. rewrite mem_add_column.
  fold (has_column final "Point_Coun").
  destruct (has_column final "Point_Coun"); cbn [orb].
  - intros H. unfold loc_set in H.
    apply (assign_inv _ _ _ (fun r => if at_least_3 (cell r "Point_Coun") then Int 1
                                      else cell r "depcaAfg")) in H.
    + rewrite H. cbn [columns rows]. rewrite map_map. f_equal.
      unfold add_column at 1. rewrite mem_add_column, String.eqb_refl, orb_true_r.
      reflexivity.
    + intros r v Hv. destruct (ge (cell r "Point_Coun") (Int 3)) as [b|e] eqn:Hb;
        simpl in Hv; [|discriminate].
      injection Hv as <-. rewrite (ge_3_inv _ _ Hb). reflexivity.
  - intros H. injection H as <-. reflexivity.
Qed.

(** The final future table of a run that succeeds: the joined table with
    the three flags and the epoch flag set row by row. *)
Lemma run_future_final overlay output_directory atomic mod_2050 ext_2080 f500yr out :
  run_future overlay output_directory atomic mod_2050 ext_2080 f500yr = Ok out ->
  exists joined,
    rows (final_df out)
    = map (fun r => union_row "BZ_future" ["mod_20Afg"; "ext_20Afg"; "500Afg"]
                              (flag_rows ["mod_20A"; "ext_20A"; "500A"] r))
          (rows joined).
Proof.
  unfold run_future.
  destruct (with_area atomic) as [a|]; cbn [bind]; [|discriminate].
  destruct (mapMi _ _ _) as [dfs|]; cbn [bind]; [|discriminate].
  destruct (merge_all dfs) as [M|]; cbn [bind]; [|discriminate].
  destruct (merge a M "unique_id" Left "_x" "_y") as [joined|]; cbn [bind]; [|discriminate].
  change (map (fun shp : shapefile => field_name (flag_field shp))
              (shapefiles_future mod_2050 ext_2080 f500yr))
    with ["mod_20A"; "ext_20A"; "500A"].
  destruct (foldM area_flag ["mod_20A"; "ext_20A"; "500A"] joined) as [flagged|] eqn:E;
    cbn [bind]; [|discriminate].
  apply flags_fold_inv in E. subst flagged.
  rewrite union_Ok;
    [|apply (mem_flag_columns_flag ["mod_20A"; "ext_20A"; "500A"] _ "mod_20A");
      simpl; tauto
     |apply (mem_flag_columns_flag ["mod_20A"; "ext_20A"; "500A"] _ "ext_20A");
      simpl; tauto
     |apply (mem_flag_columns_flag ["mod_20A"; "ext_20A"; "500A"] _ "500A");
      simpl; tauto].
  intros H. injection H as <-. exists joined.
  unfold final_df. cbn [final_csv snd rows]. rewrite map_map. reflexivity.
Qed.

Lemma run_present_final overlay output_directory atomic present_311 mod_cur f100yr out :
  run_present overlay output_directory atomic present_311 mod_cur f100yr = Ok out ->
  exists joined,
    rows (final_df out)
    = map (fun r => union_row "BZ_present" ["depcaAfg"; "mod_cAfg"; "100Afg"]
                              (flag_rows ["mod_cA"; "100A"]
                                         ((if has_column joined "Point_Coun"
                                           then point_row
                                           else fun r => set_cell r "depcaAfg" (Int 0)) r)))
          (rows joined).
Proof.
  unfold run_present.
  destruct (with_area atomic) as [a|]; cbn [bind]; [|discriminate].
  destruct (mapMi _ _ _) as [dfs|]; cbn [bind]; [|discriminate].
  destruct (dissolve_311 present_311) as [p|]; cbn [bind]; [|discriminate].
  destruct (merge_all _) as [M|]; cbn [bind]; [|discriminate].
  destruct (merge a M "unique_id" Left "_x" "_y") as [joined|]; cbn [bind]; [|discriminate].
  destruct (point_flag joined) as [pointed|] eqn:Ep; cbn [bind]; [|discriminate].
  apply point_flag_inv in Ep. subst pointed.
  change (map (fun shp : shapefile => field_name (flag_field shp))
              (tl (shapefiles_present present_311 mod_cur f100yr)))
    with ["mod_cA"; "100A"].
  destruct (foldM area_flag ["mod_cA"; "100A"] _) as [flagged|] eqn:E;
    cbn [bind]; [|discriminate].
  apply flags_fold_inv in E. subst flagged.
  rewrite union_Ok;
    [|unfold has_column; cbn [columns]; apply mem_flag_columns;
      rewrite mem_add_column, String.eqb_refl, orb_true_r; reflexivity
     |apply (mem_flag_columns_flag ["mod_cA"; "100A"] _ "mod_cA"); simpl; tauto
     |apply (mem_flag_columns_flag ["mod_cA"; "100A"] _ "100A"); simpl; tauto].
  intros H. injection H as <-. exists joined.
  unfold final_df. cbn [final_csv snd rows]. rewrite !map_map. reflexivity.
Qed.

Lemma run_past_final overlay output_directory atomic layers out :
  run_past overlay output_directory atomic layers = Ok out ->
  exists joined,
    rows (final_df out)
    = map (fun r => set_cell r "BZ_past"
                             (area_flag_value (cell r "past_sum") (cell r "area")))
          (rows joined).
Proof.
  unfold run_past.
  destruct (with_area atomic) as [a|]; cbn [bind]; [|discriminate].
  destruct (mapM _ _) as [dfs|]; cbn [bind]; [|discriminate].
  destruct (merge_all dfs) as [M|]; cbn [bind]; [|discriminate].
  destruct (bind (mapM (require M) _) _) as [M'|]; cbn [bind]; [|discriminate].
  destruct (merge a M' "unique_id" Left "_x" "_y") as [joined|]; cbn [bind]; [|discriminate].
  destruct (require joined "area"); cbn [bind]; [|discriminate].
  destruct (require joined "past_sum"); cbn [bind]; [|discriminate].
  destruct (assign joined "BZ_past" _) as [final|] eqn:E; cbn [bind]; [|discriminate].
  apply (assign_inv _ _ _ (fun r => area_flag_value (cell r "past_sum") (cell r "area")))
    in E; [|intros r v; apply area_flag_cell_inv].
  subst final. intros H. injection H as <-. exists joined. reflexivity.
Qed.

(** The flags of a final row, read from the row itself. *)
Lemma future_final_cells r0 :
  let r := union_row "BZ_future" ["mod_20Afg"; "ext_20Afg"; "500Afg"]
                     (flag_rows ["mod_20A"; "ext_20A"; "500A"] r0) in
  cell r "mod_20Afg" = area_flag_value (cell r "mod_20A") (cell r "area")
  /\ cell r "ext_20Afg" = area_flag_value (cell r "ext_20A") (cell r "area")
  /\ cell r "500Afg" = area_flag_value (cell r "500A") (cell r "area")
  /\ cell r "BZ_future"
     = union_value [cell r "mod_20Afg"; cell r "ext_20Afg"; cell r "500Afg"].
Proof.
  cbv zeta. unfold union_row, flag_rows, flag_row, union_value.
  cbn [fold_left existsb]. cells. repeat split; reflexivity.
Qed.

Lemma present_final_cells (has_count : bool) r0 :
  let r := union_row "BZ_present" ["depcaAfg"; "mod_cAfg"; "100Afg"]
                     (flag_rows ["mod_cA"; "100A"]
                                ((if has_count then point_row
                                  else fun r => set_cell r "depcaAfg" (Int 0)) r0)) in
  is_bit (cell r "depcaAfg")
  /\ cell r "mod_cAfg" = area_flag_value (cell r "mod_cA") (cell r "area")
  /\ cell r "100Afg" = area_flag_value (cell r "100A") (cell r "area")
  /\ cell r "BZ_present"
     = union_value [cell r "depcaAfg"; cell r "mod_cAfg"; cell r "100Afg"].
Proof.
  cbv zeta. unfold union_row, flag_rows, flag_row, union_value.
  cbn [fold_left existsb]. destruct has_count; unfold point_row; cells.
  - repeat split; try reflexivity.
    unfold is_bit. destruct (at_least_3 (cell r0 "Point_Coun")); auto.
  - repeat split; try reflexivity. left. reflexivity.
Qed.
(** * The claims *)

(** ** Flags *)

Lemma area_flag_value_1 agg area :
  area_flag_value agg area = Int 1 <-> reaches_threshold agg area.
Proof.
  unfold area_flag_value, reaches_threshold, astype_int.
  destruct (to_Q agg) as [a|]; [destruct (to_Q area) as [z|]|].
  - destruct (Qle_bool ((1 # 10) * z) a) eqn:E; split.
    + intros _. exists a, z. repeat split. apply Qle_bool_iff. exact E.
    + reflexivity.
    + discriminate.
    + intros [a' [z' [Ha [Hz Hle]]]]. injection Ha as <-. injection Hz as <-.
      apply Qle_bool_iff in Hle. congruence.
  - split; [discriminate|]. intros [a' [z' [_ [Hz _]]]]. discriminate.
  - split; [discriminate|]. intros [a' [z' [Ha _]]]. discriminate.
Qed.

Lemma area_flag_value_bit agg area : is_bit (area_flag_value agg area).
Proof.
  unfold area_flag_value, astype_int, is_bit.
  destruct (match to_Q agg with
            | Some a => match to_Q area with
                        | Some z => Qle_bool ((1 # 10) * z) a
                        | None => false
                        end
            | None => false
            end); auto.
Qed.

Lemma area_flag_value_0 agg area :
  area_flag_value agg area = Int 0 <-> ~ reaches_threshold agg area.
Proof.
  rewrite <- area_flag_value_1.
  destruct (area_flag_value_bit agg area) as [H|H]; rewrite H; split;
    intros; try reflexivity; try discriminate; congruence.
Qed.

Lemma astype_int_bit b : is_bit (astype_int b).
Proof. unfold is_bit. destruct b; auto. Qed.

Lemma union_value_bit flags : is_bit (union_value flags).
Proof. unfold union_value, is_bit. destruct (existsb _ flags); auto. Qed.

Lemma union_value_spec flags :
  Forall is_bit flags -> is_union (union_value flags) flags.
Proof.
  intros Hb. unfold is_union, union_value.
  assert (existsb (fun v => eq_int v 1) flags = true
          <-> Exists (fun v => v = Int 1) flags) as H1.
  { rewrite existsb_exists, Exists_exists. split; intros [v [Hin Hv]]; exists v.
    - split; [exact Hin|]. rewrite Forall_forall in Hb.
      destruct (Hb v Hin) as [->| ->]; [discriminate|reflexivity].
    - split; [exact Hin|]. subst. reflexivity. }
  assert (existsb (fun v => eq_int v 1) flags = false
          <-> Forall (fun v => v = Int 0) flags) as H0.
  { split.
    - intros He. apply Forall_forall. intros v Hin. rewrite Forall_forall in Hb.
      destruct (Hb v Hin) as [->| ->]; [reflexivity|].
      assert (existsb (fun v => eq_int v 1) flags = true) as Ht
          by (apply existsb_exists; exists (Int 1); split; [exact Hin|reflexivity]).
      congruence.
    - intros Hall. destruct (existsb _ flags) eqn:E; [|reflexivity].
      apply existsb_exists in E as [v [Hin Hv]]. rewrite Forall_forall in Hall.
      rewrite (Hall v Hin) in Hv. discriminate. }
  destruct (existsb (fun v => eq_int v 1) flags) eqn:E; split; split;
    intros H; try reflexivity; try discriminate.
  - apply H1. reflexivity.
  - apply H0 in H. discriminate.
  - apply H1 in H. discriminate.
  - apply H0. reflexivity.
Qed.

Lemma Forall2_Forall_r {X Y : Type} (R : X -> Y -> Prop) (P : Y -> Prop) l l' :
  Forall2 R l l' -> (forall x y, R x y -> P y) -> Forall P l'.
Proof.
  intros H HP. induction H; constructor; eauto.
Qed.

Lemma Forall2_impl {X Y : Type} (R S : X -> Y -> Prop) l l' :
  (forall x y, R x y -> S x y) -> Forall2 R l l' -> Forall2 S l l'.
Proof. intros H HR. induction HR; constructor; auto. Qed.

Ltac bits :=
  repeat (apply Forall_cons;
          [first [apply area_flag_value_bit | apply astype_int_bit | apply union_value_bit]|]);
  apply Forall_nil.

(** ** C1: the epoch flag *)

Lemma Forall_map_rows {X : Type} (P : Row -> Prop) (f : X -> Row) l :
  (forall x, P (f x)) -> Forall P (map f l).
Proof. intros H. apply Forall_map, Forall_forall. intros x _. apply H. Qed.




(** ** C2: the 10% rule *)

Lemma flagged_by_area_intro fragments n z r :
  cell r n = overlap_area fragments (cell z "unique_id") ->
  cell r "area" = area_of (cell z "geometry") ->
  cell r (n ++ "fg")%string
  = area_flag_value (overlap_area fragments (cell z "unique_id"))
                    (area_of (cell z "geometry")) ->
  flagged_by_area fragments n z r.
Proof.
  intros H1 H2 H3. unfold flagged_by_area. cbv zeta. rewrite H3.
  split; [exact H1|]. split; [exact H2|].
  split; [apply area_flag_value_1|apply area_flag_value_0].
Qed.

Lemma follows_rule_intro n r :
  cell r (n ++ "fg")%string = area_flag_value (cell r n) (cell r "area") ->
  follows_rule n r.
Proof.
  intros H. unfold follows_rule. rewrite H.
  split; [apply area_flag_value_1|apply area_flag_value_0].
Qed.



(** ** C3: one row per zone *)

Lemma same_keys_matches atomic final k :
  same_keys atomic final ->
  List.length (matches final "unique_id" k) = List.length (matches atomic "unique_id" k).
Proof.
  unfold same_keys, matches. intros H.
  induction H as [|z r zs rs Hk _ IH]; [reflexivity|].
  simpl. rewrite Hk. destruct (key_match (cell z "unique_id") k); simpl; rewrite IH;
    reflexivity.
Qed.

Lemma same_keys_unique atomic final :
  same_keys atomic final ->
  unique_keys atomic "unique_id" -> unique_keys final "unique_id".
Proof.
  intros H Hu k. rewrite (same_keys_matches atomic final k H). apply Hu.
Qed.


Lemma unique_keys_check df on :
  pairwise_distinct (map (fun r => cell r on) (rows df)) = true -> unique_keys df on.
Proof.
  intros H k. unfold matches. induction (rows df) as [|r rs IH]; [simpl; lia|].
  simpl in H. apply andb_prop in H as [H1 H2]. specialize (IH H2).
  simpl. destruct (key_match (cell r on) k) eqn:E; [|exact IH].
  rewrite (filter_const _ false); [simpl; lia|].
  intros r' Hr'. rewrite forallb_forall in H1.
  assert (In (cell r' on) (map (fun r => cell r on) rs)) as Hin
      by (apply in_map_iff; exists r'; split; [reflexivity|exact Hr']).
  specialize (H1 _ Hin). apply negb_true_iff in H1.
  rewrite <- (key_match_trans_eq_r (cell r on) k (cell r' on) E).
  rewrite key_match_sym. exact H1.
Qed.

Lemma example_unique_keys : unique_keys Example.atomic "unique_id".
Proof. apply unique_keys_check. reflexivity. Qed.


(** ** C4: a missing aggregate *)

Lemma unflagged_intro fragments n z r :
  cell r n = overlap_area fragments (cell z "unique_id") ->
  cell r (n ++ "fg")%string
  = area_flag_value (overlap_area fragments (cell z "unique_id"))
                    (area_of (cell z "geometry")) ->
  unflagged_when_absent fragments n z r.
Proof.
  intros H1 H2 Ht. rewrite H1, H2. unfold overlap_area. rewrite Ht.
  split; reflexivity.
Qed.

Lemma zero_when_missing_intro n r :
  cell r (n ++ "fg")%string = area_flag_value (cell r n) (cell r "area") ->
  zero_when_missing n r.
Proof. intros H Hn. rewrite H, Hn. reflexivity. Qed.



(** ** C10: the flags are 0 or 1 *)



(** ** C5: fragments are summed before the threshold *)

Lemma fold_left_Qplus_acc l a : fold_left Qplus l a == a + Qsum l.
Proof.
  unfold Qsum. revert a. induction l as [|x l IH]; intros a; simpl.
  - rewrite Qplus_0_r. reflexivity.
  - rewrite (IH (a + x)), (IH (0 + x)). rewrite Qplus_0_l, Qplus_assoc. reflexivity.
Qed.

Lemma Qsum_cons x l : Qsum (x :: l) == x + Qsum l.
Proof.
  unfold Qsum at 1. simpl. rewrite fold_left_Qplus_acc, Qplus_0_l. reflexivity.
Qed.

Lemma Qsum_app l1 l2 : Qsum (l1 ++ l2) == Qsum l1 + Qsum l2.
Proof.
  induction l1 as [|x l1 IH]; simpl.
  - unfold Qsum at 2. simpl. rewrite Qplus_0_l. reflexivity.
  - rewrite !Qsum_cons, IH, Qplus_assoc. reflexivity.
Qed.

Lemma Qsum_perm l l' : Permutation l l' -> Qsum l == Qsum l'.
Proof.
  induction 1 as [|x l l' _ IH|x y l|l l' l'' _ IH1 _ IH2].
  - reflexivity.
  - rewrite !Qsum_cons, IH. reflexivity.
  - rewrite !Qsum_cons, !Qplus_assoc, (Qplus_comm y x). reflexivity.
  - rewrite IH1. exact IH2.
Qed.

Lemma fragment_areas_perm F F' k :
  Permutation (rows F) (rows F') ->
  Permutation (fragment_areas F k) (fragment_areas F' k).
Proof.
  intros H. unfold fragment_areas, numbers, matches.
  apply Permutation_flat_map, Permutation_map, filter_perm. exact H.
Qed.

Lemma touched_perm F F' k :
  Permutation (rows F) (rows F') ->
  touched F' "unique_id" k = touched F "unique_id" k.
Proof.
  intros H. unfold touched.
  destruct (existsb _ (rows F)) eqn:E.
  - apply existsb_exists in E as [r [Hr Hp]]. apply existsb_exists.
    exists r. split; [eapply Permutation_in; eassumption|exact Hp].
  - destruct (existsb _ (rows F')) eqn:E'; [|reflexivity].
    apply existsb_exists in E' as [r [Hr Hp]].
    assert (existsb (fun r => negb (isna (cell r "unique_id"))
                              && key_match (cell r "unique_id") k) (rows F) = true) as Ht.
    { apply existsb_exists. exists r. split; [|exact Hp].
      eapply Permutation_in; [apply Permutation_sym; eassumption|exact Hr]. }
    congruence.
Qed.

Lemma overlap_area_sum F k :
  overlap_area F k
  = if touched F "unique_id" k then Float (Qsum (fragment_areas F k)) else NaN.
Proof. reflexivity. Qed.

Lemma area_flag_value_Qeq a a' area :
  a == a' -> area_flag_value (Float a) area = area_flag_value (Float a') area.
Proof.
  intros H. unfold area_flag_value. simpl.
  destruct (to_Q area) as [z|]; [|reflexivity].
  f_equal.
  destruct (Qle_bool ((1 # 10) * z) a) eqn:E, (Qle_bool ((1 # 10) * z) a') eqn:E';
    try reflexivity.
  - apply Qle_bool_iff in E. rewrite H in E. apply Qle_bool_iff in E. congruence.
  - apply Qle_bool_iff in E'. rewrite <- H in E'. apply Qle_bool_iff in E'. congruence.
Qed.



(** ** C6: the 311 flag *)

Lemma at_least_3_iff v : at_least_3 v = true <-> counts_at_least_3 v.
Proof.
  unfold at_least_3, counts_at_least_3. destruct (to_Q v) as [q|].
  - rewrite Qle_bool_iff. split.
    + intros H. exists q. split; [reflexivity|exact H].
    + intros [q' [Hq H]]. injection Hq as <-. exact H.
  - split; [discriminate|]. intros [q [Hq _]]. discriminate.
Qed.




(** ** C7: column names across the outer joins *)

Lemma merge_loop_columns ds : forall d n,
  has_column d "unique_id" = true ->
  Forall (fun df => has_column df "unique_id" = true) ds ->
  mergeable (columns d) "unique_id" ds = true ->
  exists M,
    merge_loop d n ds = Ok M
    /\ columns M = columns d ++ flat_map (fun df => without "unique_id" (columns df)) ds.
Proof.
  induction ds as [|df ds IH]; intros d n Hd Hds Hm.
  - exists d. simpl. rewrite app_nil_r. split; reflexivity.
  - inversion Hds as [|? ? Hdf Hds']; subst. simpl in Hm.
    destruct (overlapping (columns d) (without "unique_id" (columns df))) eqn:Hov;
      [|discriminate].
    simpl. rewrite (merge_plain d df "unique_id" Outer _ _ Hd Hdf Hov). simpl.
    destruct (IH (mkDF (columns d ++ without "unique_id" (columns df))
                       (sort_by (fun r => cell r "unique_id")
                                (plain_left_rows d df "unique_id"
                                 ++ plain_right_rows d df "unique_id"))) (S n))
      as [M [HM Hc]].
    + unfold has_column. simpl. rewrite mem_app.
      unfold has_column in Hd. rewrite Hd. reflexivity.
    + exact Hds'.
    + exact Hm.
    + exists M. split; [exact HM|]. rewrite Hc. simpl. rewrite app_assoc. reflexivity.
Qed.

Lemma NoDup_without on cols : NoDup cols -> NoDup (without on cols).
Proof. intros H. unfold without. apply NoDup_filter. exact H. Qed.

Lemma mergeable_NoDup ds : forall cols,
  NoDup cols ->
  Forall (fun df => NoDup (columns df)) ds ->
  mergeable cols "unique_id" ds = true ->
  NoDup (cols ++ flat_map (fun df => without "unique_id" (columns df)) ds).
Proof.
  induction ds as [|df ds IH]; intros cols Hc Hds Hm.
  - simpl. rewrite app_nil_r. exact Hc.
  - inversion Hds as [|? ? Hdf Hds']; subst. simpl in Hm.
    destruct (overlapping cols (without "unique_id" (columns df))) eqn:Hov;
      [|discriminate].
    simpl. rewrite app_assoc. apply IH; [|exact Hds'|exact Hm].
    apply NoDup_app; [exact Hc|apply NoDup_without; exact Hdf|].
    intros c Hin Hin'.
    pose proof (overlapping_nil _ _ c Hov Hin) as Hf.
    apply mem_false_iff in Hf. contradiction.
Qed.

Lemma NoDup_check (l : list string) : nodup string_dec l = l -> NoDup l.
Proof. intros H. rewrite <- H. apply NoDup_nodup. Qed.




(** ** C9: a 311 layer without [Point_Coun] *)

Lemma run_present_stops_at_311 overlay output_directory atomic present_311
      mod_cur f100yr e :
  dissolve_311 present_311 = Err e ->
  exists e', run_present overlay output_directory atomic present_311 mod_cur f100yr
             = Err e'.
Proof.
  intros H. unfold run_present.
  destruct (with_area atomic) as [a|e0]; cbn [bind]; [|exists e0; reflexivity].
  destruct (mapMi _ _ _) as [ds|e1]; cbn [bind]; [|exists e1; reflexivity].
  rewrite H. cbn [bind]. exists e. reflexivity.
Qed.

(** C9.  When the 311 layer has no [Point_Coun] attribute, the grouping
    of the 311 layer raises a [KeyError] (on [Point_Coun], when the layer
    has [unique_id] and [depcall]): the run of the present epoch ends in
    an error and never reaches the test that would leave the 311 flag at 0
    when the merged table has no [Point_Coun] column. *)
Theorem missing_point_count_aborts :
  forall present_311,
    has_column present_311 "Point_Coun" = false ->
    (exists c, dissolve_311 present_311 = Err (KeyError c))
    /\ (has_column present_311 "unique_id" = true ->
        has_column present_311 "depcall" = true ->
        dissolve_311 present_311 = Err (KeyError "Point_Coun"))
    /\ (forall overlay output_directory atomic mod_cur f100yr,
           exists e,
             run_present overlay output_directory atomic present_311 mod_cur f100yr
             = Err e)
    /\ (forall overlay output_directory atomic mod_cur f100yr,
           has_column atomic "geometry" = true ->
           layer_ok (overlay (atomic_with_area atomic) mod_cur)
                    ["mod_cur"; "mo_cu_fldC"] = true ->
           layer_ok (overlay (atomic_with_area atomic) f100yr) ["100yr"] = true ->
           has_column present_311 "unique_id" = true ->
           has_column present_311 "depcall" = true ->
           run_present overlay output_directory atomic present_311 mod_cur f100yr
           = Err (KeyError "Point_Coun")).
Proof.
  intros present_311 Hp.
  assert (has_column present_311 "unique_id" = true ->
          has_column present_311 "depcall" = true ->
          dissolve_311 present_311 = Err (KeyError "Point_Coun")) as Hfull.
  { intros Hu Hd. unfold dissolve_311. cbn [filter]. rewrite Hu, Hd, Hp. reflexivity. }
  assert (exists c, dissolve_311 present_311 = Err (KeyError c)) as Hany.
  { destruct (has_column present_311 "unique_id") eqn:Hu;
      destruct (has_column present_311 "depcall") eqn:Hd.
    - exists "Point_Coun". apply Hfull; reflexivity.
    - exists "depcall". unfold dissolve_311. cbn [filter]. rewrite Hu, Hd, Hp.
      reflexivity.
    - exists "unique_id". unfold dissolve_311. cbn [filter]. rewrite Hu, Hd, Hp.
      reflexivity.
    - exists "unique_id". unfold dissolve_311. cbn [filter]. rewrite Hu, Hd, Hp.
      reflexivity. }
  split; [exact Hany|]. split; [exact Hfull|]. split.
  - intros overlay output_directory atomic mod_cur f100yr.
    destruct Hany as [c Hc].
    exact (run_present_stops_at_311 overlay output_directory atomic present_311
                                    mod_cur f100yr _ Hc).
  - intros overlay output_directory atomic mod_cur f100yr Hgeo H1 H2 Hu Hd.
    unfold run_present. rewrite (with_area_Ok atomic Hgeo).
    fold (atomic_with_area atomic). cbn [bind].
    unfold shapefiles_present. cbn [tl mapMi].
    unfold dissolve_present. cbn [flag_field Nat.eqb].
    rewrite (dissolve_layer_Ok overlay _ (mkShp mod_cur "mod_cur" None)
               [("mod_cur", First); ("mo_cu_fldC", First)]); [|exact H1|discriminate].
    cbn [bind].
    rewrite (dissolve_layer_Ok overlay _ (mkShp f100yr "100yr" None)
               [("100yr", First)]); [|exact H2|discriminate].
    cbn [bind]. rewrite (Hfull Hu Hd). reflexivity.
Qed.

Lemma missing_point_count_aborts_witness :
  dissolve_311 Example.present_311_no_count = Err (KeyError "Point_Coun")
  /\ run_present Example.overlay "out" Example.atomic Example.present_311_no_count
                 Example.mod_cur Example.f100yr
     = Err (KeyError "Point_Coun").
Proof.
  destruct (missing_point_count_aborts Example.present_311_no_count) as [_ [H [_ R]]];
    [reflexivity|].
  split.
  - apply H; reflexivity.
  - apply R; reflexivity.
Defined.

(** ** C8: records without a key *)

Lemma ends_with_A_append s : ends_with_A (s ++ "A") = true.
Proof.
  induction s as [|c s IH]; [reflexivity|].
  cbn [String.append]. destruct (s ++ "A")%string eqn:E.
  - destruct s; discriminate.
  - cbn [ends_with_A]. exact IH.
Qed.

Lemma field_name_not_key flag : field_name flag <> "unique_id".
Proof.
  intros H. pose proof (ends_with_A_append (substring 0 (String.length flag - 2) flag)) as E.
  unfold field_name in H. rewrite H in E. discriminate.
Qed.

Lemma filter_filter_and {X : Type} (f g : X -> bool) l :
  filter f (filter g l) = filter (fun x => f x && g x) l.
Proof.
  induction l as [|x l IH]; simpl; [reflexivity|].
  destruct (g x); simpl; rewrite ?andb_true_r, ?andb_false_r; [|exact IH].
  destruct (f x); rewrite IH; reflexivity.
Qed.

Lemma group_keys_notna df kcol k : In k (group_keys df kcol) -> isna k = false.
Proof.
  unfold group_keys. intros H. apply sort_by_In, distinct_keys_In, filter_In in H.
  destruct H as [_ H]. apply negb_true_iff in H. exact H.
Qed.

Lemma matches_drop_keyless df k :
  isna k = false ->
  matches (drop_keyless df) "unique_id" k = matches df "unique_id" k.
Proof.
  intros Hk. unfold matches, drop_keyless. cbn [rows]. rewrite filter_filter_and.
  apply filter_ext. intros r.
  destruct (key_match (cell r "unique_id") k) eqn:E; [|reflexivity].
  rewrite (key_match_notna _ _ E), Hk. reflexivity.
Qed.

Lemma group_keys_drop_keyless df :
  group_keys (drop_keyless df) "unique_id" = group_keys df "unique_id".
Proof.
  unfold group_keys, present_keys, drop_keyless. cbn [rows]. do 2 f_equal.
  induction (rows df) as [|r rs IH]; [reflexivity|].
  cbn [filter map]. destruct (isna (cell r "unique_id")) eqn:E; cbn [negb map filter].
  - exact IH.
  - rewrite E. cbn [negb]. rewrite IH. reflexivity.
Qed.

Lemma groupby_agg_drop_keyless df aggs :
  groupby_agg (drop_keyless df) "unique_id" aggs = groupby_agg df "unique_id" aggs.
Proof.
  unfold groupby_agg. rewrite group_keys_drop_keyless.
  change (require (drop_keyless df)) with (require df).
  destruct (require df "unique_id"); cbn [bind]; [|reflexivity].
  destruct (mapM _ aggs); cbn [bind]; [|reflexivity].
  cbn [columns]. do 2 f_equal. apply map_ext_in. intros k Hk.
  unfold agg_row. rewrite (matches_drop_keyless df k (group_keys_notna _ _ _ Hk)).
  reflexivity.
Qed.

Lemma intersect_drop_keyless overlay atomic shp aggs :
  (df <- intersect (fun a g => drop_keyless (overlay a g)) atomic shp ;;
   groupby_agg df "unique_id" aggs)
  = (df <- intersect overlay atomic shp ;; groupby_agg df "unique_id" aggs).
Proof.
  unfold intersect.
  change (require (drop_keyless (overlay atomic (gdf shp))))
    with (require (overlay atomic (gdf shp))).
  destruct (require (overlay atomic (gdf shp)) "geometry"); cbn [bind]; [|reflexivity].
  rewrite !assign_pure. cbn [bind].
  rewrite <- (groupby_agg_drop_keyless
                (mkDF (add_column (columns (overlay atomic (gdf shp)))
                                  (field_name (flag_field shp)))
                      (map (fun r => set_cell r (field_name (flag_field shp))
                                              (area_of (cell r "geometry")))
                           (rows (overlay atomic (gdf shp)))))).
  f_equal. unfold drop_keyless. cbn [columns rows]. f_equal.
  rewrite filter_map_swap. f_equal. apply filter_ext. intros r.
  rewrite cell_set_cell.
  assert (String.eqb "unique_id" (field_name (flag_field shp)) = false) as ->.
  { apply String.eqb_neq. intros E. symmetry in E. revert E. apply field_name_not_key. }
  reflexivity.
Qed.

Lemma mapMi_ext {X Y : Type} (f g : nat -> X -> result Y) l :
  forall start, (forall i x, f i x = g i x) -> mapMi f start l = mapMi g start l.
Proof.
  induction l as [|x l IH]; intros start H; [reflexivity|].
  cbn [mapMi]. rewrite H, (IH (S start) H). reflexivity.
Qed.

Lemma select_drop_keyless df cols :
  mem "unique_id" cols = true ->
  select (drop_keyless df) cols = drop_keyless (select df cols).
Proof.
  intros H. unfold select, drop_keyless. cbn [columns rows]. f_equal.
  rewrite filter_map_swap. apply f_equal. apply filter_ext. intros r.
  unfold keep_row. rewrite (cell_map_labels (cell r)), H. reflexivity.
Qed.

Lemma dissolve_311_drop_keyless present_311 :
  dissolve_311 (drop_keyless present_311) = dissolve_311 present_311.
Proof.
  unfold dissolve_311.
  change (has_column (drop_keyless present_311)) with (has_column present_311).
  remember (filter (has_column present_311) ["unique_id"; "depcall"; "Point_Coun"])
    as cols.
  destruct (mem "unique_id" cols) eqn:E.
  - rewrite (select_drop_keyless _ _ E). apply groupby_agg_drop_keyless.
  - unfold groupby_agg, require.
    change (has_column (select (drop_keyless present_311) cols) "unique_id")
      with (mem "unique_id" cols).
    change (has_column (select present_311 cols) "unique_id")
      with (mem "unique_id" cols).
    rewrite E. reflexivity.
Qed.

Ltac run_stages :=
  repeat match goal with
         | |- bind ?m _ = Ok _ -> _ =>
             destruct m; cbn [bind]; [|discriminate]
         end.

Lemma run_future_printed overlay output_directory atomic mod_2050 ext_2080 f500yr out :
  run_future overlay output_directory atomic mod_2050 ext_2080 f500yr = Ok out ->
  printed out = future_printed output_directory.
Proof.
  unfold run_future. run_stages. intros H. injection H as <-. reflexivity.
Qed.

Lemma run_present_printed overlay output_directory atomic present_311 mod_cur f100yr out :
  run_present overlay output_directory atomic present_311 mod_cur f100yr = Ok out ->
  printed out = present_printed output_directory.
Proof.
  unfold run_present. run_stages. intros H. injection H as <-. reflexivity.
Qed.

(** C8 (amended).  A fragment or a 311 record without [unique_id] is left
    out by the grouping, silently: it is in no zone's aggregate, and the
    run ends as it does without the record, with the same tables and the
    same printed lines.  Nothing is counted: the lines a run prints are the
    same whatever the data. *)
Theorem keyless_records_dropped :
  (forall df aggs,
      groupby_agg (drop_keyless df) "unique_id" aggs = groupby_agg df "unique_id" aggs)
  /\ (forall overlay output_directory atomic layers,
         run_past (fun a g => drop_keyless (overlay a g)) output_directory atomic layers
         = run_past overlay output_directory atomic layers)
  /\ (forall overlay output_directory atomic present_311 mod_cur f100yr,
         run_present (fun a g => drop_keyless (overlay a g)) output_directory atomic
                     (drop_keyless present_311) mod_cur f100yr
         = run_present overlay output_directory atomic present_311 mod_cur f100yr)
  /\ (forall overlay output_directory atomic mod_2050 ext_2080 f500yr,
         run_future (fun a g => drop_keyless (overlay a g)) output_directory atomic
                    mod_2050 ext_2080 f500yr
         = run_future overlay output_directory atomic mod_2050 ext_2080 f500yr)
  /\ (forall overlay output_directory atomic present_311 mod_cur f100yr out,
         run_present overlay output_directory atomic present_311 mod_cur f100yr = Ok out ->
         printed out = present_printed output_directory).
Proof.
  split; [exact groupby_agg_drop_keyless|]. split; [|split; [|split]].
  - intros overlay output_directory atomic layers. unfold run_past.
    destruct (with_area atomic) as [a|e]; cbn [bind]; [|reflexivity].
    rewrite (mapM_ext (dissolve_past (fun a g => drop_keyless (overlay a g)) a)
                      (dissolve_past overlay a)); [reflexivity|].
    intros shp _. apply intersect_drop_keyless.
  - intros overlay output_directory atomic present_311 mod_cur f100yr.
    unfold run_present.
    destruct (with_area atomic) as [a|e]; cbn [bind]; [|reflexivity].
    rewrite (mapMi_ext (dissolve_present (fun a g => drop_keyless (overlay a g)) a)
                       (dissolve_present overlay a)).
    + rewrite dissolve_311_drop_keyless. reflexivity.
    + intros i shp. unfold dissolve_present.
      destruct (i =? 1)%nat; apply intersect_drop_keyless.
  - intros overlay output_directory atomic mod_2050 ext_2080 f500yr.
    unfold run_future.
    destruct (with_area atomic) as [a|e]; cbn [bind]; [|reflexivity].
    rewrite (mapMi_ext (dissolve_future (fun a g => drop_keyless (overlay a g)) a)
                       (dissolve_future overlay a)); [reflexivity|].
    intros i shp. unfold dissolve_future.
    destruct (i <=? 1)%nat; destruct (flood_type shp); apply intersect_drop_keyless.
  - exact run_present_printed.
Qed.

Lemma keyless_records_dropped_witness :
  exists out,
    run_present Example.overlay "out" Example.atomic Example.present_311_keyless1
                Example.mod_cur Example.f100yr = Ok out
    /\ printed out = present_printed "out".
Proof.
  eexists. split; [vm_compute; reflexivity|].
  apply (proj2 (proj2 (proj2 (proj2 keyless_records_dropped)))
               Example.overlay "out" Example.atomic Example.present_311_keyless1
               Example.mod_cur Example.f100yr).
  vm_compute. reflexivity.
Defined.

(** C8 as stated fails: the 311 layer with one record without key and the
    layer with two such records give the same run, table for table and
    line for line, so the number of skipped records, 1 or 2, cannot be
    read from anything the run prints or writes. *)
Lemma skipped_records_are_not_reported :
  skipped Example.present_311_keyless1 = 1%nat
  /\ skipped Example.present_311_keyless2 = 2%nat
  /\ (exists out,
         run_present Example.overlay "out" Example.atomic Example.present_311_keyless1
                     Example.mod_cur Example.f100yr = Ok out
         /\ run_present Example.overlay "out" Example.atomic
                        Example.present_311_keyless2 Example.mod_cur Example.f100yr
            = Ok out).
Proof.
  split; [reflexivity|]. split; [reflexivity|].
  eexists. split; vm_compute; reflexivity.
Qed.

(** * Beyond the claims: the rest of the scripts' behaviour *)

(** ** The stages a run that succeeds has gone through *)

Lemma require_inv df c u : require df c = Ok u -> has_column df c = true.
Proof. unfold require. destruct (has_column df c); [reflexivity|discriminate]. Qed.

Lemma mapM_require_inv {X : Type} df (g : X -> string) l u :
  mapM (fun a => require df (g a)) l = Ok u ->
  forallb (fun a => has_column df (g a)) l = true.
Proof.
  revert u. induction l as [|a l IH]; intros u H; [reflexivity|].
  simpl in H. destruct (require df (g a)) as [t|e] eqn:E; simpl in H; [|discriminate].
  destruct (mapM _ l) as [us|e] eqn:El; simpl in H; [|discriminate].
  simpl. rewrite (require_inv _ _ _ E), (IH us eq_refl). reflexivity.
Qed.

Lemma groupby_agg_inv df kcol aggs T :
  groupby_agg df kcol aggs = Ok T ->
  has_column df kcol = true
  /\ forallb (fun a => has_column df (fst a)) aggs = true
  /\ T = grouped df kcol aggs.
Proof.
  unfold groupby_agg. intros H.
  destruct (require df kcol) as [t|e] eqn:Ek; simpl in H; [|discriminate].
  destruct (mapM (fun a => require df (fst a)) aggs) as [us|e] eqn:Ea; simpl in H;
    [|discriminate].
  injection H as <-. split; [exact (require_inv _ _ _ Ek)|].
  split; [exact (mapM_require_inv _ _ _ _ Ea)|reflexivity].
Qed.

Lemma with_area_inv atomic a :
  with_area atomic = Ok a ->
  has_column atomic "geometry" = true /\ a = atomic_with_area atomic.
Proof.
  unfold with_area. intros H.
  destruct (require atomic "geometry") as [t|e] eqn:E; simpl in H; [|discriminate].
  rewrite assign_pure in H. injection H as <-.
  split; [exact (require_inv _ _ _ E)|reflexivity].
Qed.

Lemma intersect_inv overlay a shp df :
  intersect overlay a shp = Ok df ->
  has_column (overlay a (gdf shp)) "geometry" = true
  /\ df = with_fragment_area (overlay a (gdf shp)) (field_name (flag_field shp)).
Proof.
  unfold intersect. intros H.
  destruct (require (overlay a (gdf shp)) "geometry") as [t|e] eqn:E; simpl in H;
    [|discriminate].
  rewrite assign_pure in H. injection H as <-.
  split; [exact (require_inv _ _ _ E)|reflexivity].
Qed.

Lemma has_column_with_fragment_area I n c :
  has_column (with_fragment_area I n) c = has_column I c || String.eqb c n.
Proof. unfold has_column, with_fragment_area. simpl. apply mem_add_column. Qed.

(** A layer that dissolves has the columns the script reads, and its
    dissolved table is the one of the layer's overlay result. *)
Lemma dissolve_inv overlay a shp rest T :
  (df <- intersect overlay a shp ;;
   groupby_agg df "unique_id" ((field_name (flag_field shp), Sum) :: rest)) = Ok T ->
  forallb (fun c => negb (String.eqb c (field_name (flag_field shp))))
          ("unique_id" :: map fst rest) = true ->
  layer_ok (overlay a (gdf shp)) (map fst rest) = true
  /\ T = dissolved (overlay a (gdf shp)) (field_name (flag_field shp)) rest.
Proof.
  intros H Hne.
  destruct (intersect overlay a shp) as [df|e] eqn:Ei; simpl in H; [|discriminate].
  apply intersect_inv in Ei as [Hg ->].
  apply groupby_agg_inv in H as [Hk [Ha ->]].
  cbn [forallb] in Hne. apply andb_prop in Hne as [Hn1 Hn2].
  rewrite has_column_with_fragment_area in Hk.
  apply negb_true_iff in Hn1. rewrite Hn1, orb_false_r in Hk.
  split; [|reflexivity].
  unfold layer_ok. rewrite Hg, Hk. cbn [andb].
  cbn [forallb] in Ha. apply andb_prop in Ha as [_ Ha].
  rewrite forallb_forall in *. intros c Hc.
  apply in_map_iff in Hc as [p [<- Hp]].
  specialize (Ha p Hp). rewrite has_column_with_fragment_area in Ha.
  specialize (Hn2 (fst p) (in_map fst _ _ Hp)). apply negb_true_iff in Hn2.
  rewrite Hn2, orb_false_r in Ha. exact Ha.
Qed.

Lemma area_flag_requires final n final' :
  area_flag final n = Ok final' ->
  has_column final "area" = true /\ has_column final n = true.
Proof.
  unfold area_flag. intros H.
  destruct (require final "area") as [t|e] eqn:E1; simpl in H; [|discriminate].
  destruct (require final n) as [t'|e] eqn:E2; simpl in H; [|discriminate].
  split; [exact (require_inv _ _ _ E1)|exact (require_inv _ _ _ E2)].
Qed.

Lemma merge_inv left right on h s1 s2 j :
  merge left right on h s1 s2 = Ok j ->
  let ov := overlapping (columns left) (without on (columns right)) in
  has_column left on = true
  /\ has_column right on = true
  /\ columns j = map (suffixed ov s1) (columns left)
                 ++ map (suffixed ov s2) (without on (columns right)).
Proof.
  unfold merge. intros H.
  destruct (require left on) as [t|e] eqn:E1; simpl in H; [|discriminate].
  destruct (require right on) as [t'|e] eqn:E2; simpl in H; [|discriminate].
  destruct (suffix_dups _ _ _ _ || suffix_dups _ _ _ _); [discriminate|].
  injection H as <-. cbv zeta.
  split; [exact (require_inv _ _ _ E1)|]. split; [exact (require_inv _ _ _ E2)|].
  reflexivity.
Qed.

Lemma merge_all_columns d ds M :
  has_column d "unique_id" = true ->
  Forall (fun df => has_column df "unique_id" = true) ds ->
  mergeable (columns d) "unique_id" ds = true ->
  merge_all (d :: ds) = Ok M ->
  columns M = columns d ++ flat_map (fun df => without "unique_id" (columns df)) ds.
Proof.
  intros Hd Hds Hm H.
  destruct (merge_loop_columns ds d 0%nat Hd Hds Hm) as [M' [HM' Hc]].
  simpl in H. rewrite HM' in H. injection H as <-. exact Hc.
Qed.

(** *** The future run *)

Lemma run_future_stages overlay output_directory atomic mod_2050 ext_2080 f500yr out :
  run_future overlay output_directory atomic mod_2050 ext_2080 f500yr = Ok out ->
  exists M joined,
    has_column atomic "geometry" = true
    /\ layer_ok (overlay (atomic_with_area atomic) mod_2050) ["mod_2050"; "mo_20_fldC"]
       = true
    /\ layer_ok (overlay (atomic_with_area atomic) ext_2080) ["ext_2080"; "ex_20_fldC"]
       = true
    /\ layer_ok (overlay (atomic_with_area atomic) f500yr) ["500yr"] = true
    /\ merge_all (future_tables overlay atomic mod_2050 ext_2080 f500yr) = Ok M
    /\ columns M = "unique_id" :: future_reserved
    /\ merge (atomic_with_area atomic) M "unique_id" Left "_x" "_y" = Ok joined
    /\ forallb (has_column joined) ["area"; "mod_20A"; "ext_20A"; "500A"] = true
    /\ out = mkOutput
               (future_printed output_directory)
               (combine ["mod_2050_dissolved.csv"; "ext_2080_dissolved.csv";
                         "500yr_dissolved.csv"]
                        (future_tables overlay atomic mod_2050 ext_2080 f500yr))
               ("future_union.csv",
                mkDF (add_column (flag_columns ["mod_20A"; "ext_20A"; "500A"]
                                               (columns joined)) "BZ_future")
                     (map (fun r => union_row "BZ_future"
                                              ["mod_20Afg"; "ext_20Afg"; "500Afg"]
                                              (flag_rows ["mod_20A"; "ext_20A"; "500A"] r))
                          (rows joined))).
Proof.
  unfold run_future. intros H.
  destruct (with_area atomic) as [a|] eqn:Ea; cbn [bind] in H; [|discriminate].
  apply with_area_inv in Ea as [Hgeo ->].
  unfold shapefiles_future in H. cbn [mapMi] in H.
  unfold dissolve_future in H. cbn [flood_type flag_field Nat.leb] in H.
  destruct (bind (intersect overlay _ (mkShp mod_2050 "mod_2050" (Some "mo_20_fldC"))) _)
    as [T1|] eqn:E1; cbn [bind] in H; [|discriminate].
  destruct (bind (intersect overlay _ (mkShp ext_2080 "ext_2080" (Some "ex_20_fldC"))) _)
    as [T2|] eqn:E2; cbn [bind] in H; [|discriminate].
  destruct (bind (intersect overlay _ (mkShp f500yr "500yr" None)) _)
    as [T3|] eqn:E3; cbn [bind] in H; [|discriminate].
  apply (dissolve_inv overlay _ (mkShp mod_2050 "mod_2050" (Some "mo_20_fldC"))
                      [("mod_2050", First); ("mo_20_fldC", First)]) in E1
    as [L1 ->]; [|reflexivity].
  apply (dissolve_inv overlay _ (mkShp ext_2080 "ext_2080" (Some "ex_20_fldC"))
                      [("ext_2080", First); ("ex_20_fldC", First)]) in E2
    as [L2 ->]; [|reflexivity].
  apply (dissolve_inv overlay _ (mkShp f500yr "500yr" None) [("500yr", First)]) in E3
    as [L3 ->]; [|reflexivity].
  cbn [gdf flag_field map fst] in *.
  change (field_name "mod_2050") with "mod_20A" in *.
  change (field_name "ext_2080") with "ext_20A" in *.
  change (field_name "500yr") with "500A" in *.
  fold (future_tables overlay atomic mod_2050 ext_2080 f500yr) in H.
  destruct (merge_all (future_tables overlay atomic mod_2050 ext_2080 f500yr))
    as [M|] eqn:EM; cbn [bind] in H; [|discriminate].
  destruct (merge (atomic_with_area atomic) M "unique_id" Left "_x" "_y")
    as [joined|] eqn:Ej; cbn [bind] in H; [|discriminate].
  cbn [foldM] in H.
  destruct (area_flag joined "mod_20A") as [f1|] eqn:F1; cbn [bind] in H; [|discriminate].
  destruct (area_flag f1 "ext_20A") as [f2|] eqn:F2; cbn [bind] in H; [|discriminate].
  destruct (area_flag f2 "500A") as [f3|] eqn:F3; cbn [bind] in H; [|discriminate].
  pose proof (area_flag_requires _ _ _ F1) as [A1 N1].
  pose proof (area_flag_requires _ _ _ F2) as [_ N2].
  pose proof (area_flag_requires _ _ _ F3) as [_ N3].
  apply area_flag_inv in F1. subst f1. apply area_flag_inv in F2. subst f2.
  apply area_flag_inv in F3. subst f3.
  unfold has_column in N2, N3. cbn [columns] in N2, N3.
  repeat (rewrite mem_add_column in N2;
          cbn [String.eqb Ascii.eqb Bool.eqb String.append] in N2;
          rewrite orb_false_r in N2).
  repeat (rewrite mem_add_column in N3;
          cbn [String.eqb Ascii.eqb Bool.eqb String.append] in N3;
          rewrite orb_false_r in N3).
  rewrite union_Ok in H;
    [|unfold has_column; cbn [columns]; rewrite !mem_add_column;
      cbn [String.eqb Ascii.eqb Bool.eqb String.append];
      rewrite ?String.eqb_refl, ?orb_true_r; reflexivity ..].
  injection H as <-.
  exists M, joined.
  split; [exact Hgeo|]. split; [exact L1|]. split; [exact L2|]. split; [exact L3|].
  split; [reflexivity|].
  split.
  { pose proof EM as EM'. unfold future_tables in EM'.
    apply merge_all_columns in EM';
      [exact EM'|reflexivity|repeat constructor|reflexivity]. }
  split; [exact Ej|].
  split.
  - cbn [forallb]. fold (has_column joined "mod_20A") in N1.
    unfold has_column in *. rewrite A1, N1, N2, N3. reflexivity.
  - cbn [rows columns]. rewrite !map_map. reflexivity.
Qed.

(** *** The present run *)

Lemma dissolve_311_inv present_311 T :
  dissolve_311 present_311 = Ok T ->
  forallb (has_column present_311) ["unique_id"; "depcall"; "Point_Coun"] = true
  /\ T = points_table present_311.
Proof.
  unfold dissolve_311. intros H.
  apply groupby_agg_inv in H as [Hk [Ha ->]].
  cbn [forallb fst] in Ha.
  apply andb_prop in Ha as [Hd Hp]. apply andb_prop in Hp as [Hp _].
  unfold has_column, select in Hk, Hd, Hp. cbn [columns] in Hk, Hd, Hp.
  apply mem_true_iff, filter_In in Hk as [_ Hk].
  apply mem_true_iff, filter_In in Hd as [_ Hd].
  apply mem_true_iff, filter_In in Hp as [_ Hp].
  change (has_column present_311 "unique_id" = true) in Hk.
  change (has_column present_311 "depcall" = true) in Hd.
  change (has_column present_311 "Point_Coun" = true) in Hp.
  cbn [forallb filter]. rewrite Hk, Hd, Hp. split; reflexivity.
Qed.

Lemma run_present_stages overlay output_directory atomic present_311 mod_cur f100yr out :
  run_present overlay output_directory atomic present_311 mod_cur f100yr = Ok out ->
  exists M joined,
    has_column atomic "geometry" = true
    /\ layer_ok (overlay (atomic_with_area atomic) mod_cur) ["mod_cur"; "mo_cu_fldC"]
       = true
    /\ layer_ok (overlay (atomic_with_area atomic) f100yr) ["100yr"] = true
    /\ forallb (has_column present_311) ["unique_id"; "depcall"; "Point_Coun"] = true
    /\ merge_all (present_tables overlay atomic present_311 mod_cur f100yr) = Ok M
    /\ columns M = "unique_id" :: present_reserved
    /\ merge (atomic_with_area atomic) M "unique_id" Left "_x" "_y" = Ok joined
    /\ forallb (has_column joined) ["area"; "mod_cA"; "100A"] = true
    /\ out = mkOutput
               (present_printed output_directory)
               (combine ["mod_cur_dissolved.csv"; "100yr_dissolved.csv"]
                        (firstn 2 (present_tables overlay atomic present_311 mod_cur
                                                  f100yr)))
               ("present_union.csv",
                mkDF (add_column (flag_columns ["mod_cA"; "100A"]
                                    (add_column (columns joined) "depcaAfg"))
                                 "BZ_present")
                     (map (fun r => union_row "BZ_present"
                                      ["depcaAfg"; "mod_cAfg"; "100Afg"]
                                      (flag_rows ["mod_cA"; "100A"]
                                         ((if has_column joined "Point_Coun"
                                           then point_row
                                           else fun r => set_cell r "depcaAfg" (Int 0))
                                            r)))
                          (rows joined))).
Proof.
  unfold run_present. intros H.
  destruct (with_area atomic) as [a|] eqn:Ea; cbn [bind] in H; [|discriminate].
  apply with_area_inv in Ea as [Hgeo ->].
  unfold shapefiles_present in H. cbn [tl mapMi] in H.
  unfold dissolve_present in H. cbn [flag_field Nat.eqb] in H.
  destruct (bind (intersect overlay _ (mkShp mod_cur "mod_cur" None)) _)
    as [T1|] eqn:E1; cbn [bind] in H; [|discriminate].
  destruct (bind (intersect overlay _ (mkShp f100yr "100yr" None)) _)
    as [T2|] eqn:E2; cbn [bind] in H; [|discriminate].
  apply (dissolve_inv overlay _ (mkShp mod_cur "mod_cur" None)
                      [("mod_cur", First); ("mo_cu_fldC", First)]) in E1
    as [L1 ->]; [|reflexivity].
  apply (dissolve_inv overlay _ (mkShp f100yr "100yr" None) [("100yr", First)]) in E2
    as [L2 ->]; [|reflexivity].
  cbn [gdf flag_field map fst] in *.
  change (field_name "mod_cur") with "mod_cA" in *.
  change (field_name "100yr") with "100A" in *.
  destruct (dissolve_311 present_311) as [p|] eqn:Ep; cbn [bind] in H; [|discriminate].
  apply dissolve_311_inv in Ep as [Hp ->].
  cbn [app] in H.
  fold (present_tables overlay atomic present_311 mod_cur f100yr) in H.
  destruct (merge_all (present_tables overlay atomic present_311 mod_cur f100yr))
    as [M|] eqn:EM; cbn [bind] in H; [|discriminate].
  destruct (merge (atomic_with_area atomic) M "unique_id" Left "_x" "_y")
    as [joined|] eqn:Ej; cbn [bind] in H; [|discriminate].
  destruct (point_flag joined) as [pointed|] eqn:Epf; cbn [bind] in H; [|discriminate].
  apply point_flag_inv in Epf. subst pointed.
  cbn [foldM] in H.
  destruct (area_flag _ "mod_cA") as [f1|] eqn:F1; cbn [bind] in H; [|discriminate].
  destruct (area_flag f1 "100A") as [f2|] eqn:F2; cbn [bind] in H; [|discriminate].
  pose proof (area_flag_requires _ _ _ F1) as [A1 N1].
  pose proof (area_flag_requires _ _ _ F2) as [_ N2].
  apply area_flag_inv in F1. subst f1. apply area_flag_inv in F2. subst f2.
  unfold has_column in A1, N1, N2. cbn [columns] in A1, N1, N2.
  repeat (rewrite mem_add_column in A1;
          cbn [String.eqb Ascii.eqb Bool.eqb String.append] in A1;
          rewrite orb_false_r in A1).
  repeat (rewrite mem_add_column in N1;
          cbn [String.eqb Ascii.eqb Bool.eqb String.append] in N1;
          rewrite orb_false_r in N1).
  repeat (rewrite mem_add_column in N2;
          cbn [String.eqb Ascii.eqb Bool.eqb String.append] in N2;
          rewrite orb_false_r in N2).
  rewrite union_Ok in H;
    [|unfold has_column; cbn [columns]; rewrite !mem_add_column;
      cbn [String.eqb Ascii.eqb Bool.eqb String.append];
      rewrite ?String.eqb_refl, ?orb_true_r; reflexivity ..].
  injection H as <-.
  exists M, joined.
  split; [exact Hgeo|]. split; [exact L1|]. split; [exact L2|]. split; [exact Hp|].
  split; [reflexivity|].
  split.
  { pose proof EM as EM'. unfold present_tables in EM'.
    apply merge_all_columns in EM';
      [exact EM'|reflexivity|repeat constructor|reflexivity]. }
  split; [exact Ej|].
  split.
  - cbn [forallb]. unfold has_column. rewrite A1, N1, N2. reflexivity.
  - cbn [rows columns]. rewrite !map_map. reflexivity.
Qed.

(** *** The past run *)

Lemma mapM_dissolve_past_inv overlay a (ps : list (DataFrame * string)) : forall dfs,
  Forall (fun p : DataFrame * string =>
            forallb (fun c => negb (String.eqb c (field_name (snd p))))
                           ["unique_id"; snd p] = true) ps ->
  mapM (dissolve_past overlay a) (map (fun p => mkShp (fst p) (snd p) None) ps) = Ok dfs ->
  forallb (fun p => layer_ok (overlay a (fst p)) [snd p]) ps = true
  /\ dfs = map (fun p => dissolved (overlay a (fst p)) (field_name (snd p))
                                   [(snd p, First)]) ps.
Proof.
  induction ps as [|p ps IH]; intros dfs Hne H.
  - simpl in H. injection H as <-. split; reflexivity.
  - inversion Hne as [|? ? Hp Hps]; subst.
    cbn [map mapM] in H.
    destruct (dissolve_past overlay a _) as [T|] eqn:ET; cbn [bind] in H; [|discriminate].
    destruct (mapM _ _) as [Ts|] eqn:ETs; cbn [bind] in H; [|discriminate].
    injection H as <-.
    unfold dissolve_past in ET.
    apply (dissolve_inv overlay a (mkShp (fst p) (snd p) None) [(snd p, First)]) in ET
      as [L ->]; [|exact Hp].
    destruct (IH Ts Hps eq_refl) as [Ls ->].
    cbn [gdf flag_field map fst] in *. cbn [forallb]. rewrite L, Ls. split; reflexivity.
Qed.

Lemma past_flags_checked (layers : list DataFrame) :
  Forall (fun p : DataFrame * string =>
            forallb (fun c => negb (String.eqb c (field_name (snd p))))
                           ["unique_id"; snd p] = true)
         (combine layers past_flags).
Proof.
  apply Forall_forall. intros [l flag] Hp. apply in_combine_r in Hp. cbn [snd].
  assert (forallb (fun flag => forallb (fun c => negb (String.eqb c (field_name flag)))
                                       ["unique_id"; flag]) past_flags = true) as Hall
      by (vm_compute; reflexivity).
  rewrite forallb_forall in Hall. exact (Hall flag Hp).
Qed.

Lemma run_past_stages overlay output_directory atomic layers out :
  List.length layers = 10%nat ->
  run_past overlay output_directory atomic layers = Ok out ->
  exists M joined,
    has_column atomic "geometry" = true
    /\ forallb (fun p => layer_ok (overlay (atomic_with_area atomic) (fst p)) [snd p])
               (combine layers past_flags) = true
    /\ merge_all (past_tables overlay atomic layers) = Ok M
    /\ columns M = "unique_id" :: flat_map (fun flag => [field_name flag; flag]) past_flags
    /\ merge (atomic_with_area atomic) (with_past_sum M) "unique_id" Left "_x" "_y"
       = Ok joined
    /\ has_column joined "area" = true
    /\ has_column joined "past_sum" = true
    /\ out = mkOutput
               (past_printed output_directory)
               (combine (map (fun flag => (flag ++ "_dissolved.csv")%string) past_flags)
                        (past_tables overlay atomic layers))
               ("past_union.csv",
                mkDF (add_column (columns joined) "BZ_past")
                     (map (fun r => set_cell r "BZ_past"
                                      (area_flag_value (cell r "past_sum") (cell r "area")))
                          (rows joined))).
Proof.
  intros Hlen. unfold run_past. intros H.
  destruct (with_area atomic) as [a|] eqn:Ea; cbn [bind] in H; [|discriminate].
  apply with_area_inv in Ea as [Hgeo ->].
  unfold shapefiles_past in H.
  destruct (mapM _ _) as [dfs|] eqn:Ed; cbn [bind] in H; [|discriminate].
  apply mapM_dissolve_past_inv in Ed as [Hl ->]; [|apply past_flags_checked].
  fold (past_tables overlay atomic layers) in H.
  destruct (merge_all (past_tables overlay atomic layers)) as [M|] eqn:EM;
    cbn [bind] in H; [|discriminate].
  assert (map (fun shp : shapefile => field_name (flag_field shp))
              (map (fun p : DataFrame * string => mkShp (fst p) (snd p) None)
                   (combine layers past_flags)) = past_names) as Hnames.
  { destruct layers as [|l0 [|l1 [|l2 [|l3 [|l4 [|l5 [|l6 [|l7 [|l8 [|l9 [|l10 ls]]]]]]]]]]];
      try discriminate Hlen. reflexivity. }
  assert (map exported
              (map (fun p : DataFrame * string => mkShp (fst p) (snd p) None)
                   (combine layers past_flags))
          = map (fun flag => "Exported " ++ flag ++ "_dissolved.csv")%string past_flags)
    as Hexp.
  { destruct layers as [|l0 [|l1 [|l2 [|l3 [|l4 [|l5 [|l6 [|l7 [|l8 [|l9 [|l10 ls]]]]]]]]]]];
      try discriminate Hlen. reflexivity. }
  assert (map csv_name
              (map (fun p : DataFrame * string => mkShp (fst p) (snd p) None)
                   (combine layers past_flags))
          = map (fun flag => flag ++ "_dissolved.csv")%string past_flags) as Hcsv.
  { destruct layers as [|l0 [|l1 [|l2 [|l3 [|l4 [|l5 [|l6 [|l7 [|l8 [|l9 [|l10 ls]]]]]]]]]]];
      try discriminate Hlen. reflexivity. }
  rewrite Hnames, Hexp, Hcsv in H.
  destruct (mapM (require M) past_names) as [us|] eqn:Er; cbn [bind] in H; [|discriminate].
  rewrite assign_pure in H. cbn [bind] in H.
  fold (with_past_sum M) in H.
  destruct (merge (atomic_with_area atomic) (with_past_sum M) "unique_id" Left "_x" "_y")
    as [joined|] eqn:Ej; cbn [bind] in H; [|discriminate].
  destruct (require joined "area") as [t1|] eqn:R1; cbn [bind] in H; [|discriminate].
  destruct (require joined "past_sum") as [t2|] eqn:R2; cbn [bind] in H; [|discriminate].
  destruct (assign joined "BZ_past" _) as [final|] eqn:E; cbn [bind] in H; [|discriminate].
  apply (assign_inv _ _ _ (fun r => area_flag_value (cell r "past_sum") (cell r "area")))
    in E; [|intros r v; apply area_flag_cell_inv].
  subst final. injection H as <-.
  exists M, joined.
  split; [exact Hgeo|]. split; [exact Hl|]. split; [reflexivity|].
  split.
  { pose proof EM as EM'. unfold past_tables in EM'.
    destruct layers as [|l0 [|l1 [|l2 [|l3 [|l4 [|l5 [|l6 [|l7 [|l8 [|l9 [|l10 ls]]]]]]]]]]];
      try discriminate Hlen.
    cbn [combine past_flags map fst snd] in EM'.
    apply merge_all_columns in EM';
      [exact EM'|reflexivity|repeat constructor|vm_compute; reflexivity]. }
  split; [exact Ej|].
  split; [exact (require_inv _ _ _ R1)|]. split; [exact (require_inv _ _ _ R2)|].
  reflexivity.
Qed.

(** ** Names that a join renames *)

Lemma ends_with_app sfx d : ends_with sfx (d ++ sfx) = true.
Proof.
  induction d as [|a d IH].
  - destruct sfx; simpl; rewrite ?Ascii.eqb_refl, ?String.eqb_refl; reflexivity.
  - cbn [String.append ends_with]. rewrite IH. apply orb_true_r.
Qed.

Lemma mem_map_suffixed ov sfx cols c :
  mem c (map (suffixed ov sfx) cols) = true ->
  (mem c ov = false /\ mem c cols = true) \/ ends_with sfx c = true.
Proof.
  intros H. apply mem_true_iff, in_map_iff in H as [d [Hd Hin]].
  unfold suffixed in Hd. destruct (mem d ov) eqn:E.
  - right. subst c. apply ends_with_app.
  - left. subst d. split; [exact E|apply mem_true_iff; exact Hin].
Qed.

(** A label that both tables of a join have, other than the key, is not a
    label of the result: both copies are renamed. *)
Lemma merge_hides left right on h s1 s2 j c :
  merge left right on h s1 s2 = Ok j ->
  has_column left c = true ->
  has_column right c = true ->
  c <> on ->
  ends_with s1 c = false ->
  ends_with s2 c = false ->
  has_column j c = false.
Proof.
  intros H Hl Hr Hne E1 E2. apply merge_inv in H as [_ [_ Hc]].
  unfold has_column. rewrite Hc, mem_app.
  assert (mem c (overlapping (columns left) (without on (columns right))) = true) as Hov.
  { apply mem_true_iff. unfold overlapping. apply filter_In. split.
    - apply mem_true_iff. exact Hl.
    - rewrite mem_without. unfold has_column in Hr. rewrite Hr.
      apply String.eqb_neq in Hne. rewrite Hne. reflexivity. }
  apply orb_false_intro.
  - destruct (mem c (map _ (columns left))) eqn:E; [|reflexivity].
    apply mem_map_suffixed in E as [[E _]|E]; congruence.
  - destruct (mem c (map _ (without on (columns right)))) eqn:E; [|reflexivity].
    apply mem_map_suffixed in E as [[E _]|E]; congruence.
Qed.

(** The two copies are in the result under their suffixed names. *)
Lemma merge_renames left right on h s1 s2 j c :
  merge left right on h s1 s2 = Ok j ->
  has_column left c = true ->
  has_column right c = true ->
  c <> on ->
  has_column j (c ++ s1) = true /\ has_column j (c ++ s2) = true.
Proof.
  intros H Hl Hr Hne. apply merge_inv in H as [_ [_ Hc]].
  unfold has_column. rewrite Hc, !mem_app.
  assert (mem c (without on (columns right)) = true) as Hr'.
  { rewrite mem_without. unfold has_column in Hr. rewrite Hr.
    apply String.eqb_neq in Hne. rewrite Hne. reflexivity. }
  assert (mem c (overlapping (columns left) (without on (columns right))) = true) as Hov.
  { apply mem_true_iff. unfold overlapping. apply filter_In. split.
    - apply mem_true_iff. exact Hl.
    - exact Hr'. }
  split.
  - apply orb_true_intro. left. apply mem_true_iff, in_map_iff. exists c.
    split; [unfold suffixed; rewrite Hov; reflexivity|apply mem_true_iff; exact Hl].
  - apply orb_true_intro. right. apply mem_true_iff, in_map_iff. exists c.
    split; [unfold suffixed; rewrite Hov; reflexivity|apply mem_true_iff; exact Hr'].
Qed.

Lemma has_column_atomic_with_area atomic c :
  has_column (atomic_with_area atomic) c = has_column atomic c || String.eqb c "area".
Proof. unfold has_column, atomic_with_area. cbn [columns]. apply mem_add_column. Qed.

Lemma result_cases {X : Type} (m : result X) :
  (forall x, m <> Ok x) -> exists e, m = Err e.
Proof. intros H. destruct m as [x|e]; [destruct (H x eq_refl)|exists e; reflexivity]. Qed.

(** ** The columns a run needs *)

(** X1.  A run of an epoch script succeeds only when the zone table has
    the columns [geometry] and [unique_id] and every overlay result has
    the columns the script reads from it: [geometry], [unique_id], the
    layer's flag field and, for the layers that have one, the flood class
    ([mo_20_fldC], [ex_20_fldC], [mo_cu_fldC]); the 311 layer needs
    [unique_id], [depcall] and [Point_Coun]. *)
Theorem runs_need_their_columns :
  (forall overlay output_directory atomic mod_2050 ext_2080 f500yr out,
      run_future overlay output_directory atomic mod_2050 ext_2080 f500yr = Ok out ->
      has_column atomic "geometry" = true
      /\ has_column atomic "unique_id" = true
      /\ layer_ok (overlay (atomic_with_area atomic) mod_2050)
                  ["mod_2050"; "mo_20_fldC"] = true
      /\ layer_ok (overlay (atomic_with_area atomic) ext_2080)
                  ["ext_2080"; "ex_20_fldC"] = true
      /\ layer_ok (overlay (atomic_with_area atomic) f500yr) ["500yr"] = true)
  /\ (forall overlay output_directory atomic present_311 mod_cur f100yr out,
         run_present overlay output_directory atomic present_311 mod_cur f100yr = Ok out ->
         has_column atomic "geometry" = true
         /\ has_column atomic "unique_id" = true
         /\ layer_ok (overlay (atomic_with_area atomic) mod_cur)
                     ["mod_cur"; "mo_cu_fldC"] = true
         /\ layer_ok (overlay (atomic_with_area atomic) f100yr) ["100yr"] = true
         /\ forallb (has_column present_311) ["unique_id"; "depcall"; "Point_Coun"]
            = true)
  /\ (forall overlay output_directory atomic layers out,
         List.length layers = 10%nat ->
         run_past overlay output_directory atomic layers = Ok out ->
         has_column atomic "geometry" = true
         /\ has_column atomic "unique_id" = true
         /\ forallb (fun p => layer_ok (overlay (atomic_with_area atomic) (fst p)) [snd p])
                    (combine layers past_flags) = true).
Proof.
  assert (forall atomic M joined,
             merge (atomic_with_area atomic) M "unique_id" Left "_x" "_y" = Ok joined ->
             has_column atomic "unique_id" = true) as Hkey.
  { intros atomic M joined Ej. apply merge_inv in Ej as [Hk _].
    rewrite has_column_atomic_with_area, orb_false_r in Hk. exact Hk. }
  split; [|split].
  - intros overlay output_directory atomic mod_2050 ext_2080 f500yr out Hrun.
    destruct (run_future_stages _ _ _ _ _ _ _ Hrun)
      as [M [joined [Hgeo [L1 [L2 [L3 [_ [_ [Ej _]]]]]]]]].
    repeat split; try assumption. exact (Hkey _ _ _ Ej).
  - intros overlay output_directory atomic present_311 mod_cur f100yr out Hrun.
    destruct (run_present_stages _ _ _ _ _ _ _ Hrun)
      as [M [joined [Hgeo [L1 [L2 [Hp [_ [_ [Ej _]]]]]]]]].
    repeat split; try assumption. exact (Hkey _ _ _ Ej).
  - intros overlay output_directory atomic layers out Hlen Hrun.
    destruct (run_past_stages _ _ _ _ _ Hlen Hrun)
      as [M [joined [Hgeo [Hl [_ [_ [Ej _]]]]]]].
    repeat split; try assumption. exact (Hkey _ _ _ Ej).
Qed.

(** On the example data the three runs succeed, and the inputs have the
    columns. *)
Lemma runs_need_their_columns_witness :
  (has_column Example.atomic "geometry" = true
   /\ has_column Example.atomic "unique_id" = true
   /\ layer_ok Example.mod_2050 ["mod_2050"; "mo_20_fldC"] = true
   /\ layer_ok Example.ext_2080 ["ext_2080"; "ex_20_fldC"] = true
   /\ layer_ok Example.f500yr ["500yr"] = true)
  /\ forallb (has_column Example.present_311) ["unique_id"; "depcall"; "Point_Coun"] = true
  /\ forallb (fun p => layer_ok (fst p) [snd p]) (combine Example.past_layers past_flags)
     = true.
Proof.
  destruct runs_need_their_columns as [F [P Pa]].
  split; [|split].
  - destruct (run_future Example.overlay "out" Example.atomic Example.mod_2050
                         Example.ext_2080 Example.f500yr) as [out|e] eqn:Hrun;
      [|vm_compute in Hrun; discriminate Hrun].
    exact (F _ _ _ _ _ _ _ Hrun).
  - destruct (run_present Example.overlay "out" Example.atomic Example.present_311
                          Example.mod_cur Example.f100yr) as [out|e] eqn:Hrun;
      [|vm_compute in Hrun; discriminate Hrun].
    exact (proj2 (proj2 (proj2 (proj2 (P _ _ _ _ _ _ _ Hrun))))).
  - destruct (run_past Example.overlay "out" Example.atomic Example.past_layers)
      as [out|e] eqn:Hrun; [|vm_compute in Hrun; discriminate Hrun].
    exact (proj2 (proj2 (Pa Example.overlay "out" Example.atomic Example.past_layers out
                            eq_refl Hrun))).
Defined.

(** ** Zone tables that already have a column of the results *)

(** X2.  A zone table that already has a column named like a layer's
    aggregate ([mod_20A], [ext_20A], [500A]; [mod_cA], [100A]) makes the
    run fail: the left join renames both copies ([_x], [_y]) and the
    threshold step finds no column of that name.  In the past epoch the
    same holds for a column named [past_sum]. *)
Theorem aggregate_names_are_reserved :
  (forall overlay output_directory atomic mod_2050 ext_2080 f500yr n,
      In n ["mod_20A"; "ext_20A"; "500A"] ->
      has_column atomic n = true ->
      exists e,
        run_future overlay output_directory atomic mod_2050 ext_2080 f500yr = Err e)
  /\ (forall overlay output_directory atomic present_311 mod_cur f100yr n,
         In n ["mod_cA"; "100A"] ->
         has_column atomic n = true ->
         exists e,
           run_present overlay output_directory atomic present_311 mod_cur f100yr
           = Err e)
  /\ (forall overlay output_directory atomic layers,
         List.length layers = 10%nat ->
         has_column atomic "past_sum" = true ->
         exists e, run_past overlay output_directory atomic layers = Err e).
Proof.
  split; [|split].
  - intros overlay output_directory atomic mod_2050 ext_2080 f500yr n Hn Ha.
    apply result_cases. intros out Hrun.
    destruct (run_future_stages _ _ _ _ _ _ _ Hrun)
      as [M [joined [_ [_ [_ [_ [_ [HcM [Ej [Hcols _]]]]]]]]]].
    assert (has_column joined n = true) as Hj.
    { rewrite forallb_forall in Hcols. apply Hcols. right. exact Hn. }
    assert (has_column joined n = false) as Hj'.
    { apply (merge_hides _ _ _ _ _ _ _ n Ej).
      - rewrite has_column_atomic_with_area, Ha. reflexivity.
      - unfold has_column. rewrite HcM.
        destruct Hn as [<-|[<-|[<-|[]]]]; reflexivity.
      - destruct Hn as [<-|[<-|[<-|[]]]]; discriminate.
      - destruct Hn as [<-|[<-|[<-|[]]]]; reflexivity.
      - destruct Hn as [<-|[<-|[<-|[]]]]; reflexivity. }
    congruence.
  - intros overlay output_directory atomic present_311 mod_cur f100yr n Hn Ha.
    apply result_cases. intros out Hrun.
    destruct (run_present_stages _ _ _ _ _ _ _ Hrun)
      as [M [joined [_ [_ [_ [_ [_ [HcM [Ej [Hcols _]]]]]]]]]].
    assert (has_column joined n = true) as Hj.
    { rewrite forallb_forall in Hcols. apply Hcols. right. exact Hn. }
    assert (has_column joined n = false) as Hj'.
    { apply (merge_hides _ _ _ _ _ _ _ n Ej).
      - rewrite has_column_atomic_with_area, Ha. reflexivity.
      - unfold has_column. rewrite HcM.
        destruct Hn as [<-|[<-|[]]]; reflexivity.
      - destruct Hn as [<-|[<-|[]]]; discriminate.
      - destruct Hn as [<-|[<-|[]]]; reflexivity.
      - destruct Hn as [<-|[<-|[]]]; reflexivity. }
    congruence.
  - intros overlay output_directory atomic layers Hlen Ha.
    apply result_cases. intros out Hrun.
    destruct (run_past_stages _ _ _ _ _ Hlen Hrun)
      as [M [joined [_ [_ [_ [HcM [Ej [_ [Hps _]]]]]]]]].
    assert (has_column joined "past_sum" = false) as Hj'.
    { apply (merge_hides _ _ _ _ _ _ _ "past_sum" Ej).
      - rewrite has_column_atomic_with_area, Ha. reflexivity.
      - unfold has_column, with_past_sum. cbn [columns].
        rewrite mem_add_column, String.eqb_refl. apply orb_true_r.
      - discriminate.
      - reflexivity.
      - reflexivity. }
    congruence.
Qed.

(** The example zones with a column [mod_20A] of their own: the run stops
    with [KeyError: 'mod_20A']. *)
Lemma aggregate_names_are_reserved_witness :
  (exists e, run_future Example.overlay "out" (Sample.atomic_with "mod_20A")
                        Example.mod_2050 Example.ext_2080 Example.f500yr = Err e)
  /\ run_future Example.overlay "out" (Sample.atomic_with "mod_20A")
                Example.mod_2050 Example.ext_2080 Example.f500yr
     = Err (KeyError "mod_20A")
  /\ (exists e, run_present Example.overlay "out" (Sample.atomic_with "100A")
                            Example.present_311 Example.mod_cur Example.f100yr = Err e)
  /\ (exists e, run_past Example.overlay "out" (Sample.atomic_with "past_sum")
                         Example.past_layers = Err e).
Proof.
  destruct aggregate_names_are_reserved as [F [P Pa]].
  split; [|split; [|split]].
  - apply (F Example.overlay "out" (Sample.atomic_with "mod_20A") _ _ _ "mod_20A");
      [simpl; tauto|reflexivity].
  - vm_compute. reflexivity.
  - apply (P Example.overlay "out" (Sample.atomic_with "100A") _ _ _ "100A");
      [simpl; tauto|reflexivity].
  - apply (Pa Example.overlay "out" (Sample.atomic_with "past_sum"));
      [reflexivity|reflexivity].
Defined.

(** X3.  A zone table with an attribute [Point_Coun] of its own silences
    the 311 rule: the left join renames both copies ([Point_Coun_x],
    [Point_Coun_y]), the final table has no column [Point_Coun], the test
    ['Point_Coun' in final_df.columns] is false, and [depcaAfg] is 0 in
    every row of a run that succeeds, whatever the 311 layer says. *)
Theorem zone_point_count_silences_311 :
  forall overlay output_directory atomic present_311 mod_cur f100yr out,
    has_column atomic "Point_Coun" = true ->
    run_present overlay output_directory atomic present_311 mod_cur f100yr = Ok out ->
    has_column (final_df out) "Point_Coun" = false
    /\ has_column (final_df out) "Point_Coun_x" = true
    /\ has_column (final_df out) "Point_Coun_y" = true
    /\ Forall (fun r => cell r "depcaAfg" = Int 0) (rows (final_df out)).
Proof.
  intros overlay output_directory atomic present_311 mod_cur f100yr out Ha Hrun.
  destruct (run_present_stages _ _ _ _ _ _ _ Hrun)
    as [M [joined [_ [_ [_ [_ [_ [HcM [Ej [_ ->]]]]]]]]]].
  assert (has_column (atomic_with_area atomic) "Point_Coun" = true) as Hl
      by (rewrite has_column_atomic_with_area, Ha; reflexivity).
  assert (has_column M "Point_Coun" = true) as Hr
      by (unfold has_column; rewrite HcM; reflexivity).
  assert (has_column joined "Point_Coun" = false) as Hj.
  { apply (merge_hides _ _ _ _ _ _ _ "Point_Coun" Ej Hl Hr);
      [discriminate|reflexivity|reflexivity]. }
  destruct (merge_renames _ _ _ _ _ _ _ "Point_Coun" Ej Hl Hr) as [Hx Hy];
    [discriminate|].
  cbn [String.append] in Hx, Hy.
  unfold final_df. cbn [final_csv snd]. rewrite Hj.
  unfold has_column in *. cbn [columns rows flag_columns fold_left].
  repeat split.
  - rewrite !mem_add_column, Hj. reflexivity.
  - rewrite !mem_add_column, Hx. reflexivity.
  - rewrite !mem_add_column, Hy. reflexivity.
  - apply Forall_map_rows. intros r.
    unfold union_row, flag_rows, flag_row. cbn [fold_left]. cells. reflexivity.
Qed.

(** The example zones with an attribute [Point_Coun]: Z3 has three 311
    records with [Point_Coun] 3, and its 311 flag is 0. *)
Lemma zone_point_count_silences_311_witness :
  exists out,
    run_present Example.overlay "out" (Sample.atomic_with "Point_Coun")
                Example.present_311 Example.mod_cur Example.f100yr = Ok out
    /\ point_count Example.present_311 (Str "Z3") = Int 3
    /\ Forall (fun r => cell r "depcaAfg" = Int 0) (rows (final_df out)).
Proof.
  destruct (run_present Example.overlay "out" (Sample.atomic_with "Point_Coun")
                        Example.present_311 Example.mod_cur Example.f100yr)
    as [out|e] eqn:Hrun; [|vm_compute in Hrun; discriminate Hrun].
  exists out. split; [reflexivity|]. split; [reflexivity|].
  exact (proj2 (proj2 (proj2
           (zone_point_count_silences_311
              Example.overlay "out" (Sample.atomic_with "Point_Coun")
              Example.present_311 Example.mod_cur Example.f100yr out eq_refl Hrun)))).
Defined.

(** ** The per-layer CSV files *)

Lemma dissolved_dissolves I n rest :
  n <> "unique_id" -> dissolves I n (dissolved I n rest).
Proof.
  intros Hne. unfold dissolves. split; [apply dissolved_ok|]. split; [|split].
  - unfold keys_of, dissolved, grouped. cbn [rows]. rewrite map_map.
    apply Forall_forall. intros k Hk. apply in_map_iff in Hk as [k' [<- Hk']].
    rewrite cell_agg_row_key. eapply group_keys_notna. exact Hk'.
  - intros k. pose proof (matches_dissolved_nil I n rest Hne k) as [H1 H2]. split.
    + intros Ht Hm. rewrite (H1 Hm) in Ht. discriminate.
    + intros Hm. destruct (touched I "unique_id" k) eqn:E; [reflexivity|].
      destruct (Hm (H2 eq_refl)).
  - intros k. apply lookup_dissolved. exact Hne.
Qed.



(** ** The order of the rows of the per-layer CSV files *)

Lemma key_leb_total a b :
  plain_key a = true -> plain_key b = true ->
  key_leb a b = true \/ key_leb b a = true.
Proof.
  assert (forall x y, Qle_bool x y = true \/ Qle_bool y x = true) as HQ.
  { intros x y. destruct (Qlt_le_dec x y) as [H|H].
    - left. apply Qle_bool_iff, Qlt_le_weak. exact H.
    - right. apply Qle_bool_iff. exact H. }
  destruct a, b; simpl; intros Ha Hb; try discriminate; auto.
  apply String.leb_total.
Qed.

Lemma ascending_cons k ks : ascending (k :: ks) <-> head_above k ks /\ ascending ks.
Proof. destruct ks; simpl; tauto. Qed.

Lemma insert_ascending x ks :
  plain_key x = true ->
  Forall (fun k => plain_key k = true) ks ->
  ascending ks ->
  ascending (insert_by (fun k => k) x ks)
  /\ forall y, key_leb y x = true -> head_above y ks ->
               head_above y (insert_by (fun k => k) x ks).
Proof.
  intros Hx Hks. induction ks as [|k ks IH]; intros Ha.
  - simpl. auto.
  - inversion Hks as [|? ? Hk Hks']; subst.
    apply ascending_cons in Ha as [Hh Ha].
    destruct (IH Hks' Ha) as [IH1 IH2].
    cbn [insert_by]. destruct (key_leb x k) eqn:E.
    + split.
      * apply ascending_cons. split; [exact E|]. apply ascending_cons. auto.
      * intros y Hy _. exact Hy.
    + split.
      * apply ascending_cons. split; [|exact IH1].
        apply IH2; [|exact Hh].
        destruct (key_leb_total x k Hx Hk) as [H|H]; [congruence|exact H].
      * intros y _ Hy. exact Hy.
Qed.

Lemma sort_ascending ks :
  Forall (fun k => plain_key k = true) ks -> ascending (sort_by (fun k => k) ks).
Proof.
  induction ks as [|k ks IH]; intros H; [exact I|].
  inversion H as [|? ? Hk Hks]; subst. cbn [sort_by fold_right].
  apply insert_ascending; [exact Hk| |apply IH; exact Hks].
  apply Forall_sort_by. exact Hks.
Qed.

Lemma dissolved_ascending I n rest :
  n <> "unique_id" -> plain_keys I -> ascending (keys_of (dissolved I n rest)).
Proof.
  intros Hne Hp.
  assert (keys_of (dissolved I n rest)
          = group_keys (with_fragment_area I n) "unique_id") as ->.
  { unfold keys_of, dissolved, grouped. cbn [rows]. rewrite map_map.
    rewrite <- (map_id (group_keys _ _)) at 2. apply map_ext. intros k.
    apply cell_agg_row_key. }
  unfold group_keys. apply sort_ascending.
  apply Forall_forall. intros k Hk. apply distinct_keys_In in Hk.
  unfold present_keys in Hk. apply filter_In in Hk as [Hk Hna].
  unfold with_fragment_area in Hk. cbn [rows] in Hk. rewrite map_map in Hk.
  apply in_map_iff in Hk as [r [<- Hr]].
  rewrite cell_set_cell in *.
  assert (String.eqb "unique_id" n = false) as E
      by (apply String.eqb_neq; congruence).
  rewrite E in *.
  unfold plain_keys, keys_of in Hp. rewrite Forall_forall in Hp.
  apply Hp; [apply (in_map (fun r => cell r "unique_id")); exact Hr|].
  destruct (isna (cell r "unique_id")); [discriminate|reflexivity].
Qed.

(** X5.  In every run that succeeds, the rows of each per-layer CSV file
    come in ascending order of [unique_id] (numbers by value, strings in
    lexicographic order, numbers before strings), whatever the order of
    the fragments, when the ids are strings or numbers. *)
Theorem dissolved_csv_is_sorted :
  (forall overlay output_directory atomic mod_2050 ext_2080 f500yr out,
      run_future overlay output_directory atomic mod_2050 ext_2080 f500yr = Ok out ->
      plain_keys (overlay (atomic_with_area atomic) mod_2050) ->
      plain_keys (overlay (atomic_with_area atomic) ext_2080) ->
      plain_keys (overlay (atomic_with_area atomic) f500yr) ->
      Forall (fun csv => ascending (keys_of (snd csv))) (dissolved_csv out))
  /\ (forall overlay output_directory atomic present_311 mod_cur f100yr out,
         run_present overlay output_directory atomic present_311 mod_cur f100yr = Ok out ->
         plain_keys (overlay (atomic_with_area atomic) mod_cur) ->
         plain_keys (overlay (atomic_with_area atomic) f100yr) ->
         Forall (fun csv => ascending (keys_of (snd csv))) (dissolved_csv out))
  /\ (forall overlay output_directory atomic layers out,
         List.length layers = 10%nat ->
         run_past overlay output_directory atomic layers = Ok out ->
         Forall plain_keys (past_fragments overlay atomic layers) ->
         Forall (fun csv => ascending (keys_of (snd csv))) (dissolved_csv out)).
Proof.
  split; [|split].
  - intros overlay output_directory atomic mod_2050 ext_2080 f500yr out Hrun P1 P2 P3.
    destruct (run_future_stages _ _ _ _ _ _ _ Hrun)
      as [M [joined [_ [_ [_ [_ [_ [_ [_ [_ ->]]]]]]]]]].
    unfold future_tables. cbn [dissolved_csv combine].
    repeat (apply Forall_cons; [apply dissolved_ascending; [discriminate|assumption]|]).
    apply Forall_nil.
  - intros overlay output_directory atomic present_311 mod_cur f100yr out Hrun P1 P2.
    destruct (run_present_stages _ _ _ _ _ _ _ Hrun)
      as [M [joined [_ [_ [_ [_ [_ [_ [_ [_ ->]]]]]]]]]].
    unfold present_tables. cbn [dissolved_csv combine firstn].
    repeat (apply Forall_cons; [apply dissolved_ascending; [discriminate|assumption]|]).
    apply Forall_nil.
  - intros overlay output_directory atomic layers out Hlen Hrun Hp.
    destruct (run_past_stages _ _ _ _ _ Hlen Hrun)
      as [M [joined [_ [_ [_ [_ [_ [_ [_ ->]]]]]]]]].
    cbn [dissolved_csv]. apply Forall_forall. intros [nm T] Hin.
    apply in_combine_r in Hin. unfold past_tables in Hin.
    apply in_map_iff in Hin as [[l flag] [<- Hp']]. cbn [snd fst].
    apply dissolved_ascending; [apply field_name_not_key|].
    rewrite Forall_forall in Hp. apply Hp. unfold past_fragments.
    apply in_map. apply in_combine_l in Hp'. exact Hp'.
Qed.

(** On the example data: the fragments of the moderate-2050 layer come in
    the order Z1, Z2, Z1; the file has Z1 before Z2. *)
Lemma dissolved_csv_is_sorted_witness :
  exists out,
    run_future Example.overlay "out" Example.atomic Example.mod_2050
               Example.ext_2080 Example.f500yr = Ok out
    /\ keys_of Example.mod_2050 = [Str "Z1"; Str "Z2"; Str "Z1"]
    /\ Forall (fun csv => ascending (keys_of (snd csv))) (dissolved_csv out).
Proof.
  destruct (run_future Example.overlay "out" Example.atomic Example.mod_2050
                       Example.ext_2080 Example.f500yr) as [out|e] eqn:Hrun;
    [|vm_compute in Hrun; discriminate Hrun].
  exists out. split; [reflexivity|]. split; [reflexivity|].
  apply (proj1 dissolved_csv_is_sorted
           Example.overlay "out" Example.atomic Example.mod_2050
           Example.ext_2080 Example.f500yr out Hrun);
    unfold plain_keys; apply Forall_forall; intros k Hk _;
    vm_compute in Hk; repeat (destruct Hk as [<-|Hk]; [reflexivity|]); destruct Hk.
Defined.

(** ** Zones that no layer touches *)

Lemma untouched_existsb tables z :
  untouched tables z ->
  existsb (fun I => touched I "unique_id" (cell z "unique_id")) tables = false.
Proof.
  unfold untouched. induction tables as [|I tables IH]; intros H; [reflexivity|].
  inversion H as [|? ? HI Ht]; subst. simpl. rewrite HI. apply IH. exact Ht.
Qed.



(** ** The epoch flag in terms of the inputs *)

Ltac eval_union :=
  match goal with
  | |- context [union_value ?l] =>
      let v := eval vm_compute in (union_value l) in change (union_value l) with v
  end.

Lemma astype_at_least_3 v :
  (astype_int (at_least_3 v) = Int 1 <-> counts_at_least_3 v)
  /\ (astype_int (at_least_3 v) = Int 0 <-> ~ counts_at_least_3 v).
Proof.
  rewrite <- at_least_3_iff.
  destruct (at_least_3 v); simpl; split; split; intros; try reflexivity;
    try discriminate; congruence.
Qed.



(** ** The past sum and the single layers *)

Lemma fold_left_Qplus_ge l : forall acc x,
  Forall (fun q => 0 <= q) l ->
  acc <= fold_left Qplus l acc
  /\ (In x l -> 0 <= acc -> x <= fold_left Qplus l acc).
Proof.
  induction l as [|q l IH]; intros acc x Hl.
  - simpl. split; [apply Qle_refl|intros []].
  - inversion Hl as [|? ? Hq Hl']; subst. cbn [fold_left].
    destruct (IH (acc + q) x Hl') as [IH1 IH2]. split.
    + eapply Qle_trans; [|exact IH1].
      rewrite <- (Qplus_0_r acc) at 1. apply Qplus_le_compat; [apply Qle_refl|exact Hq].
    + intros [->|Hin] Hacc.
      * eapply Qle_trans; [|exact IH1].
        rewrite <- (Qplus_0_l x) at 1. apply Qplus_le_compat; [exact Hacc|apply Qle_refl].
      * apply IH2; [exact Hin|].
        rewrite <- (Qplus_0_r 0). apply Qplus_le_compat; assumption.
Qed.

Lemma agg_sum_ge vs x :
  Forall (fun q => 0 <= q) (numbers vs) ->
  In x (numbers vs) ->
  exists s, agg_sum vs = Float s /\ x <= s /\ 0 <= s.
Proof.
  intros Hn Hx. unfold agg_sum. eexists. split; [reflexivity|].
  destruct (fold_left_Qplus_ge (numbers vs) 0 x Hn) as [H0 H1].
  split; [apply H1; [exact Hx|apply Qle_refl]|exact H0].
Qed.

Lemma overlap_area_nonneg I k a :
  nonneg_areas I -> to_Q (overlap_area I k) = Some a -> 0 <= a.
Proof.
  intros Hn H. unfold overlap_area in H.
  destruct (touched I "unique_id" k); [|discriminate].
  unfold agg_sum in H. cbn [to_Q] in H. injection H as <-.
  refine (proj1 (fold_left_Qplus_ge _ 0 0 _)).
  apply Forall_forall. intros q Hq. unfold numbers in Hq.
  apply in_flat_map in Hq as [v [Hv Hq]].
  apply in_map_iff in Hv as [f [<- Hf]]. apply matches_In in Hf as [Hf _].
  unfold nonneg_areas in Hn. rewrite Forall_forall in Hn.
  destruct (Hn f Hf) as [b [Hb Hb0]]. rewrite Hb in Hq. simpl in Hq.
  destruct Hq as [<-|[]]. exact Hb0.
Qed.

Lemma past_sum_dominates Is k area :
  Forall nonneg_areas Is ->
  Exists (fun I => reaches_threshold (overlap_area I k) area) Is ->
  area_flag_value (past_sum_value Is k) area = Int 1.
Proof.
  intros Hn Hex. apply Exists_exists in Hex as [I0 [HI0 [a [z [Ha [Hz Hle]]]]]].
  assert (touched I0 "unique_id" k = true) as Ht.
  { unfold overlap_area in Ha. destruct (touched I0 "unique_id" k);
      [reflexivity|discriminate]. }
  unfold past_sum_value.
  assert (existsb (fun I => touched I "unique_id" k) Is = true) as ->
      by (apply existsb_exists; exists I0; split; assumption).
  destruct (agg_sum_ge (map (fun I => overlap_area I k) Is) a) as [s [Hs [Has _]]].
  - apply Forall_forall. intros q Hq. unfold numbers in Hq.
    apply in_flat_map in Hq as [v [Hv Hq]]. apply in_map_iff in Hv as [I [<- HI]].
    rewrite Forall_forall in Hn.
    destruct (to_Q (overlap_area I k)) as [b|] eqn:Eb; [|destruct Hq].
    destruct Hq as [<-|[]]. exact (overlap_area_nonneg I k b (Hn I HI) Eb).
  - unfold numbers. apply in_flat_map. exists (overlap_area I0 k).
    split; [apply (in_map (fun I => overlap_area I k)); exact HI0|].
    rewrite Ha. left. reflexivity.
  - rewrite Hs. unfold area_flag_value. cbn [to_Q]. rewrite Hz.
    assert (Qle_bool ((1 # 10) * z) s = true) as ->; [|reflexivity].
    apply Qle_bool_iff. eapply Qle_trans; [exact Hle|exact Has].
Qed.



(** ** The columns of the final table *)

Lemma cell_flag_rows_other names r c :
  (forall n, In n names -> c <> (n ++ "fg")%string) ->
  cell (flag_rows names r) c = cell r c.
Proof.
  unfold flag_rows. revert r. induction names as [|n names IH]; intros r H; [reflexivity|].
  cbn [fold_left]. rewrite IH by (intros n' Hn'; apply H; right; exact Hn').
  unfold flag_row. apply cell_set_cell_other. apply H. left. reflexivity.
Qed.

Lemma cell_union_row_other name flags r c :
  c <> name -> cell (union_row name flags r) c = cell r c.
Proof.
  intros H. unfold union_row. rewrite !cell_set_cell_other by exact H. reflexivity.
Qed.

Lemma cell_joined_row_zone M z c :
  mem c (labels z) = true -> c <> "area" -> cell (joined_row M z) c = cell z c.
Proof.
  intros Hc Hne. rewrite cell_joined_row_left by (rewrite mem_add_column, Hc; reflexivity).
  unfold area_row. apply cell_set_cell_other. exact Hne.
Qed.

Ltac not_listed Hn :=
  let E := fresh "E" in intros E; apply Hn; rewrite E; simpl; intuition.



Lemma add_column_new cols c : mem c cols = false -> add_column cols c = cols ++ [c].
Proof. intros H. unfold add_column. rewrite H. reflexivity. Qed.

Lemma NoDup_append (l1 l2 : list string) :
  NoDup l1 -> NoDup l2 -> (forall c, In c l2 -> ~ In c l1) -> NoDup (l1 ++ l2).
Proof.
  intros H1 H2 Hd. induction H1 as [|c l1 Hc H1 IH]; [exact H2|].
  cbn [app]. constructor.
  - intros Hin. apply in_app_or in Hin as [Hin|Hin]; [exact (Hc Hin)|].
    apply (Hd c Hin). left. reflexivity.
  - apply IH. intros d Hd2 Hd1. apply (Hd d Hd2). right. exact Hd1.
Qed.

Lemma fresh_names atomic names :
  forallb (fun c => negb (has_column atomic c)) names = true ->
  forall c, In c names -> mem c (columns atomic) = false.
Proof.
  intros H c Hc. rewrite forallb_forall in H. specialize (H c Hc).
  apply negb_true_iff in H. exact H.
Qed.

Ltac append_column H c :=
  rewrite (add_column_new _ c)
    by (rewrite ?mem_app; rewrite (H c) by (simpl; intuition); reflexivity).



(** ** The names of the aggregate columns *)

Lemma substring_prefix p s : substring 0 (String.length p) (p ++ s) = p.
Proof.
  induction p as [|a p IH]; simpl.
  - destruct s; reflexivity.
  - rewrite IH. reflexivity.
Qed.

Lemma length_append p s : String.length (p ++ s) = (String.length p + String.length s)%nat.
Proof. induction p as [|a p IH]; simpl; [reflexivity|]. rewrite IH. reflexivity. Qed.

Lemma length_substring n : forall t,
  (n <= String.length t)%nat -> String.length (substring 0 n t) = n.
Proof.
  induction n as [|n IH]; intros t Ht.
  - destruct t; reflexivity.
  - destruct t as [|c t]; [simpl in Ht; lia|]. simpl. rewrite IH; [reflexivity|].
    simpl in Ht. lia.
Qed.

(** X11.  The name of a layer's aggregate column is the flag field without
    its last two characters, followed by [A]; a flag field of at most two
    characters gives [A].  So two flag fields that differ only in their
    last two characters give the same aggregate column; and the aggregate
    column of a flag field of two characters or more is one character
    shorter, so it is not the flag field itself. *)
Theorem field_name_drops_two_characters :
  (forall p a b, field_name (p ++ String a (String b "")) = (p ++ "A")%string)
  /\ (forall s, (String.length s <= 2)%nat -> field_name s = "A")
  /\ (forall p s1 s2,
         String.length s1 = 2%nat -> String.length s2 = 2%nat ->
         field_name (p ++ s1) = field_name (p ++ s2))
  /\ (forall s, (2 <= String.length s)%nat ->
                String.length (field_name s) = (String.length s - 1)%nat
                /\ field_name s <> s).
Proof.
  assert (forall p a b, field_name (p ++ String a (String b "")) = (p ++ "A")%string)
    as Hdrop.
  { intros p a b. unfold field_name. rewrite length_append. cbn [String.length].
    replace (String.length p + 2 - 2)%nat with (String.length p) by lia.
    rewrite substring_prefix. reflexivity. }
  split; [exact Hdrop|]. split; [|split].
  - intros s Hs. unfold field_name.
    replace (String.length s - 2)%nat with 0%nat by lia.
    destruct s; reflexivity.
  - intros p s1 s2 H1 H2.
    destruct s1 as [|a1 [|b1 [|c1 s1]]]; try discriminate H1.
    destruct s2 as [|a2 [|b2 [|c2 s2]]]; try discriminate H2.
    rewrite !Hdrop. reflexivity.
  - intros s Hs.
    assert (String.length (field_name s) = (String.length s - 1)%nat) as Hl.
    { unfold field_name. rewrite length_append. cbn [String.length].
      rewrite length_substring by lia. lia. }
    split; [exact Hl|]. intros H. rewrite H in Hl. lia.
Qed.

(** [mod_2050] and a would-be [mod_2080] both give [mod_20A]. *)
Lemma field_name_drops_two_characters_witness :
  field_name "500yr" = "500A"
  /\ field_name "yr" = "A"
  /\ field_name "mod_2050" = field_name "mod_2080".
Proof.
  destruct field_name_drops_two_characters as [H1 [H2 [H3 _]]].
  split; [exact (H1 "500" "y"%char "r"%char)|].
  split; [apply H2; simpl; lia|].
  exact (H3 "mod_20" "50" "80" eq_refl eq_refl).
Defined.

(** ** The attributes taken with ['first'] *)

Lemma lookup_dissolved_first I n rest k c :
  n <> "unique_id" -> c <> "unique_id" -> c <> n ->
  find (fun a : string * aggfun => String.eqb (fst a) c) rest = Some (c, First) ->
  lookup (dissolved I n rest) "unique_id" k c = first_value I c k.
Proof.
  intros Hn Hc Hcn Hf. unfold dissolved. rewrite lookup_grouped by exact Hc.
  unfold with_fragment_area.
  rewrite (touched_map _ _ I "unique_id" k (key_with_area n Hn)).
  unfold first_value. destruct (touched I "unique_id" k); [|reflexivity].
  cbn [find fst].
  assert (String.eqb n c = false) as -> by (apply String.eqb_neq; congruence).
  rewrite Hf. cbn [snd fst apply_agg].
  rewrite (matches_map _ _ I "unique_id" k (key_with_area n Hn)).
  rewrite map_map. f_equal. apply map_ext. intros r.
  apply cell_set_cell_other. exact Hcn.
Qed.

Lemma lookup_points_first present_311 k c :
  In c ["depcall"; "Point_Coun"] ->
  lookup (points_table present_311) "unique_id" k c = first_value present_311 c k.
Proof.
  intros Hc. unfold points_table.
  rewrite lookup_grouped by (destruct Hc as [<-|[<-|[]]]; discriminate).
  unfold select.
  rewrite (touched_map (keep_row ["unique_id"; "depcall"; "Point_Coun"]) _ present_311
                       "unique_id" k keep_key).
  unfold first_value. destruct (touched present_311 "unique_id" k); [|reflexivity].
  rewrite (matches_map (keep_row ["unique_id"; "depcall"; "Point_Coun"]) _ present_311
                       "unique_id" k keep_key).
  destruct Hc as [<-|[<-|[]]];
    cbn [find fst snd String.eqb Ascii.eqb Bool.eqb apply_agg];
    rewrite map_map; reflexivity.
Qed.



(** ** Zones without an area *)

Lemma area_flag_value_no_area agg : area_flag_value agg NaN = Int 0.
Proof. unfold area_flag_value. destruct (to_Q agg); reflexivity. Qed.

(** X21.  In every run that succeeds, a row whose [area] is missing (a
    zone without a geometry) has every area flag 0, whatever the layers
    cover: the comparison with a missing threshold is false.  Its
    [BZ_future] and [BZ_past] are 0, and its [BZ_present] is its 311
    flag. *)
Theorem zone_without_area_is_not_flagged :
  (forall overlay output_directory atomic mod_2050 ext_2080 f500yr out,
      run_future overlay output_directory atomic mod_2050 ext_2080 f500yr = Ok out ->
      Forall (fun r => cell r "area" = NaN ->
                       cell r "mod_20Afg" = Int 0 /\ cell r "ext_20Afg" = Int 0
                       /\ cell r "500Afg" = Int 0 /\ cell r "BZ_future" = Int 0)
             (rows (final_df out)))
  /\ (forall overlay output_directory atomic present_311 mod_cur f100yr out,
         run_present overlay output_directory atomic present_311 mod_cur f100yr = Ok out ->
         Forall (fun r => cell r "area" = NaN ->
                          cell r "mod_cAfg" = Int 0 /\ cell r "100Afg" = Int 0
                          /\ cell r "BZ_present" = cell r "depcaAfg")
                (rows (final_df out)))
  /\ (forall overlay output_directory atomic layers out,
         run_past overlay output_directory atomic layers = Ok out ->
         Forall (fun r => cell r "area" = NaN -> cell r "BZ_past" = Int 0)
                (rows (final_df out))).
Proof.
  split; [|split].
  - intros overlay output_directory atomic mod_2050 ext_2080 f500yr out Hrun.
    destruct (run_future_final _ _ _ _ _ _ _ Hrun) as [joined ->].
    apply Forall_map_rows. intros r0 Ha.
    destruct (future_final_cells r0) as [F1 [F2 [F3 B]]].
    rewrite B, F1, F2, F3, Ha, !area_flag_value_no_area. repeat split; reflexivity.
  - intros overlay output_directory atomic present_311 mod_cur f100yr out Hrun.
    destruct (run_present_final _ _ _ _ _ _ _ Hrun) as [joined ->].
    apply Forall_map_rows. intros r0 Ha.
    destruct (present_final_cells (has_column joined "Point_Coun") r0)
      as [D [F2 [F3 B]]].
    rewrite B, F2, F3, Ha, !area_flag_value_no_area.
    split; [reflexivity|]. split; [reflexivity|].
    destruct D as [-> | ->]; reflexivity.
  - intros overlay output_directory atomic layers out Hrun.
    destruct (run_past_final _ _ _ _ _ Hrun) as [joined ->].
    apply Forall_map_rows. intros r0. cells. intros Ha.
    rewrite Ha. apply area_flag_value_no_area.
Qed.

(** The example zones, Z1 without a geometry: the moderate-2050 layer
    covers 110 of it, and its flag is 0. *)
Lemma zone_without_area_is_not_flagged_witness :
  exists out r,
    run_future Example.overlay "out" Sample.atomic_no_geometry Example.mod_2050
               Example.ext_2080 Example.f500yr = Ok out
    /\ nth_error (rows (final_df out)) 0 = Some r
    /\ cell r "unique_id" = Str "Z1"
    /\ cell r "mod_20A" = Float (0 + 60 + 50)
    /\ cell r "mod_20Afg" = Int 0 /\ cell r "BZ_future" = Int 0.
Proof.
  destruct (run_future Example.overlay "out" Sample.atomic_no_geometry Example.mod_2050
                       Example.ext_2080 Example.f500yr) as [out|e] eqn:Hrun;
    [|vm_compute in Hrun; discriminate Hrun].
  pose proof (proj1 zone_without_area_is_not_flagged
                _ _ _ _ _ _ _ Hrun) as Hrows.
  destruct (rows (final_df out)) as [|r1 rs] eqn:E;
    try (vm_compute in Hrun; injection Hrun as <-; discriminate E).
  exists out, r1. split; [reflexivity|]. rewrite E. split; [reflexivity|].
  assert (cell r1 "unique_id" = Str "Z1" /\ cell r1 "mod_20A" = Float (0 + 60 + 50)
          /\ cell r1 "area" = NaN) as [Hk [Hm Ha]]
      by (vm_compute in Hrun; injection Hrun as <-; injection E as <- _;
          repeat split; reflexivity).
  split; [exact Hk|]. split; [exact Hm|].
  inversion Hrows as [|? ? H _]; subst.
  destruct (H Ha) as [H1 [_ [_ H4]]]. split; assumption.
Defined.

(** * Paths and directories *)

Lemma path_eta p : mkPath (anchor p) (parts p) = p.
Proof. destruct p; reflexivity. Qed.

Lemma joinpath_relative p q :
  anchor q = "" -> joinpath p q = mkPath (anchor p) (parts p ++ parts q).
Proof. intros H. unfold joinpath. rewrite H. reflexivity. Qed.

Lemma app_two_inj {X : Type} (l1 l2 : list X) a b c d :
  l1 ++ [a; b] = l2 ++ [c; d] -> l1 = l2 /\ a = c /\ b = d.
Proof.
  intros H.
  change (l1 ++ [a; b]) with (l1 ++ [a] ++ [b]) in H.
  change (l2 ++ [c; d]) with (l2 ++ [c] ++ [d]) in H.
  rewrite !app_assoc in H. apply app_inj_tail in H as [H ->].
  apply app_inj_tail in H as [-> ->]. auto.
Qed.

Lemma names_of_csv_files (l : list string) : nodup string_dec l = l -> NoDup l.
Proof. intros H. rewrite <- H. apply NoDup_nodup. Qed.

(** X12.  When [BLUEZONES_OUTPUT_DIR] is set (and not empty),
    [output_dir] returns that directory whatever the default is: the three
    epoch scripts then write into one directory.  They do not overwrite
    each other: no CSV file name of one epoch is a name of another.  When
    the variable is not set, or empty, the three epochs write into three
    different sub-directories of the base directory. *)
Theorem epochs_share_an_overridden_output_directory :
  (forall getenv resolve od default_subdir fs,
      getenv "BLUEZONES_OUTPUT_DIR" = Some od -> od <> "" ->
      fst (output_dir getenv resolve default_subdir fs) = path_of_string od)
  /\ (forall getenv resolve fs,
         getenv "BLUEZONES_OUTPUT_DIR" = None
         \/ getenv "BLUEZONES_OUTPUT_DIR" = Some "" ->
         let dir d := fst (output_dir getenv resolve d fs) in
         dir "output_csv/past" <> dir "output_csv/present"
         /\ dir "output_csv/present" <> dir "output_csv/future"
         /\ dir "output_csv/past" <> dir "output_csv/future"
         /\ parts (dir "output_csv/future")
            = parts (base_dir getenv resolve) ++ ["output_csv"; "future"])
  /\ (forall overlay output_directory atomic mod_2050 ext_2080 f500yr present_311
             mod_cur f100yr layers future present past,
         run_future overlay output_directory atomic mod_2050 ext_2080 f500yr
         = Ok future ->
         run_present overlay output_directory atomic present_311 mod_cur f100yr
         = Ok present ->
         List.length layers = 10%nat ->
         run_past overlay output_directory atomic layers = Ok past ->
         NoDup (map fst (dissolved_csv future) ++ [fst (final_csv future)]
                ++ map fst (dissolved_csv present) ++ [fst (final_csv present)]
                ++ map fst (dissolved_csv past) ++ [fst (final_csv past)])).
Proof.
  split; [|split].
  - intros getenv resolve od default_subdir fs Hod Hne. unfold output_dir.
    rewrite Hod. destruct od; [congruence|reflexivity].
  - intros getenv resolve fs Hod.
    assert (forall d, fst (output_dir getenv resolve d fs)
                      = joinpath (base_dir getenv resolve) (path_of_string d)) as Hd.
    { intros d. unfold output_dir. destruct Hod as [-> | ->]; reflexivity. }
    cbv beta zeta. rewrite !Hd.
    rewrite !joinpath_relative by reflexivity.
    change (parts (path_of_string "output_csv/past")) with ["output_csv"; "past"].
    change (parts (path_of_string "output_csv/present")) with ["output_csv"; "present"].
    change (parts (path_of_string "output_csv/future")) with ["output_csv"; "future"].
    repeat split; try (intros H; injection H as H; apply app_two_inj in H as [_ [_ H]];
                       discriminate H).
  - intros overlay output_directory atomic mod_2050 ext_2080 f500yr present_311
           mod_cur f100yr layers future present past Hf Hp Hlen Hpa.
    destruct (run_future_stages _ _ _ _ _ _ _ Hf)
      as [M1 [j1 [_ [_ [_ [_ [_ [_ [_ [_ ->]]]]]]]]]].
    destruct (run_present_stages _ _ _ _ _ _ _ Hp)
      as [M2 [j2 [_ [_ [_ [_ [_ [_ [_ [_ ->]]]]]]]]]].
    destruct (run_past_stages _ _ _ _ _ Hlen Hpa)
      as [M3 [j3 [_ [_ [_ [_ [_ [_ [_ ->]]]]]]]]].
    cbn [dissolved_csv final_csv fst].
    unfold future_tables, present_tables, past_tables.
    destruct layers as [|l0 [|l1 [|l2 [|l3 [|l4 [|l5 [|l6 [|l7 [|l8 [|l9 [|l10 ls]]]]]]]]]]];
      try discriminate Hlen.
    cbn [combine firstn past_flags map fst snd app].
    apply names_of_csv_files. vm_compute. reflexivity.
Qed.

Lemma epochs_share_an_overridden_output_directory_witness :
  fst (output_dir Sample.output_set Sample.resolve "output_csv/past" [])
  = fst (output_dir Sample.output_set Sample.resolve "output_csv/future" [])
  /\ fst (output_dir Sample.nothing_set Sample.resolve "output_csv/past" [])
     <> fst (output_dir Sample.nothing_set Sample.resolve "output_csv/present" []).
Proof.
  destruct epochs_share_an_overridden_output_directory as [H1 [H2 _]].
  split.
  - rewrite (H1 Sample.output_set Sample.resolve "/data/out" "output_csv/past" [])
      by (reflexivity || discriminate).
    rewrite (H1 Sample.output_set Sample.resolve "/data/out" "output_csv/future" [])
      by (reflexivity || discriminate).
    reflexivity.
  - apply (H2 Sample.nothing_set Sample.resolve []). left. reflexivity.
Defined.

(** X13.  For the functions of [common_paths.py] a variable that is set to
    the empty string is a variable that is not set: [base_dir],
    [path_from_env] and [output_dir] return the same paths and make the
    same directories. *)
Theorem empty_variable_is_unset :
  forall getenv resolve,
    base_dir (without_empty getenv) resolve = base_dir getenv resolve
    /\ (forall var relative_default,
           path_from_env (without_empty getenv) resolve var relative_default
           = path_from_env getenv resolve var relative_default)
    /\ (forall default_subdir fs,
           output_dir (without_empty getenv) resolve default_subdir fs
           = output_dir getenv resolve default_subdir fs).
Proof.
  intros getenv resolve.
  assert (base_dir (without_empty getenv) resolve = base_dir getenv resolve) as Hb.
  { unfold base_dir, getenv_or, without_empty.
    destruct (getenv "BLUEZONES_BASE_DIR") as [[|c s]|]; reflexivity. }
  split; [exact Hb|]. split.
  - intros var relative_default. unfold path_from_env. rewrite Hb.
    unfold without_empty. destruct (getenv var) as [[|c s]|]; reflexivity.
  - intros default_subdir fs. unfold output_dir. rewrite Hb.
    unfold without_empty.
    destruct (getenv "BLUEZONES_OUTPUT_DIR") as [[|c s]|]; reflexivity.
Qed.

(** X14.  Where [past_processing.py] writes, compared with the output
    directory of [id_bluebelts_past.py].  With nothing set they are the
    same directory, [<base>/output_csv/past].  With [BLUEZONES_OUTPUT_DIR]
    set to a directory the analysis writes into that directory and the
    pre-processing into its sub-directory [past].  And the pre-processing
    takes an empty [BLUEZONES_OUTPUT_DIR] as the working directory, so
    that it writes into the relative directory [past], where
    [common_paths.py] takes it as not set. *)
Theorem preprocessing_output_directory :
  forall getenv resolve fs,
    getenv "PAST_PROCESSED_DIR" = None \/ getenv "PAST_PROCESSED_DIR" = Some "" ->
    let processed := fst (_output_dir getenv resolve fs) in
    let analysed := fst (output_dir getenv resolve "output_csv/past" fs) in
    (getenv "BLUEZONES_OUTPUT_DIR" = None -> processed = analysed)
    /\ (forall od, getenv "BLUEZONES_OUTPUT_DIR" = Some od -> od <> "" ->
                   analysed = path_of_string od
                   /\ processed = joinpath (path_of_string od) (path_of_string "past")
                   /\ processed <> analysed)
    /\ (getenv "BLUEZONES_OUTPUT_DIR" = Some "" ->
        processed = mkPath "" ["past"]
        /\ parts analysed = parts (base_dir getenv resolve) ++ ["output_csv"; "past"]
        /\ processed <> analysed).
Proof.
  intros getenv resolve fs Hs. cbv zeta.
  assert (forall out_root,
             match getenv "PAST_PROCESSED_DIR" with
             | Some (String _ _ as specific) => path_of_string specific
             | _ => joinpath out_root (path_of_string "past")
             end = mkPath (anchor out_root) (parts out_root ++ ["past"])) as Hp.
  { intros out_root. destruct Hs as [-> | ->]; reflexivity. }
  unfold _output_dir, output_dir. cbn [fst]. rewrite Hp.
  split; [|split].
  - intros Hod. rewrite Hod.
    unfold _base_dir, base_dir. rewrite !joinpath_relative by reflexivity.
    cbn [anchor parts]. rewrite <- app_assoc. reflexivity.
  - intros od Hod Hne. rewrite Hod. destruct od as [|c od]; [congruence|].
    split; [reflexivity|]. split.
    + rewrite joinpath_relative by reflexivity. reflexivity.
    + generalize (path_of_string (String c od)). intros P H.
      apply (f_equal (fun p => List.length (parts p))) in H. cbn [parts] in H.
      rewrite length_app in H. simpl in H. lia.
  - intros Hod. rewrite Hod. split; [reflexivity|].
    rewrite joinpath_relative by reflexivity. cbn [parts]. split; [reflexivity|].
    intros H. apply (f_equal (fun p => List.length (parts p))) in H.
    cbn [parts] in H. rewrite !length_app in H. simpl in H. lia.
Qed.

Lemma preprocessing_output_directory_witness :
  fst (_output_dir Sample.nothing_set Sample.resolve [])
  = fst (output_dir Sample.nothing_set Sample.resolve "output_csv/past" [])
  /\ fst (_output_dir Sample.output_set Sample.resolve [])
     = mkPath "/" ["data"; "out"; "past"]
  /\ fst (_output_dir Sample.output_empty Sample.resolve []) = mkPath "" ["past"].
Proof.
  split; [|split].
  - apply (preprocessing_output_directory Sample.nothing_set Sample.resolve []);
      [left; reflexivity|reflexivity].
  - destruct (proj1 (proj2 (preprocessing_output_directory
                              Sample.output_set Sample.resolve []
                              (or_introl eq_refl)))
                    "/data/out" eq_refl) as [_ [H _]]; [discriminate|].
    rewrite H. reflexivity.
  - apply (preprocessing_output_directory Sample.output_empty Sample.resolve []);
      [left; reflexivity|reflexivity].
Defined.

(** X15.  With [PAST_PROCESSED_DIR], [PAST_STREAMS_PATH] and
    [PAST_TIDALCREEK_PATH] not set (or empty), the two layers that
    [past_processing.py] writes are not the files that
    [id_bluebelts_past.py] reads, whatever the other variables say: the
    pre-processing writes them into a directory [past], the analysis reads
    them from [<base>/historical]; the file names are the same. *)
Theorem preprocessed_layers_are_not_read_by_default :
  forall getenv resolve fs,
    getenv "PAST_PROCESSED_DIR" = None \/ getenv "PAST_PROCESSED_DIR" = Some "" ->
    getenv "PAST_STREAMS_PATH" = None \/ getenv "PAST_STREAMS_PATH" = Some "" ->
    getenv "PAST_TIDALCREEK_PATH" = None \/ getenv "PAST_TIDALCREEK_PATH" = Some "" ->
    let FINAL_DIR := fst (_output_dir getenv resolve fs) in
    let streams := joinpath FINAL_DIR (path_of_string "streams_buffered.shp") in
    let tidal_creek := joinpath FINAL_DIR (path_of_string "tidal_creek.shp") in
    streams <> past_streams_path getenv resolve
    /\ tidal_creek <> past_tidalcreek_path getenv resolve
    /\ name streams = name (past_streams_path getenv resolve)
    /\ name tidal_creek = name (past_tidalcreek_path getenv resolve)
    /\ name (parent streams) = "past"
    /\ name (parent (past_streams_path getenv resolve)) = "historical".
Proof.
  intros getenv resolve fs Hd Hs Ht. cbv zeta.
  assert (exists root,
             fst (_output_dir getenv resolve fs)
             = mkPath (anchor root) (parts root ++ ["past"])) as [root Hroot].
  { unfold _output_dir. cbn [fst].
    eexists. destruct Hd as [-> | ->]; rewrite joinpath_relative by reflexivity;
      reflexivity. }
  rewrite Hroot.
  assert (past_streams_path getenv resolve
          = mkPath (anchor (base_dir getenv resolve))
                   (parts (base_dir getenv resolve)
                    ++ ["historical"; "streams_buffered.shp"])) as ->.
  { unfold past_streams_path, path_from_env.
    destruct Hs as [-> | ->]; rewrite joinpath_relative by reflexivity; reflexivity. }
  assert (past_tidalcreek_path getenv resolve
          = mkPath (anchor (base_dir getenv resolve))
                   (parts (base_dir getenv resolve)
                    ++ ["historical"; "tidal_creek.shp"])) as ->.
  { unfold past_tidalcreek_path, path_from_env.
    destruct Ht as [-> | ->]; rewrite joinpath_relative by reflexivity; reflexivity. }
  rewrite !joinpath_relative by reflexivity. cbn [anchor parts].
  change (parts (path_of_string "streams_buffered.shp")) with ["streams_buffered.shp"].
  change (parts (path_of_string "tidal_creek.shp")) with ["tidal_creek.shp"].
  rewrite <- !app_assoc. cbn [app].
  unfold name, parent. cbn [parts].
  repeat split.
  - intros H. injection H as _ H. apply app_two_inj in H as [_ [H _]]. discriminate H.
  - intros H. injection H as _ H. apply app_two_inj in H as [_ [H _]]. discriminate H.
  - change (parts root ++ ["past"; "streams_buffered.shp"])
      with (parts root ++ ["past"] ++ ["streams_buffered.shp"]).
    change (parts (base_dir getenv resolve) ++ ["historical"; "streams_buffered.shp"])
      with (parts (base_dir getenv resolve) ++ ["historical"] ++ ["streams_buffered.shp"]).
    rewrite !app_assoc, !last_last. reflexivity.
  - change (parts root ++ ["past"; "tidal_creek.shp"])
      with (parts root ++ ["past"] ++ ["tidal_creek.shp"]).
    change (parts (base_dir getenv resolve) ++ ["historical"; "tidal_creek.shp"])
      with (parts (base_dir getenv resolve) ++ ["historical"] ++ ["tidal_creek.shp"]).
    rewrite !app_assoc, !last_last. reflexivity.
  - change (parts root ++ ["past"; "streams_buffered.shp"])
      with (parts root ++ ["past"] ++ ["streams_buffered.shp"]).
    rewrite app_assoc, removelast_last, last_last. reflexivity.
  - change (parts (base_dir getenv resolve) ++ ["historical"; "streams_buffered.shp"])
      with (parts (base_dir getenv resolve) ++ ["historical"] ++ ["streams_buffered.shp"]).
    rewrite app_assoc, removelast_last, last_last. reflexivity.
Qed.

Lemma preprocessed_layers_are_not_read_by_default_witness :
  joinpath (fst (_output_dir Sample.nothing_set Sample.resolve []))
           (path_of_string "streams_buffered.shp")
  = mkPath "/" ["home"; "user"; "output_csv"; "past"; "streams_buffered.shp"]
  /\ past_streams_path Sample.nothing_set Sample.resolve
     = mkPath "/" ["home"; "user"; "historical"; "streams_buffered.shp"]
  /\ joinpath (fst (_output_dir Sample.nothing_set Sample.resolve []))
              (path_of_string "streams_buffered.shp")
     <> past_streams_path Sample.nothing_set Sample.resolve.
Proof.
  split; [reflexivity|]. split; [reflexivity|].
  apply (preprocessed_layers_are_not_read_by_default
           Sample.nothing_set Sample.resolve []); left; reflexivity.
Defined.

(** ** The directories the scripts make *)

Lemma in_chain_self p : parts p <> [] -> In p (chain p).
Proof.
  intros H. unfold chain. apply in_map_iff. exists (List.length (parts p)).
  split; [rewrite firstn_all; apply path_eta|].
  apply in_seq. destruct (parts p); [congruence|]. simpl. lia.
Qed.

Lemma chain_joinpath p x :
  forall q, In q (chain p) -> In q (chain (mkPath (anchor p) (parts p ++ [x]))).
Proof.
  intros q Hq. unfold chain in *. cbn [anchor parts].
  apply in_map_iff in Hq as [n [<- Hn]]. apply in_seq in Hn.
  apply in_map_iff. exists n. split.
  - rewrite firstn_app. replace (n - List.length (parts p))%nat with 0%nat by lia.
    cbn [firstn]. rewrite app_nil_r. reflexivity.
  - apply in_seq. rewrite length_app. simpl. lia.
Qed.

(** X16.  [output_dir] and [shapefile_subdir], as the epoch scripts call
    them: the shapefile directory is the sub-directory [shapefiles] of the
    output directory; after the calls both directories and all their
    parents exist; no directory that existed is gone; and calling them
    again changes nothing. *)
Theorem output_directories_are_made :
  forall getenv resolve default_subdir fs,
    let made := output_directories getenv resolve default_subdir fs in
    let output_directory := fst (fst made) in
    let output_directory_shp := snd (fst made) in
    output_directory = fst (output_dir getenv resolve default_subdir fs)
    /\ name output_directory_shp = "shapefiles"
    /\ parent output_directory_shp = output_directory
    /\ In output_directory_shp (snd made)
    /\ (parts output_directory <> [] -> In output_directory (snd made))
    /\ (forall p, In p (chain output_directory_shp) -> In p (snd made))
    /\ (forall p, In p fs -> In p (snd made))
    /\ (forall p, In p (snd (output_directories getenv resolve default_subdir (snd made)))
                  <-> In p (snd made)).
Proof.
  intros getenv resolve default_subdir fs. cbv zeta.
  unfold output_directories, output_dir, shapefile_subdir. cbn [fst snd].
  set (out := match getenv "BLUEZONES_OUTPUT_DIR" with
              | Some (String _ _ as od) => path_of_string od
              | _ => joinpath (base_dir getenv resolve) (path_of_string default_subdir)
              end).
  rewrite (joinpath_relative out (path_of_string "shapefiles")) by reflexivity.
  change (parts (path_of_string "shapefiles")) with ["shapefiles"].
  set (shp := mkPath (anchor out) (parts out ++ ["shapefiles"])).
  unfold mkdir.
  assert (In shp (chain shp)) as Hshp
      by (apply in_chain_self; unfold shp; cbn [parts]; destruct (parts out); discriminate).
  split; [reflexivity|]. split; [unfold name, shp; cbn [parts]; apply last_last|].
  split; [unfold parent, shp; cbn [parts anchor]; rewrite removelast_last; apply path_eta|].
  split; [apply in_or_app; right; exact Hshp|].
  split; [intros Hne; apply in_or_app; left; apply in_or_app; right;
          apply in_chain_self; exact Hne|].
  split; [intros p Hp; apply in_or_app; right; exact Hp|].
  split; [intros p Hp; apply in_or_app; left; apply in_or_app; left; exact Hp|].
  intros p. split; [|intros Hp; apply in_or_app; left; apply in_or_app; left; exact Hp].
  intros Hp. apply in_app_or in Hp as [Hp|Hp].
  - apply in_app_or in Hp as [Hp|Hp]; [exact Hp|].
    apply in_or_app. left. apply in_or_app. right. exact Hp.
  - apply in_or_app. right. exact Hp.
Qed.

(** With nothing set, in the working directory [/home/user]. *)
Lemma output_directories_are_made_witness :
  output_directories Sample.nothing_set Sample.resolve "output_csv/future" []
  = (mkPath "/" ["home"; "user"; "output_csv"; "future"],
     mkPath "/" ["home"; "user"; "output_csv"; "future"; "shapefiles"],
     snd (output_directories Sample.nothing_set Sample.resolve "output_csv/future" []))
  /\ In (mkPath "/" ["home"; "user"; "output_csv"])
        (snd (output_directories Sample.nothing_set Sample.resolve "output_csv/future" [])).
Proof.
  split; [reflexivity|].
  apply (output_directories_are_made Sample.nothing_set Sample.resolve
                                     "output_csv/future" []).
  vm_compute. tauto.
Defined.

(** * The pre-processing of the past layers *)

Lemma cell_reprojected (g : value -> value) r :
  mem "geometry" (labels r) = true ->
  cell (map (fun p => if String.eqb (fst p) "geometry" then (fst p, g (snd p)) else p) r)
       "geometry"
  = g (cell r "geometry").
Proof.
  induction r as [|p r IH]; intros H; [discriminate|].
  cbn [map]. rewrite !cell_cons.
  destruct (String.eqb (fst p) "geometry") eqn:E; cbn [fst snd]; rewrite E; [reflexivity|].
  apply IH. cbn [labels map mem existsb] in H.
  rewrite String.eqb_sym, E in H. exact H.
Qed.

Lemma labels_reprojected (g : value -> value) r :
  labels (map (fun p => if String.eqb (fst p) "geometry" then (fst p, g (snd p)) else p) r)
  = labels r.
Proof.
  unfold labels. rewrite map_map. apply map_ext. intros p.
  destruct (String.eqb (fst p) "geometry"); reflexivity.
Qed.

Lemma buffered_layer reproject buffer gdf flag :
  wf gdf -> has_column gdf "geometry" = true -> flag <> "geometry" ->
  buffered buffer (set_column (to_crs reproject gdf) flag (Int 1)) 15 flag
  = mkDF ["geometry"; flag]
         (map (fun r => [("geometry", buffer 15 (reproject (cell r "geometry")));
                         (flag, Int 1)]) (rows gdf)).
Proof.
  intros Hwf Hg Hne. unfold buffered, set_column, to_crs. cbn [rows columns].
  f_equal. rewrite !map_map. apply map_ext_in. intros r Hr.
  rewrite cell_set_cell_other by congruence.
  rewrite cell_reprojected; [reflexivity|].
  rewrite (proj1 (Forall_forall _ _) Hwf r Hr). exact Hg.
Qed.

(** X17.  When the nine raw layers can be read, [past_processing.py] runs
    to its end and writes two layers into its output directory,
    [streams_buffered.shp] and [tidal_creek.shp]: one record for every
    record of the raw streams (tidal creeks) layer, in the same order,
    holding the geometry re-projected and then buffered by 15, and the
    flag [streams] ([tidal_cree]) equal to 1; every other attribute of the
    raw layer is dropped. *)
Theorem preprocessing_writes_two_buffered_layers :
  forall getenv resolve read_file reproject buffer fs streams tidal_creek_a,
    load_inputs getenv resolve read_file = Some (streams, tidal_creek_a) ->
    wf streams -> has_column streams "geometry" = true ->
    wf tidal_creek_a -> has_column tidal_creek_a "geometry" = true ->
    let out := run_past_processing getenv resolve read_file reproject buffer fs in
    let FINAL_DIR := fst (_output_dir getenv resolve fs) in
    let layer gdf flag :=
      mkDF ["geometry"; flag]
           (map (fun r => [("geometry", buffer 15 (reproject (cell r "geometry")));
                           (flag, Int 1)]) (rows gdf)) in
    completed out = true
    /\ written out
       = [(joinpath FINAL_DIR (path_of_string "streams_buffered.shp"),
           layer streams "streams");
          (joinpath FINAL_DIR (path_of_string "tidal_creek.shp"),
           layer tidal_creek_a "tidal_cree")]
    /\ lines out
       = ["Loading Welikia layers…"; "Welikia layers loaded";
          ("Wrote: " ++ path_to_string
                          (joinpath FINAL_DIR (path_of_string "streams_buffered.shp")))%string;
          ("Wrote: " ++ path_to_string
                          (joinpath FINAL_DIR (path_of_string "tidal_creek.shp")))%string;
          "Past preprocessing complete."]
    /\ dirs out = snd (_output_dir getenv resolve fs).
Proof.
  intros getenv resolve read_file reproject buffer fs streams tidal_creek_a
         Hload Hw1 Hg1 Hw2 Hg2.
  cbv zeta. unfold run_past_processing.
  destruct (_output_dir getenv resolve fs) as [FINAL_DIR fs'] eqn:Ed.
  rewrite Hload. cbn [completed written lines dirs fst snd].
  rewrite (buffered_layer reproject buffer streams "streams" Hw1 Hg1)
    by discriminate.
  rewrite (buffered_layer reproject buffer tidal_creek_a "tidal_cree" Hw2 Hg2)
    by discriminate.
  repeat split; reflexivity.
Qed.

(** On the example layers: three stream lines and one tidal creek, each
    with a name; the buffer adds 30 to the area. *)
Lemma preprocessing_writes_two_buffered_layers_witness :
  written (run_past_processing Sample.nothing_set Sample.resolve Sample.read_file
                               Sample.reproject Sample.buffer [])
  = [(mkPath "/" ["home"; "user"; "output_csv"; "past"; "streams_buffered.shp"],
      mkDF ["geometry"; "streams"]
           [[("geometry", Geom (10 + 2 * 15)); ("streams", Int 1)];
            [("geometry", Geom (20 + 2 * 15)); ("streams", Int 1)];
            [("geometry", Geom (30 + 2 * 15)); ("streams", Int 1)]]);
     (mkPath "/" ["home"; "user"; "output_csv"; "past"; "tidal_creek.shp"],
      mkDF ["geometry"; "tidal_cree"]
           [[("geometry", Geom (5 + 2 * 15)); ("tidal_cree", Int 1)]])].
Proof.
  destruct (preprocessing_writes_two_buffered_layers
              Sample.nothing_set Sample.resolve Sample.read_file
              Sample.reproject Sample.buffer [] Sample.streams Sample.tidal_creeks)
    as [_ [H _]].
  - reflexivity.
  - repeat constructor.
  - reflexivity.
  - repeat constructor.
  - reflexivity.
  - rewrite H. reflexivity.
Defined.

(** X18.  [past_processing.py] reads all nine raw layers before it does
    anything else, although it goes on with two of them only: it runs to
    its end exactly when every one of the nine can be read.  When one
    cannot, it stops after its first printed line and writes no layer; its
    output directory has been made by then. *)
Theorem preprocessing_needs_all_nine_layers :
  forall getenv resolve read_file reproject buffer fs,
    let out := run_past_processing getenv resolve read_file reproject buffer fs in
    (completed out = true
     <-> Forall (fun p => read_file p <> None)
                [freshwater_river_path getenv resolve;
                 freshwater_wet_path getenv resolve;
                 marine_water_path getenv resolve;
                 ponds_path getenv resolve;
                 saltmarsh_path getenv resolve;
                 streams_path getenv resolve;
                 tidal_creeks_path getenv resolve;
                 surficial_geology_path getenv resolve;
                 beaches_path getenv resolve])
    /\ (completed out = false ->
        written out = [] /\ lines out = ["Loading Welikia layers…"])
    /\ dirs out = snd (_output_dir getenv resolve fs)
    /\ (forall p, In p (chain (fst (_output_dir getenv resolve fs))) -> In p (dirs out)).
Proof.
  intros getenv resolve read_file reproject buffer fs. cbv zeta.
  unfold run_past_processing.
  assert (forall p, In p (chain (fst (_output_dir getenv resolve fs))) ->
                    In p (snd (_output_dir getenv resolve fs))) as Hmade.
  { intros p Hp. unfold _output_dir, mkdir in *. cbn [fst snd] in *.
    apply in_or_app. right. exact Hp. }
  destruct (_output_dir getenv resolve fs) as [FINAL_DIR fs'] eqn:Ed.
  cbn [fst snd] in *.
  assert (match load_inputs getenv resolve read_file with
          | Some _ => True
          | None => False
          end
          <-> Forall (fun p => read_file p <> None)
                     [freshwater_river_path getenv resolve;
                      freshwater_wet_path getenv resolve;
                      marine_water_path getenv resolve;
                      ponds_path getenv resolve;
                      saltmarsh_path getenv resolve;
                      streams_path getenv resolve;
                      tidal_creeks_path getenv resolve;
                      surficial_geology_path getenv resolve;
                      beaches_path getenv resolve]) as Hall.
  { unfold load_inputs.
    repeat match goal with
           | |- context [and_then (read_file ?p) _] =>
               destruct (read_file p) eqn:?; cbn [and_then]
           end;
      (split; [intros H; try destruct H; repeat constructor; congruence
              |intros H; try exact I;
               repeat match goal with
                      | H : Forall _ (_ :: _) |- _ => inversion H; clear H; subst
                      end; congruence]). }
  destruct (load_inputs getenv resolve read_file) as [[streams tidal_creek_a]|];
    cbn [completed written lines dirs].
  - split; [tauto|]. split; [discriminate|]. split; [reflexivity|exact Hmade].
  - split; [split; [discriminate|intros H; apply Hall in H; destruct H]|].
    split; [intros _; split; reflexivity|]. split; [reflexivity|exact Hmade].
Qed.

(** With a reader that does not find the beaches. *)
Lemma preprocessing_needs_all_nine_layers_witness :
  completed (run_past_processing Sample.nothing_set Sample.resolve
                                 Sample.read_file_no_beaches
                                 Sample.reproject Sample.buffer []) = false
  /\ written (run_past_processing Sample.nothing_set Sample.resolve
                                  Sample.read_file_no_beaches
                                  Sample.reproject Sample.buffer []) = []
  /\ In (mkPath "/" ["home"; "user"; "output_csv"; "past"])
        (dirs (run_past_processing Sample.nothing_set Sample.resolve
                                   Sample.read_file_no_beaches
                                   Sample.reproject Sample.buffer [])).
Proof.
  destruct (preprocessing_needs_all_nine_layers
              Sample.nothing_set Sample.resolve Sample.read_file_no_beaches
              Sample.reproject Sample.buffer []) as [_ [H [_ Hd]]].
  split; [reflexivity|]. split; [apply H; reflexivity|].
  apply Hd. vm_compute. tauto.
Defined.

(** X19.  [_flag_and_minify] keeps the geometry and the flag only: of a
    layer with a geometry column it returns one record per record, in the
    same order, with the geometry re-projected and the flag 1, under the
    two columns [geometry] and [flag_name]; every other attribute is
    dropped. *)
Theorem flag_and_minify_keeps_two_columns :
  forall reproject gdf flag_name,
    wf gdf -> has_column gdf "geometry" = true -> flag_name <> "geometry" ->
    _flag_and_minify reproject gdf flag_name
    = Ok (mkDF ["geometry"; flag_name]
               (map (fun r => [("geometry", reproject (cell r "geometry"));
                               (flag_name, Int 1)]) (rows gdf))).
Proof.
  intros reproject gdf flag_name Hwf Hg Hne.
  unfold _flag_and_minify, getitem. cbn [mapM].
  unfold require, has_column, set_column, to_crs. cbn [columns].
  rewrite !mem_add_column. unfold has_column in Hg. rewrite Hg.
  rewrite String.eqb_refl, orb_true_r. cbn [orb bind].
  unfold select. cbn [rows columns].
  f_equal. f_equal. rewrite !map_map. apply map_ext_in. intros r Hr.
  unfold keep_row. cbn [map].
  rewrite cell_set_cell_same, cell_set_cell_other by congruence.
  rewrite cell_reprojected; [reflexivity|].
  rewrite (proj1 (Forall_forall _ _) Hwf r Hr). exact Hg.
Qed.

Lemma flag_and_minify_keeps_two_columns_witness :
  _flag_and_minify Sample.reproject Sample.streams "river"
  = Ok (mkDF ["geometry"; "river"]
             [[("geometry", Geom 10); ("river", Int 1)];
              [("geometry", Geom 20); ("river", Int 1)];
              [("geometry", Geom 30); ("river", Int 1)]]).
Proof.
  rewrite (flag_and_minify_keeps_two_columns Sample.reproject Sample.streams "river");
    [reflexivity|repeat constructor|reflexivity|discriminate].
Defined.
